(** * Verification of the AVC decoder configuration record parser and of the
      MP4 fragmenter

    Sources embedded here:
    - [packager/media/codecs/avc_decoder_configuration_record.cc]
      ([AVCDecoderConfigurationRecord::ParseInternal], [GetCodecString]);
    - [packager/media/formats/mp4/fragmenter.cc]
      ([Fragmenter::AddSample], [InitializeFragment], [FinalizeFragment],
      [GenerateSegmentReference], [StartsWithSAP]).

    Integers are [Z]; a [uint8_t] read from the input is a [byte], seen as a
    number through [u8]; the differences of [int64_t] times that the
    fragmenter takes are written with their wrap-around ([wrap_int64]). *)

From Stdlib Require Import ZArith List Lia Bool Strings.String Strings.Ascii Strings.Byte.
From stdpp Require Import base option list.

Local Open Scope Z_scope.

(** ** Bytes *)

Definition u8 (b : byte) : Z := Z.of_N (Byte.to_N b).

(** ** The byte cursor *)

Module BufferReader.

(** Modelled from the spec: [BufferReader] (packager/media/base/buffer_reader.h)
    is not among the sources.  The spec asks for "a cursor over a byte
    buffer supporting fixed-width big-endian integer reads, N-byte skip,
    remaining-byte-count query, and absolute position/data access, all of
    which must fail explicitly (not silently truncate) when insufficient
    bytes remain".  A failed operation leaves the cursor where it was. *)
Record t := Build { data : list byte; pos : nat }.

Definition size (r : t) : nat := length (data r).

(** Modelled from the spec: [HasBytes], the "remaining-byte-count query":
    [count] bytes are left from the cursor on. *)
Definition HasBytes (count : nat) (r : t) : bool :=
  Nat.leb (pos r + count) (size r).

(** Modelled from the spec: [Read1], the read of one byte; it fails when no
    byte is left. *)
Definition Read1 (r : t) : option (byte * t) :=
  if HasBytes 1 r
  then match data r !! pos r with
       | Some b => Some (b, Build (data r) (pos r + 1))
       | None => None
       end
  else None.

(** Modelled from the spec: [Read2], the big-endian read of two bytes; it
    fails when fewer than two are left. *)
Definition Read2 (r : t) : option (Z * t) :=
  if HasBytes 2 r
  then match data r !! pos r, data r !! (pos r + 1)%nat with
       | Some hi, Some lo =>
           Some (Z.lor (Z.shiftl (u8 hi) 8) (u8 lo), Build (data r) (pos r + 2))
       | _, _ => None
       end
  else None.

(** Modelled from the spec: [SkipBytes], the "N-byte skip"; it fails when
    fewer than [num_bytes] bytes are left. *)
Definition SkipBytes (num_bytes : nat) (r : t) : option t :=
  if HasBytes num_bytes r
  then Some (Build (data r) (pos r + num_bytes))
  else None.

(** [reader.data() + reader.pos()], as the bytes from the cursor on. *)
Definition remaining (r : t) : list byte := drop (pos r) (data r).

End BufferReader.

(** ** External capabilities of the parser *)

(** [Nalu] (packager/media/codecs/nalu_reader.h) and [H264Parser]
    (packager/media/codecs/h264_parser.h) are not among the sources: the
    parser is verified for every implementation of them.
    - [Nalu_Initialize bytes] is [nalu.Initialize(Nalu::kH264, data, size)],
      [None] when it returns false;
    - [ParseSps nalu] is [parser.ParseSps(nalu, &sps_id)] followed by
      [parser.GetSps(sps_id)], [None] unless the status is [kOk];
    - [ExtractResolutionFromSps sps] yields coded width and height, pixel
      width and height, [None] when it returns false (the four members it
      is handed are then left as they were). *)
Class H264 := {
  Nalu : Type;
  Nalu_Initialize : list byte -> option Nalu;
  Nalu_type : Nalu -> Z;
  H264Sps : Type;
  ParseSps : Nalu -> option H264Sps;
  sps_transfer_characteristics : H264Sps -> Z;
  ExtractResolutionFromSps : H264Sps -> option (Z * Z * Z * Z)
}.

(** Modelled from the spec: [Nalu::H264_SPS], the type of the "primary
    parameter set" (nal_unit_type 7); the enumeration is declared in
    nalu_reader.h. *)
Definition H264_SPS : Z := 7.

(** Modelled from the spec: [Nalu::H264_PPS], the type of the "secondary
    parameter set" (nal_unit_type 8). *)
Definition H264_PPS : Z := 8.

(** ** [AVCDecoderConfigurationRecord] *)

(** The three unit lists of the record, and the four checks made on each
    unit. *)
Inductive UnitList := InSps | InPps | InSpsExt.
Inductive NaluCheck := ReadSize | SkipPayload | NaluInit | NaluType.

(** Where [ParseInternal] returned false: one tag per [RCHECK] (the macro
    logs the failed condition and returns false) and one for the
    [LOG(ERROR)] of line 33. *)
Inductive Failure :=
| FailHeader                              (* lines 26-28 *)
| FailReadLengthSize                      (* line 31 *)
| InvalidNaluLengthSize                   (* lines 32-35 *)
| FailReadNumSps                          (* line 39 *)
| FailNalu (l : UnitList) (c : NaluCheck) (* lines 47-53, 75-81, 103-109 *)
| FailParseSps                            (* line 62 *)
| FailExtractResolution                   (* line 65 *)
| FailReadPpsCount                        (* line 72 *)
| FailSkipReserved                        (* line 97 *)
| FailReadSpsExtCount.                    (* line 99 *)

Inductive Outcome (A : Type) :=
| Done (a : A)
| Failed (e : Failure).
Arguments Done {A} a.
Arguments Failed {A} e.

Definition succeeded {A} (o : Outcome A) : bool :=
  match o with Done _ => true | Failed _ => false end.

Section Parser.
Context {codec : H264}.

(** The members of [AVCDecoderConfigurationRecord] (and of its base class)
    that [ParseInternal] assigns. *)
Record AVCDecoderConfigurationRecord := Build_Record {
  version_ : Z;
  profile_indication_ : Z;
  profile_compatibility_ : Z;
  avc_level_ : Z;
  nalu_length_size_ : Z;
  nalu_ : list Nalu;
  transfer_characteristics_ : Z;
  coded_width_ : Z;
  coded_height_ : Z;
  pixel_width_ : Z;
  pixel_height_ : Z
}.

Definition set_version_ (v : Z) (r : AVCDecoderConfigurationRecord) :=
  Build_Record v (profile_indication_ r) (profile_compatibility_ r)
    (avc_level_ r) (nalu_length_size_ r) (nalu_ r)
    (transfer_characteristics_ r) (coded_width_ r) (coded_height_ r)
    (pixel_width_ r) (pixel_height_ r).

Definition set_profile_indication_ (v : Z) (r : AVCDecoderConfigurationRecord) :=
  Build_Record (version_ r) v (profile_compatibility_ r)
    (avc_level_ r) (nalu_length_size_ r) (nalu_ r)
    (transfer_characteristics_ r) (coded_width_ r) (coded_height_ r)
    (pixel_width_ r) (pixel_height_ r).

Definition set_profile_compatibility_ (v : Z) (r : AVCDecoderConfigurationRecord) :=
  Build_Record (version_ r) (profile_indication_ r) v
    (avc_level_ r) (nalu_length_size_ r) (nalu_ r)
    (transfer_characteristics_ r) (coded_width_ r) (coded_height_ r)
    (pixel_width_ r) (pixel_height_ r).

Definition set_avc_level_ (v : Z) (r : AVCDecoderConfigurationRecord) :=
  Build_Record (version_ r) (profile_indication_ r) (profile_compatibility_ r)
    v (nalu_length_size_ r) (nalu_ r)
    (transfer_characteristics_ r) (coded_width_ r) (coded_height_ r)
    (pixel_width_ r) (pixel_height_ r).

Definition set_nalu_length_size (v : Z) (r : AVCDecoderConfigurationRecord) :=
  Build_Record (version_ r) (profile_indication_ r) (profile_compatibility_ r)
    (avc_level_ r) v (nalu_ r)
    (transfer_characteristics_ r) (coded_width_ r) (coded_height_ r)
    (pixel_width_ r) (pixel_height_ r).

(** [AddNalu]: the unit goes to the end of the record's list. *)
Definition AddNalu (n : Nalu) (r : AVCDecoderConfigurationRecord) :=
  Build_Record (version_ r) (profile_indication_ r) (profile_compatibility_ r)
    (avc_level_ r) (nalu_length_size_ r) (nalu_ r ++ [n])
    (transfer_characteristics_ r) (coded_width_ r) (coded_height_ r)
    (pixel_width_ r) (pixel_height_ r).

Definition set_transfer_characteristics (v : Z) (r : AVCDecoderConfigurationRecord) :=
  Build_Record (version_ r) (profile_indication_ r) (profile_compatibility_ r)
    (avc_level_ r) (nalu_length_size_ r) (nalu_ r)
    v (coded_width_ r) (coded_height_ r)
    (pixel_width_ r) (pixel_height_ r).

(** The four out-parameters of [ExtractResolutionFromSps]. *)
Definition set_resolution (wh : Z * Z * Z * Z) (r : AVCDecoderConfigurationRecord) :=
  let '(cw, ch, pw, ph) := wh in
  Build_Record (version_ r) (profile_indication_ r) (profile_compatibility_ r)
    (avc_level_ r) (nalu_length_size_ r) (nalu_ r)
    (transfer_characteristics_ r) cw ch pw ph.

(** The object under construction and the local [reader]. *)
Record State := Build_State {
  record : AVCDecoderConfigurationRecord;
  reader : BufferReader.t
}.

(** A step of [ParseInternal]: it may assign members and move the cursor,
    and either goes on with a value or returns false.  The state reached is
    kept in both cases: the members are assigned in place. *)
Definition Parse (A : Type) : Type := State -> Outcome A * State.

Definition ret {A} (a : A) : Parse A := fun s => (Done a, s).

Definition bind {A B} (m : Parse A) (k : A -> Parse B) : Parse B :=
  fun s =>
    match m s with
    | (Done a, s') => k a s'
    | (Failed e, s') => (Failed e, s')
    end.

Definition fail {A} (e : Failure) : Parse A := fun s => (Failed e, s).

Local Notation "x <- c ;; k" := (bind c (fun x => k))
  (at level 62, c at next level, right associativity).
Local Notation "c ;;; k" := (bind c (fun _ => k))
  (at level 62, right associativity).

(** [RCHECK(cond)]: go on when the condition holds, return false
    otherwise. *)
Definition RCHECK (e : Failure) (cond : bool) : Parse unit :=
  if cond then ret tt else fail e.

(** [RCHECK(reader.Op(&v))] for a read of the cursor. *)
Definition RCHECK_read {A} (e : Failure)
    (op : BufferReader.t -> option (A * BufferReader.t)) : Parse A :=
  fun s =>
    match op (reader s) with
    | Some (a, rd) => (Done a, Build_State (record s) rd)
    | None => (Failed e, s)
    end.

(** [RCHECK(reader.SkipBytes(n))]. *)
Definition RCHECK_skip (e : Failure) (n : nat) : Parse unit :=
  RCHECK_read e (fun rd => match BufferReader.SkipBytes n rd with
                           | Some rd' => Some (tt, rd')
                           | None => None
                           end).

(** [RCHECK] of a call that yields a value when it returns true. *)
Definition RCHECK_some {A} (e : Failure) (o : option A) : Parse A :=
  match o with
  | Some a => ret a
  | None => fail e
  end.

(** An assignment to members of the record. *)
Definition assign (f : AVCDecoderConfigurationRecord -> AVCDecoderConfigurationRecord)
    : Parse unit :=
  fun s => (Done tt, Build_State (f (record s)) (reader s)).

Definition get {A} (f : State -> A) : Parse A := fun s => (Done (f s), s).

(** The body shared by the three loops (lines 46-54, 74-82 and 102-110):
    a 16-bit size, that many bytes taken from the cursor on, the unit made
    of them, its type checked, the unit added. *)
Definition ReadNalu (l : UnitList) (expected : Z) : Parse Nalu :=
  size <- RCHECK_read (FailNalu l ReadSize) BufferReader.Read2 ;;
  nalu_data <- get (fun s => BufferReader.remaining (reader s)) ;;
  RCHECK_skip (FailNalu l SkipPayload) (Z.to_nat size) ;;;
  nalu <- RCHECK_some (FailNalu l NaluInit)
            (Nalu_Initialize (take (Z.to_nat size) nalu_data)) ;;
  RCHECK (FailNalu l NaluType) (Nalu_type nalu =? expected) ;;;
  assign (AddNalu nalu) ;;;
  ret nalu.

(** Lines 56-68, done for the first SPS only. *)
Definition FirstSps (nalu : Nalu) : Parse unit :=
  sps <- RCHECK_some FailParseSps (ParseSps nalu) ;;
  assign (set_transfer_characteristics (sps_transfer_characteristics sps)) ;;;
  wh <- RCHECK_some FailExtractResolution (ExtractResolutionFromSps sps) ;;
  assign (set_resolution wh).

(** [for (uint8_t i = 0; i < num_sps; i++)], with [count] iterations left
    and [i] the index of the next one. *)
Fixpoint SpsLoop (count i : nat) : Parse unit :=
  match count with
  | O => ret tt
  | S count' =>
      nalu <- ReadNalu InSps H264_SPS ;;
      (if Nat.eqb i 0 then FirstSps nalu else ret tt) ;;;
      SpsLoop count' (S i)
  end.

(** The loops of lines 73-83 ([l = InPps]) and 101-111 ([l = InSpsExt]):
    both check the unit against [Nalu::H264_PPS]. *)
Fixpoint PpsLoop (l : UnitList) (count : nat) : Parse unit :=
  match count with
  | O => ret tt
  | S count' =>
      ReadNalu l H264_PPS ;;;
      PpsLoop l count'
  end.

(** Lines 26-28. *)
Definition ParseHeader : Parse unit :=
  v <- RCHECK_read FailHeader BufferReader.Read1 ;;
  assign (set_version_ (u8 v)) ;;;
  RCHECK FailHeader (u8 v =? 1) ;;;
  p <- RCHECK_read FailHeader BufferReader.Read1 ;;
  assign (set_profile_indication_ (u8 p)) ;;;
  c <- RCHECK_read FailHeader BufferReader.Read1 ;;
  assign (set_profile_compatibility_ (u8 c)) ;;;
  a <- RCHECK_read FailHeader BufferReader.Read1 ;;
  assign (set_avc_level_ (u8 a)).

(** Lines 30-36. *)
Definition ParseLengthSize : Parse unit :=
  length_size_minus_one <- RCHECK_read FailReadLengthSize BufferReader.Read1 ;;
  if Z.land (u8 length_size_minus_one) 3 =? 2
  then fail InvalidNaluLengthSize
  else assign (set_nalu_length_size (Z.land (u8 length_size_minus_one) 3 + 1)).

(** Lines 38-69. *)
Definition ParseSpsList : Parse unit :=
  num_sps <- RCHECK_read FailReadNumSps BufferReader.Read1 ;;
  SpsLoop (Z.to_nat (Z.land (u8 num_sps) 31)) 0.

(** Lines 71-83. *)
Definition ParsePpsList : Parse unit :=
  pps_count <- RCHECK_read FailReadPpsCount BufferReader.Read1 ;;
  PpsLoop InPps (Z.to_nat (u8 pps_count)).

Definition is_special_profile (profile : Z) : bool :=
  (profile =? 100) || (profile =? 110) || (profile =? 122) || (profile =? 144).

(** Lines 85-113.  The [LOG(WARNING)] branch changes nothing. *)
Definition ParseProfileSpecialCase : Parse unit :=
  profile <- get (fun s => profile_indication_ (record s)) ;;
  if is_special_profile profile
  then
    enough <- get (fun s => BufferReader.HasBytes 4 (reader s)) ;;
    if negb enough
    then ret tt
    else
      RCHECK_skip FailSkipReserved 3 ;;;
      sps_ext_count <- RCHECK_read FailReadSpsExtCount BufferReader.Read1 ;;
      PpsLoop InSpsExt (Z.to_nat (u8 sps_ext_count))
  else ret tt.

(** Lines 26-83: everything before the profile special case. *)
Definition ParseParameterSets : Parse unit :=
  ParseHeader ;;;
  ParseLengthSize ;;;
  ParseSpsList ;;;
  ParsePpsList.

(** The body of [ParseInternal], run on the object and a fresh cursor. *)
Definition ParseInternal_run (data : list byte)
    (r : AVCDecoderConfigurationRecord) : Outcome unit * State :=
  (ParseParameterSets ;;; ParseProfileSpecialCase)
    (Build_State r (BufferReader.Build data 0)).

(** [ParseInternal] on an object in state [r] whose [data()] is [data]: the
    value returned and the object afterwards. *)
Definition ParseInternal (data : list byte)
    (r : AVCDecoderConfigurationRecord) : bool * AVCDecoderConfigurationRecord :=
  let '(o, s) := ParseInternal_run data r in (succeeded o, record s).

(** Why [ParseInternal] returned false, if it did. *)
Definition ParseInternal_failure (data : list byte)
    (r : AVCDecoderConfigurationRecord) : option Failure :=
  match fst (ParseInternal_run data r) with
  | Done _ => None
  | Failed e => Some e
  end.

End Parser.

(** A codec to run the parser on sample records: a unit is its bytes and is
    refused when empty or when the forbidden bit of its header byte is set,
    its type is the low five bits of the header byte, and the decoding of a
    parameter set accepts every unit.  It serves the examples only; the
    theorems hold for every codec. *)
Definition sample_codec : H264 := {|
  Nalu := list byte;
  Nalu_Initialize := fun bs =>
    match bs with
    | [] => None
    | b :: _ => if Z.land (u8 b) 128 =? 0 then Some bs else None
    end;
  Nalu_type := fun n =>
    match n with
    | [] => 0
    | b :: _ => Z.land (u8 b) 31
    end;
  H264Sps := list byte;
  ParseSps := fun n => Some n;
  sps_transfer_characteristics := fun _ => 0;
  ExtractResolutionFromSps := fun _ => Some (16, 16, 1, 1)
|}.

(** A default-constructed record. *)
Definition empty_record {codec : H264} : AVCDecoderConfigurationRecord :=
  Build_Record 0 0 0 0 0 [] 0 0 0 0 0.

(** ** The boxes the fragmenter works on *)

(** The box structures of packager/media/formats/mp4/box_definitions.h are
    not among the sources: the members the fragmenter reads and writes are
    taken from the spec, and hold the integers assigned to them. *)
Module TrackFragmentRun.

(** Modelled from the spec: [TrackFragmentRun], the Sample Run, "ordered
    per-sample metadata: size, duration, flags, composition-time-offset
    (pts - dts), plus a presence-flags bitmask indicating which fields are
    explicit vs. defaulted, plus sample_count". *)
Record t := Build {
  flags : Z;
  sample_count : Z;
  data_offset : Z;
  sample_flags : list Z;
  sample_sizes : list Z;
  sample_durations : list Z;
  sample_composition_time_offsets : list Z
}.

(** Modelled from the spec: the bits of the "presence-flags bitmask" of a
    run, with the values the trun box gives them in ISO/IEC 14496-12. *)
Definition kDataOffsetPresentMask : Z := 0x000001.
Definition kFirstSampleFlagsPresentMask : Z := 0x000004.
Definition kSampleDurationPresentMask : Z := 0x000100.
Definition kSampleSizePresentMask : Z := 0x000200.
Definition kSampleFlagsPresentMask : Z := 0x000400.
Definition kSampleCompTimeOffsetsPresentMask : Z := 0x000800.

(** A default-constructed run, as [runs.resize(1)] makes it. *)
Definition empty : t := Build 0 0 0 [] [] [] [].

Definition set_flags (v : Z) (r : t) : t :=
  Build v (sample_count r) (data_offset r) (sample_flags r) (sample_sizes r)
    (sample_durations r) (sample_composition_time_offsets r).

Definition set_sample_count (v : Z) (r : t) : t :=
  Build (flags r) v (data_offset r) (sample_flags r) (sample_sizes r)
    (sample_durations r) (sample_composition_time_offsets r).

Definition set_sample_flags (v : list Z) (r : t) : t :=
  Build (flags r) (sample_count r) (data_offset r) v (sample_sizes r)
    (sample_durations r) (sample_composition_time_offsets r).

Definition set_sample_sizes (v : list Z) (r : t) : t :=
  Build (flags r) (sample_count r) (data_offset r) (sample_flags r) v
    (sample_durations r) (sample_composition_time_offsets r).

Definition set_sample_durations (v : list Z) (r : t) : t :=
  Build (flags r) (sample_count r) (data_offset r) (sample_flags r)
    (sample_sizes r) v (sample_composition_time_offsets r).

End TrackFragmentRun.

Module TrackFragmentHeader.

(** Modelled from the spec: [TrackFragmentHeader], "optional uniform
    defaults (default_sample_duration/size/flags) used when a Sample Run is
    uniform; presence bitmask mirrors which defaults are active". *)
Record t := Build {
  flags : Z;
  sample_description_index : Z;
  default_sample_duration : Z;
  default_sample_size : Z;
  default_sample_flags : Z
}.

(** Modelled from the spec: the bits of the presence bitmask of the header,
    with the values the tfhd box gives them in ISO/IEC 14496-12. *)
Definition kBaseDataOffsetPresentMask : Z := 0x000001.
Definition kSampleDescriptionIndexPresentMask : Z := 0x000002.
Definition kDefaultSampleDurationPresentMask : Z := 0x000008.
Definition kDefaultSampleSizePresentMask : Z := 0x000010.
Definition kDefaultSampleFlagsPresentMask : Z := 0x000020.
Definition kDurationIsEmptyMask : Z := 0x010000.
Definition kDefaultBaseIsMoofMask : Z := 0x020000.

(** Modelled from the spec: the sample flag that marks a sample that is not
    a key frame (sample_is_non_sync_sample in ISO/IEC 14496-12). *)
Definition kNonKeySampleMask : Z := 0x00010000.

Definition set_flags (v : Z) (h : t) : t :=
  Build v (sample_description_index h) (default_sample_duration h)
    (default_sample_size h) (default_sample_flags h).

Definition set_sample_description_index (v : Z) (h : t) : t :=
  Build (flags h) v (default_sample_duration h)
    (default_sample_size h) (default_sample_flags h).

Definition set_default_sample_duration (v : Z) (h : t) : t :=
  Build (flags h) (sample_description_index h) v
    (default_sample_size h) (default_sample_flags h).

Definition set_default_sample_size (v : Z) (h : t) : t :=
  Build (flags h) (sample_description_index h) (default_sample_duration h)
    v (default_sample_flags h).

Definition set_default_sample_flags (v : Z) (h : t) : t :=
  Build (flags h) (sample_description_index h) (default_sample_duration h)
    (default_sample_size h) v.

End TrackFragmentHeader.

(** Modelled from the spec: [FOURCC_roll], the grouping type "roll", made
    of the characters 'r' 'o' 'l' 'l'. *)
Definition FOURCC_roll : Z := 0x726f6c6c.

Module SampleToGroupEntry.

(** Modelled from the spec: an entry of a Sample-to-Group Mapping, its
    "sample_count" and "group_description_index". *)
Record t := Build {
  sample_count : Z;
  group_description_index : Z
}.

(** Modelled from the spec: the bases of the indexes that refer to "a
    track-level group description" and to "a fragment-level group
    description"; ISO/IEC 14496-12 numbers the latter from 0x10001. *)
Definition kTrackGroupDescriptionIndexBase : Z := 0.
Definition kTrackFragmentGroupDescriptionIndexBase : Z := 0x10000.

End SampleToGroupEntry.

Module SampleToGroup.

(** Modelled from the spec: a Sample-to-Group Mapping, a grouping type and
    its entries. *)
Record t := Build {
  grouping_type : Z;
  entries : list SampleToGroupEntry.t
}.

End SampleToGroup.

Module SampleGroupDescription.

(** Modelled from the spec: a Sample Group Description, "a grouping-type
    tag plus auxiliary per-group metadata", which the fragmenter does not
    read. *)
Record t := Build {
  grouping_type : Z;
  entries : list (list byte)
}.

End SampleGroupDescription.

Module SegmentReference.

(** Modelled from the spec: the SAP types of a Segment Reference, "Unknown"
    and the types 1 to 6 of ISO/IEC 14496-12. *)
Inductive SAPType :=
| TypeUnknown | Type1 | Type2 | Type3 | Type4 | Type5 | Type6.

(** Modelled from the spec: the Segment Reference, "duration, earliest
    presentation time, starts-with-SAP flag, SAP type, SAP delta time",
    with the two members [GenerateSegmentReference] also names. *)
Record t := Build {
  reference_type : bool;
  referenced_size : Z;
  subsegment_duration : Z;
  starts_with_sap : bool;
  sap_type : SAPType;
  sap_delta_time : Z;
  earliest_presentation_time : Z
}.

End SegmentReference.

(** Modelled from the spec: the Track Fragment, which "aggregates header,
    decode base time, Sample Run, sample group descriptions, and
    sample-to-group mappings". *)
Record TrackFragment := Build_TrackFragment {
  header : TrackFragmentHeader.t;
  decode_time : Z;
  runs : list TrackFragmentRun.t;
  sample_group_descriptions : list SampleGroupDescription.t;
  sample_to_groups : list SampleToGroup.t
}.

(** The part of [MediaSample] that [AddSample] reads. *)
Record MediaSample := Build_MediaSample {
  pts : Z;
  dts : Z;
  duration : Z;
  is_key_frame : bool;
  data : list byte;
  side_data : list byte
}.

Definition data_size (s : MediaSample) : Z := Z.of_nat (length (data s)).

(** ** [Fragmenter] *)

(** [std::numeric_limits<int64_t>::max()]: the time that stands for "not
    set". *)
Definition kInvalidTime : Z := 2 ^ 63 - 1.

Definition int64 (z : Z) : Prop := - 2 ^ 63 <= z <= 2 ^ 63 - 1.

(** The value an [int64_t] holds after an arithmetic operation whose exact
    result is [z]: the result itself when it is in range, and the result
    modulo 2^64 in two's complement otherwise. *)
Definition wrap_int64 (z : Z) : Z := (z + 2 ^ 63) mod 2 ^ 64 - 2 ^ 63.

(** The members of [Fragmenter]; [traf_] is the track fragment the object
    points to, [data_] the buffer it owns ([None] before the first
    [InitializeFragment]).  The times are [int64_t] values ([kInvalidTime],
    [pts] and [dts] of lines 76-77).  The type of [fragment_duration_] is
    declared in fragmenter.h, which is not among the sources: the member
    holds the exact sum of line 74, which is what the code computes as long
    as the sum fits the member. *)
Record Fragmenter := Build_Fragmenter {
  traf_ : TrackFragment;
  seek_preroll_ : Z;
  fragment_initialized_ : bool;
  fragment_finalized_ : bool;
  fragment_duration_ : Z;
  presentation_start_time_ : Z;
  earliest_presentation_time_ : Z;
  first_sap_time_ : Z;
  data_ : option (list byte)
}.

(** The constructor, for a stream whose [GetSeekPreroll] is [seek_preroll]. *)
Definition new_Fragmenter (seek_preroll : Z) (traf : TrackFragment) : Fragmenter :=
  Build_Fragmenter traf seek_preroll false false 0
    kInvalidTime kInvalidTime kInvalidTime None.

(** [traf_->runs[0]] read and written back; undefined ([None]) when the
    vector is empty. *)
Definition update_run0 (g : TrackFragmentRun.t -> TrackFragmentRun.t)
    (traf : TrackFragment) : option TrackFragment :=
  match runs traf !! 0%nat with
  | Some run =>
      Some (Build_TrackFragment (header traf) (decode_time traf)
              (<[0%nat := g run]> (runs traf))
              (sample_group_descriptions traf) (sample_to_groups traf))
  | None => None
  end.

Definition InitializeFragment (first_sample_dts : Z) (f : Fragmenter) : Fragmenter :=
  let traf := traf_ f in
  let run0 :=
    TrackFragmentRun.set_flags TrackFragmentRun.kDataOffsetPresentMask
      TrackFragmentRun.empty in
  let header' :=
    TrackFragmentHeader.set_flags
      (Z.lor TrackFragmentHeader.kDefaultBaseIsMoofMask
             TrackFragmentHeader.kSampleDescriptionIndexPresentMask)
      (TrackFragmentHeader.set_sample_description_index 1 (header traf)) in
  Build_Fragmenter
    (Build_TrackFragment header' first_sample_dts [run0] [] [])
    (seek_preroll_ f)
    true false 0
    (presentation_start_time_ f)
    kInvalidTime kInvalidTime
    (Some []).

Section Timeline.
(** The command-line flag [mp4_use_decoding_timestamp_in_timeline]. *)
Variable FLAGS_mp4_use_decoding_timestamp_in_timeline : bool.

(** What [AddSample] does to run 0: lines 68-71 and 86-88.  The composition
    time offset of line 86 is the difference of two [int64_t]. *)
Definition add_to_run (sample : MediaSample) (run : TrackFragmentRun.t)
    : TrackFragmentRun.t :=
  TrackFragmentRun.Build
    (if pts sample =? dts sample
     then TrackFragmentRun.flags run
     else Z.lor (TrackFragmentRun.flags run)
                TrackFragmentRun.kSampleCompTimeOffsetsPresentMask)
    (TrackFragmentRun.sample_count run)
    (TrackFragmentRun.data_offset run)
    (TrackFragmentRun.sample_flags run ++
       [if is_key_frame sample then 0 else TrackFragmentHeader.kNonKeySampleMask])
    (TrackFragmentRun.sample_sizes run ++ [data_size sample])
    (TrackFragmentRun.sample_durations run ++ [duration sample])
    (TrackFragmentRun.sample_composition_time_offsets run ++
       [wrap_int64 (pts sample - dts sample)]).

Definition selected_timestamp (sample : MediaSample) : Z :=
  if FLAGS_mp4_use_decoding_timestamp_in_timeline then dts sample else pts sample.

(** [AddSample]: [None] when [CHECK_GT(sample->duration(), 0)] aborts, or
    when the call reads [runs[0]] of an empty vector or writes through a null
    [data_]; the status returned otherwise is always [Status::OK]. *)
Definition AddSample (sample : MediaSample) (f : Fragmenter) : option Fragmenter :=
  if duration sample >? 0 then
    let f1 := if fragment_initialized_ f then f
              else InitializeFragment (dts sample) f in
    match update_run0 (add_to_run sample) (traf_ f1), data_ f1 with
    | Some traf', Some buffer =>
        let timestamp := selected_timestamp sample in
        Some (Build_Fragmenter
                traf'
                (seek_preroll_ f1)
                (fragment_initialized_ f1)
                (fragment_finalized_ f1)
                (fragment_duration_ f1 + duration sample)
                (presentation_start_time_ f1)
                (if earliest_presentation_time_ f1 >? timestamp
                 then timestamp else earliest_presentation_time_ f1)
                (if is_key_frame sample && (first_sap_time_ f1 =? kInvalidTime)
                 then pts sample else first_sap_time_ f1)
                (Some (buffer ++ data sample)))
    | _, _ => None
    end
  else None.

End Timeline.

(** Modelled from the spec: [OptimizeSampleEntries] is defined in
    packager/media/formats/mp4/fragmenter.h, which is not among the sources.
    The spec: "if every value in the array is identical, promote that value
    to the Track Fragment Header's corresponding default [...]; otherwise
    retain the explicit array", the samples "collapse [...] to a single
    header default".  The result is whether the entries were optimized, the
    entries and the default afterwards; an empty array has no value to
    promote ([None]). *)
Definition OptimizeSampleEntries (entries : list Z) (default_value : Z)
    : option (bool * list Z * Z) :=
  match entries with
  | [] => None
  | value :: _ =>
      if forallb (Z.eqb value) entries
      then Some (true, [], value)
      else Some (false, entries, default_value)
  end.

(** Lines 145-155: the mapping added for the seek preroll. *)
Definition roll_sample_to_group (sample_count : Z) : SampleToGroup.t :=
  SampleToGroup.Build FOURCC_roll
    [SampleToGroupEntry.Build sample_count
       (SampleToGroupEntry.kTrackGroupDescriptionIndexBase + 1)].

(** Lines 158-166: the mapping added for a description of the fragment. *)
Definition fragment_sample_to_group (sample_count : Z)
    (d : SampleGroupDescription.t) : SampleToGroup.t :=
  SampleToGroup.Build (SampleGroupDescription.grouping_type d)
    [SampleToGroupEntry.Build sample_count
       (SampleToGroupEntry.kTrackFragmentGroupDescriptionIndexBase + 1)].

(** [FinalizeFragment]; undefined ([None]) when [runs] is empty or when an
    array handed to [OptimizeSampleEntries] is.  The [DCHECK_EQ] of line 144
    is not compiled into a release build: the mappings are appended to those
    present. *)
Definition FinalizeFragment (f : Fragmenter) : option Fragmenter :=
  let traf := traf_ f in
  match runs traf !! 0%nat with
  | None => None
  | Some run =>
      let count := Z.of_nat (length (TrackFragmentRun.sample_sizes run)) in
      let run := TrackFragmentRun.set_sample_count count run in
      let hdr := header traf in
      match OptimizeSampleEntries (TrackFragmentRun.sample_durations run)
              (TrackFragmentHeader.default_sample_duration hdr) with
      | None => None
      | Some (optimized_d, durations, default_d) =>
      let run := TrackFragmentRun.set_sample_durations durations run in
      let hdr := TrackFragmentHeader.set_default_sample_duration default_d hdr in
      let hdr := if optimized_d
                 then TrackFragmentHeader.set_flags
                        (Z.lor (TrackFragmentHeader.flags hdr)
                           TrackFragmentHeader.kDefaultSampleDurationPresentMask) hdr
                 else hdr in
      let run := if optimized_d then run
                 else TrackFragmentRun.set_flags
                        (Z.lor (TrackFragmentRun.flags run)
                           TrackFragmentRun.kSampleDurationPresentMask) run in
      match OptimizeSampleEntries (TrackFragmentRun.sample_sizes run)
              (TrackFragmentHeader.default_sample_size hdr) with
      | None => None
      | Some (optimized_s, sizes, default_s) =>
      let run := TrackFragmentRun.set_sample_sizes sizes run in
      let hdr := TrackFragmentHeader.set_default_sample_size default_s hdr in
      let hdr := if optimized_s
                 then TrackFragmentHeader.set_flags
                        (Z.lor (TrackFragmentHeader.flags hdr)
                           TrackFragmentHeader.kDefaultSampleSizePresentMask) hdr
                 else hdr in
      let run := if optimized_s then run
                 else TrackFragmentRun.set_flags
                        (Z.lor (TrackFragmentRun.flags run)
                           TrackFragmentRun.kSampleSizePresentMask) run in
      match OptimizeSampleEntries (TrackFragmentRun.sample_flags run)
              (TrackFragmentHeader.default_sample_flags hdr) with
      | None => None
      | Some (optimized_f, sflags, default_f) =>
      let run := TrackFragmentRun.set_sample_flags sflags run in
      let hdr := TrackFragmentHeader.set_default_sample_flags default_f hdr in
      let hdr := if optimized_f
                 then TrackFragmentHeader.set_flags
                        (Z.lor (TrackFragmentHeader.flags hdr)
                           TrackFragmentHeader.kDefaultSampleFlagsPresentMask) hdr
                 else hdr in
      let run := if optimized_f then run
                 else TrackFragmentRun.set_flags
                        (Z.lor (TrackFragmentRun.flags run)
                           TrackFragmentRun.kSampleFlagsPresentMask) run in
      let groups :=
        sample_to_groups traf
        ++ (if seek_preroll_ f >? 0
            then [roll_sample_to_group (TrackFragmentRun.sample_count run)]
            else [])
        ++ map (fragment_sample_to_group (TrackFragmentRun.sample_count run))
             (sample_group_descriptions traf) in
      Some (Build_Fragmenter
              (Build_TrackFragment hdr (decode_time traf)
                 (<[0%nat := run]> (runs traf))
                 (sample_group_descriptions traf) groups)
              (seek_preroll_ f)
              false true
              (fragment_duration_ f)
              (presentation_start_time_ f)
              (earliest_presentation_time_ f)
              (first_sap_time_ f)
              (data_ f))
      end end end
  end.

(** [StartsWithSAP]; undefined ([None]) when it reads [runs[0]] or
    [sample_flags[0]] of an empty vector. *)
Definition StartsWithSAP (f : Fragmenter) : option bool :=
  match runs (traf_ f) !! 0%nat with
  | None => None
  | Some run =>
      let start_sample_flag :=
        if negb (Z.land (TrackFragmentRun.flags run)
                   TrackFragmentRun.kSampleFlagsPresentMask =? 0)
        then TrackFragmentRun.sample_flags run !! 0%nat
        else Some (TrackFragmentHeader.default_sample_flags (header (traf_ f))) in
      match start_sample_flag with
      | Some flag =>
          Some (Z.land flag TrackFragmentHeader.kNonKeySampleMask =? 0)
      | None => None
      end
  end.

(** [GenerateSegmentReference]: the reference handed in, with the members the
    function assigns; the difference of line 183 is one of two [int64_t]. *)
Definition GenerateSegmentReference (reference : SegmentReference.t)
    (f : Fragmenter) : option SegmentReference.t :=
  match StartsWithSAP f with
  | None => None
  | Some sap =>
      Some (SegmentReference.Build
              false
              (SegmentReference.referenced_size reference)
              (fragment_duration_ f)
              sap
              (if kInvalidTime =? first_sap_time_ f
               then SegmentReference.TypeUnknown else SegmentReference.Type1)
              (if kInvalidTime =? first_sap_time_ f
               then 0
               else wrap_int64 (first_sap_time_ f - earliest_presentation_time_ f))
              (earliest_presentation_time_ f))
  end.

(** ** The calls made on a fragmenter *)

(** The fragmenter is driven by calls of its methods; between them the
    owner of the track fragment may attach a sample group description to it
    ([traf_] points to an object the fragmenter does not own). *)
Inductive Call :=
| CallInitializeFragment (first_sample_dts : Z)
| CallAddSample (sample : MediaSample)
| CallAttachDescription (d : SampleGroupDescription.t)
| CallFinalizeFragment.

Definition attach_description (d : SampleGroupDescription.t) (f : Fragmenter)
    : Fragmenter :=
  let traf := traf_ f in
  Build_Fragmenter
    (Build_TrackFragment (header traf) (decode_time traf) (runs traf)
       (sample_group_descriptions traf ++ [d]) (sample_to_groups traf))
    (seek_preroll_ f) (fragment_initialized_ f) (fragment_finalized_ f)
    (fragment_duration_ f) (presentation_start_time_ f)
    (earliest_presentation_time_ f) (first_sap_time_ f) (data_ f).

Section Calls.
Variable FLAGS_mp4_use_decoding_timestamp_in_timeline : bool.

Definition call (c : Call) (f : Fragmenter) : option Fragmenter :=
  match c with
  | CallInitializeFragment first_sample_dts =>
      Some (InitializeFragment first_sample_dts f)
  | CallAddSample sample =>
      AddSample FLAGS_mp4_use_decoding_timestamp_in_timeline sample f
  | CallAttachDescription d => Some (attach_description d f)
  | CallFinalizeFragment => FinalizeFragment f
  end.

Fixpoint calls (cs : list Call) (f : Fragmenter) : option Fragmenter :=
  match cs with
  | [] => Some f
  | c :: cs' =>
      match call c f with
      | Some f' => calls cs' f'
      | None => None
      end
  end.

End Calls.

(** The calls that fill an open fragment. *)
Definition accumulating (c : Call) : bool :=
  match c with
  | CallAddSample _ | CallAttachDescription _ => true
  | CallInitializeFragment _ | CallFinalizeFragment => false
  end.

Fixpoint samples_added (cs : list Call) : list MediaSample :=
  match cs with
  | [] => []
  | CallAddSample sample :: cs' => sample :: samples_added cs'
  | _ :: cs' => samples_added cs'
  end.

Fixpoint descriptions_attached (cs : list Call) : list SampleGroupDescription.t :=
  match cs with
  | [] => []
  | CallAttachDescription d :: cs' => d :: descriptions_attached cs'
  | _ :: cs' => descriptions_attached cs'
  end.

(** The sample flags [AddSample] stores for a sample. *)
Definition sample_flag (sample : MediaSample) : Z :=
  if is_key_frame sample then 0 else TrackFragmentHeader.kNonKeySampleMask.

(** All the entries of an array are the same value. *)
Definition uniform (l : list Z) : Prop := forall x y, In x l -> In y l -> x = y.

(** A bit mask is present in a flags word. *)
Definition has_mask (flags mask : Z) : bool := negb (Z.land flags mask =? 0).

(** ** An open fragment *)

(** The run as [InitializeFragment] makes it. *)
Definition initial_run : TrackFragmentRun.t :=
  TrackFragmentRun.set_flags TrackFragmentRun.kDataOffsetPresentMask
    TrackFragmentRun.empty.

Section OpenFragment.
Variable FLAGS_mp4_use_decoding_timestamp_in_timeline : bool.

(** The run, the earliest time and the first SAP time after the samples of
    a list were added to a fresh fragment, each as [AddSample] updates it. *)
Definition run_of (samples : list MediaSample) : TrackFragmentRun.t :=
  fold_left (fun run sample => add_to_run sample run) samples initial_run.

Definition earliest_of (samples : list MediaSample) : Z :=
  fold_left
    (fun earliest sample =>
       let timestamp :=
         selected_timestamp FLAGS_mp4_use_decoding_timestamp_in_timeline sample in
       if earliest >? timestamp then timestamp else earliest)
    samples kInvalidTime.

Definition first_sap_of (samples : list MediaSample) : Z :=
  fold_left
    (fun first_sap sample =>
       if is_key_frame sample && (first_sap =? kInvalidTime)
       then pts sample else first_sap)
    samples kInvalidTime.

(** The fragmenter has an open fragment to which [samples] were added and
    [descriptions] attached. *)
Definition open_fragment (samples : list MediaSample)
    (descriptions : list SampleGroupDescription.t) (f : Fragmenter) : Prop :=
  fragment_initialized_ f = true /\
  runs (traf_ f) = [run_of samples] /\
  sample_group_descriptions (traf_ f) = descriptions /\
  sample_to_groups (traf_ f) = [] /\
  earliest_presentation_time_ f = earliest_of samples /\
  first_sap_time_ f = first_sap_of samples /\
  data_ f = Some (concat (map data samples)).

End OpenFragment.

(** The track fragment holds one run, with the data offset announced. *)
Definition single_run (f : Fragmenter) : Prop :=
  exists run,
    runs (traf_ f) = [run] /\
    Z.land (TrackFragmentRun.flags run) TrackFragmentRun.kDataOffsetPresentMask
      = TrackFragmentRun.kDataOffsetPresentMask.

(** The flags of the run and of the header after [FinalizeFragment], from
    what the three calls of [OptimizeSampleEntries] returned. *)
Definition run_flags_after (flags : Z) (optimized_d optimized_s optimized_f : bool) : Z :=
  let flags := if optimized_d then flags
               else Z.lor flags TrackFragmentRun.kSampleDurationPresentMask in
  let flags := if optimized_s then flags
               else Z.lor flags TrackFragmentRun.kSampleSizePresentMask in
  if optimized_f then flags
  else Z.lor flags TrackFragmentRun.kSampleFlagsPresentMask.

Definition header_flags_after (flags : Z) (optimized_d optimized_s optimized_f : bool) : Z :=
  let flags := if optimized_d
               then Z.lor flags TrackFragmentHeader.kDefaultSampleDurationPresentMask
               else flags in
  let flags := if optimized_s
               then Z.lor flags TrackFragmentHeader.kDefaultSampleSizePresentMask
               else flags in
  if optimized_f
  then Z.lor flags TrackFragmentHeader.kDefaultSampleFlagsPresentMask
  else flags.

(** The law of [FinalizeFragment] for one of the three arrays: [entries] is
    the array before, [entries'] the array after, [default'] the default of
    the header after and [present] the bit of the field in the flags of the
    run after. *)
Definition promoted_or_kept (entries : list Z) (default' : Z)
    (entries' : list Z) (present : bool) : Prop :=
  (uniform entries ->
   (forall x, In x entries -> default' = x) /\ present = false) /\
  (~ uniform entries -> entries' = entries /\ present = true).

(** A key frame whose presentation time is not the value that stands for
    "not set". *)
Definition is_sap (sample : MediaSample) : bool :=
  is_key_frame sample && negb (pts sample =? kInvalidTime).

(** A mapping of type 'roll' that refers to a description of the track. *)
Definition is_track_roll (g : SampleToGroup.t) : bool :=
  (SampleToGroup.grouping_type g =? FOURCC_roll) &&
  forallb
    (fun e => SampleToGroupEntry.group_description_index e
              <=? SampleToGroupEntry.kTrackFragmentGroupDescriptionIndexBase)
    (SampleToGroup.entries g).

(** A mapping that refers to a description of the fragment. *)
Definition is_fragment_level (g : SampleToGroup.t) : bool :=
  forallb
    (fun e => SampleToGroupEntry.group_description_index e
              >? SampleToGroupEntry.kTrackFragmentGroupDescriptionIndexBase)
    (SampleToGroup.entries g).

(** ** The codec string *)

(** Modelled from the spec: [FourCCToString] (packager/media/base/fourccs.h),
    [base::HexEncode] and [base::ToLowerASCII] (packager/base/strings) are
    not among the sources.  The spec: the codec string is
    "<container_tag>.<6 lowercase hex digits> from the three byte values
    concatenated".  A FourCC is the 32-bit number made of the four
    characters of the tag, [HexEncode] writes two digits per byte, most
    significant first, with the letters in upper case, and [ToLowerASCII]
    lowers the letters A to Z. *)
Definition FourCC := Z.

Definition FOURCC_avc1 : FourCC := 0x61766331.

Definition char_of_Z (z : Z) : ascii := ascii_of_N (Z.to_N (z mod 256)).

(** Modelled from the spec: [FourCCToString], the "container_tag" as a
    string: the four characters of the FourCC, the first in the upper
    byte. *)
Definition FourCCToString (fourcc : FourCC) : string :=
  String (char_of_Z (Z.land (Z.shiftr fourcc 24) 255))
    (String (char_of_Z (Z.land (Z.shiftr fourcc 16) 255))
       (String (char_of_Z (Z.land (Z.shiftr fourcc 8) 255))
          (String (char_of_Z (Z.land fourcc 255)) EmptyString))).

Definition kHexChars : string := "0123456789ABCDEF".

Definition hex_char (n : Z) : ascii :=
  match String.get (Z.to_nat n) kHexChars with
  | Some c => c
  | None => "0"%char
  end.

(** Modelled from the spec: [base::HexEncode], two hexadecimal digits for
    each byte. *)
Fixpoint HexEncode (bytes : list byte) : string :=
  match bytes with
  | [] => EmptyString
  | b :: rest =>
      String (hex_char (Z.shiftr (u8 b) 4))
        (String (hex_char (Z.land (u8 b) 15)) (HexEncode rest))
  end.

Definition to_lower_char (c : ascii) : ascii :=
  let n := Z.of_N (N_of_ascii c) in
  if (65 <=? n) && (n <=? 90) then char_of_Z (n + 32) else c.

(** Modelled from the spec: [base::ToLowerASCII], which makes the digits
    "lowercase". *)
Fixpoint ToLowerASCII (s : string) : string :=
  match s with
  | EmptyString => EmptyString
  | String c rest => String (to_lower_char c) (ToLowerASCII rest)
  end.

(** The static [GetCodecString] of lines 123-132. *)
Definition GetCodecString (codec_fourcc : FourCC)
    (profile_indication profile_compatibility avc_level : byte) : string :=
  let bytes := [profile_indication; profile_compatibility; avc_level] in
  String.append (FourCCToString codec_fourcc)
    (String.append "." (ToLowerASCII (HexEncode bytes))).

(** A lower-case hexadecimal digit and its value. *)
Definition hex_value (c : ascii) : option Z :=
  let n := Z.of_N (N_of_ascii c) in
  if (48 <=? n) && (n <=? 57) then Some (n - 48)
  else if (97 <=? n) && (n <=? 102) then Some (n - 87)
  else None.

(** ** Length-prefixed units, as the format describes them *)

Section Units.
Context {codec : H264}.

(** [count] units taken from [bytes], each behind its 16-bit big-endian
    size: the units and the bytes left, [None] when the bytes run out. *)
Fixpoint split_units (count : nat) (bytes : list byte)
    : option (list (list byte) * list byte) :=
  match count with
  | O => Some ([], bytes)
  | S count' =>
      match bytes with
      | hi :: lo :: rest =>
          let size := Z.to_nat (Z.lor (Z.shiftl (u8 hi) 8) (u8 lo)) in
          if Nat.leb size (length rest)
          then match split_units count' (drop size rest) with
               | Some (units, tail) => Some (take size rest :: units, tail)
               | None => None
               end
          else None
      | _ => None
      end
  end.

(** The units of a list, each made a [Nalu] of the expected type. *)
Fixpoint classify_units (expected : Z) (units : list (list byte))
    : option (list Nalu) :=
  match units with
  | [] => Some []
  | u :: units' =>
      match Nalu_Initialize u with
      | Some nalu =>
          if Nalu_type nalu =? expected
          then match classify_units expected units' with
               | Some nalus => Some (nalu :: nalus)
               | None => None
               end
          else None
      | None => None
      end
  end.

Definition add_nalus (nalus : list Nalu) (r : AVCDecoderConfigurationRecord) :=
  Build_Record (version_ r) (profile_indication_ r) (profile_compatibility_ r)
    (avc_level_ r) (nalu_length_size_ r) (nalu_ r ++ nalus)
    (transfer_characteristics_ r) (coded_width_ r) (coded_height_ r)
    (pixel_width_ r) (pixel_height_ r).

(** The cursor stays inside the buffer. *)
Definition in_bounds (s : State) : Prop :=
  (BufferReader.pos (reader s) <= BufferReader.size (reader s))%nat.

(** A step that goes on has read at least [n] bytes of the same buffer. *)
Definition needs {A} (n : nat) (m : Parse A) : Prop :=
  forall s a s',
    in_bounds s -> m s = (Done a, s') ->
    in_bounds s' /\
    BufferReader.data (reader s') = BufferReader.data (reader s) /\
    (BufferReader.pos (reader s) + n <= BufferReader.pos (reader s'))%nat.

(** Whatever a step does, the record it leaves is related by [Rr] to the
    one it found, and a failure of the step is one of [E]. *)
Definition ensures {A} (Rr : relation AVCDecoderConfigurationRecord)
    (E : Failure -> Prop) (m : Parse A) : Prop :=
  forall s,
    Rr (record s) (record (snd (m s))) /\
    (forall e, fst (m s) = Failed e -> E e).

(** The steps after the length-size byte. *)
Definition ParseUnitLists : Parse unit :=
  bind ParseSpsList (fun _ =>
  bind ParsePpsList (fun _ => ParseProfileSpecialCase)).

(** The unit list of [r'] is that of [r] with units added at its end. *)
Definition nalus_extended (r r' : AVCDecoderConfigurationRecord) : Prop :=
  exists added, nalu_ r' = nalu_ r ++ added.

(** After the length-size byte nothing assigns the members of the header
    or the length size, and no failure is one of the first two steps. *)
Definition same_header (r r' : AVCDecoderConfigurationRecord) : Prop :=
  version_ r' = version_ r /\
  profile_indication_ r' = profile_indication_ r /\
  profile_compatibility_ r' = profile_compatibility_ r /\
  avc_level_ r' = avc_level_ r /\
  nalu_length_size_ r' = nalu_length_size_ r.

Definition later_failure (e : Failure) : Prop :=
  e <> FailHeader /\ e <> FailReadLengthSize /\ e <> InvalidNaluLengthSize.

End Units.

(** ** The bytes of the header *)


(** ** The codec string of a record *)

(** A [uint8_t] member, held as a number, as the byte it is. *)
Definition byte_of_u8 (z : Z) : byte :=
  match Byte.of_N (Z.to_N z) with
  | Some b => b
  | None => x00
  end.

(** The member [GetCodecString(codec_fourcc)] of lines 117-121: the static
    function on the members of the record. *)
Definition GetCodecString_record {codec : H264} (codec_fourcc : FourCC)
    (r : AVCDecoderConfigurationRecord) : string :=
  GetCodecString codec_fourcc
    (byte_of_u8 (profile_indication_ r))
    (byte_of_u8 (profile_compatibility_ r))
    (byte_of_u8 (avc_level_ r)).

(** The four members [ExtractResolutionFromSps] is handed. *)
Definition resolution_of {codec : H264} (r : AVCDecoderConfigurationRecord)
    : Z * Z * Z * Z :=
  (coded_width_ r, coded_height_ r, pixel_width_ r, pixel_height_ r).




(** The state of a parse, had the input gone on with [extra] bytes. *)
Definition extend_input {codec : H264} (extra : list byte) (s : State) : State :=
  Build_State (record s)
    (BufferReader.Build (BufferReader.data (reader s) ++ extra)
       (BufferReader.pos (reader s))).

(** A step that goes on does the same on the longer input. *)
Definition stable {codec : H264} {A} (extra : list byte) (m : Parse A) : Prop :=
  forall s a s',
    in_bounds s -> m s = (Done a, s') ->
    m (extend_input extra s) = (Done a, extend_input extra s').

(** ** The stream a fragmenter is made for *)

(** Modelled from the spec: [StreamInfo] and [AudioStreamInfo]
    (packager/media/base) are not among the sources; the fragmenter needs
    "a read-only Stream metadata object providing seek-preroll duration
    (audio tracks only) and track type".  A stream of type audio is an
    [AudioStreamInfo] and carries its [seek_preroll_ns]; a stream of
    another type only has its type. *)
Inductive StreamType := kStreamUnknown | kStreamVideo | kStreamAudio | kStreamText.

Inductive OtherStreamType := OtherUnknown | OtherVideo | OtherText.

Inductive StreamInfo :=
| AudioStreamInfo (seek_preroll_ns : Z)
| OtherStreamInfo (type : OtherStreamType).

Definition stream_type (info : StreamInfo) : StreamType :=
  match info with
  | AudioStreamInfo _ => kStreamAudio
  | OtherStreamInfo OtherUnknown => kStreamUnknown
  | OtherStreamInfo OtherVideo => kStreamVideo
  | OtherStreamInfo OtherText => kStreamText
  end.

Definition is_audio (type : StreamType) : bool :=
  match type with
  | kStreamAudio => true
  | _ => false
  end.

(** [GetSeekPreroll] of lines 31-37: 0 unless the type of the stream is
    audio, and then the [seek_preroll_ns] of the stream seen as an
    [AudioStreamInfo] (the last case is never reached). *)
Definition GetSeekPreroll (stream_info : StreamInfo) : Z :=
  if negb (is_audio (stream_type stream_info)) then 0
  else match stream_info with
       | AudioStreamInfo seek_preroll_ns => seek_preroll_ns
       | OtherStreamInfo _ => 0
       end.

(** The constructor of lines 40-50. *)
Definition Fragmenter_for (info : StreamInfo) (traf : TrackFragment) : Fragmenter :=
  new_Fragmenter (GetSeekPreroll info) traf.

(** ** Sums and flags over the samples of a fragment *)

Definition sum_Z (l : list Z) : Z := fold_right Z.add 0 l.

(** Some sample has a presentation time that is not its decode time. *)
Definition has_composition_offsets (samples : list MediaSample) : bool :=
  existsb (fun sample => negb (pts sample =? dts sample)) samples.

(** ** The times of the samples of a fragment *)

(** A value an [int64_t] holds, as a test. *)
Definition is_int64 (z : Z) : bool := (- 2 ^ 63 <=? z) && (z <=? 2 ^ 63 - 1).

(** A time a sample may have: an [int64_t] below [kInvalidTime], the value
    kept for "not set" (lines 81-82: a timestamp is always below it). *)
Definition is_time (t : Z) : bool := (- 2 ^ 63 <=? t) && (t <? kInvalidTime).

(** The times of the samples are times, and the differences the fragmenter
    takes of them (lines 86 and 183) are values of [int64_t]. *)
Definition times_in_range (samples : list MediaSample) : bool :=
  forallb (fun sample => is_time (pts sample) && is_time (dts sample)) samples &&
  forallb
    (fun a =>
       forallb
         (fun b => is_int64 (pts a - pts b) && is_int64 (pts a - dts b))
         samples)
    samples.

(** ** Sample inputs *)

Definition key_sample (t : Z) : MediaSample :=
  Build_MediaSample t t 10 true [x00; x01] [].

Definition delta_sample (p d : Z) : MediaSample :=
  Build_MediaSample p d 10 false [x02] [].

Definition empty_header : TrackFragmentHeader.t :=
  TrackFragmentHeader.Build 0 0 0 0 0.

Definition empty_traf : TrackFragment :=
  Build_TrackFragment empty_header 0 [] [] [].

(** Three samples of duration 10, the first a key frame, the others with a
    presentation time that is not their decode time. *)
Definition sample_calls : list Call :=
  [CallAddSample (key_sample 0);
   CallAddSample (delta_sample 10 20);
   CallAddSample (delta_sample 20 30)].

(** The same with a description attached to the fragment. *)
Definition sample_calls_with_description : list Call :=
  sample_calls ++ [CallAttachDescription (SampleGroupDescription.Build 0x73656967 [])].

(** The fragmenter of an audio stream with a seek preroll, after the calls
    that fill a fragment, and then finalized. *)
Definition audio_fragmenter : Fragmenter := new_Fragmenter 80000000 empty_traf.

Definition fragmenter_after (cs : list Call) (f0 : Fragmenter) : Fragmenter :=
  match calls false cs f0 with
  | Some f => f
  | None => f0
  end.

Definition filled_fragment : Fragmenter :=
  fragmenter_after sample_calls_with_description
    (InitializeFragment 0 audio_fragmenter).

Definition finalized_fragment : Fragmenter :=
  fragmenter_after [CallFinalizeFragment] filled_fragment.

(** A fragment whose only sample is a key frame at the greatest time an
    [int64_t] holds. *)
Definition late_fragment : Fragmenter :=
  fragmenter_after [CallAddSample (key_sample kInvalidTime)]
    (InitializeFragment 0 audio_fragmenter).

Definition blank_reference : SegmentReference.t :=
  SegmentReference.Build false 0 0 false SegmentReference.TypeUnknown 0 0.

(** The calls of [sample_calls_with_description] after the first. *)
Definition more_sample_calls : list Call :=
  [CallAddSample (delta_sample 10 20);
   CallAddSample (delta_sample 20 30);
   CallAttachDescription (SampleGroupDescription.Build 0x73656967 [])].

(** A whole fragment: the first sample, the calls after it, the end. *)
Definition fragment_calls : list Call :=
  CallAddSample (key_sample 0) :: more_sample_calls ++ [CallFinalizeFragment].

(** The fragmenter of a video stream. *)
Definition video_fragmenter : Fragmenter :=
  Fragmenter_for (OtherStreamInfo OtherVideo) empty_traf.

(** A record of profile 100 (High), 4-byte unit sizes, one SPS of two bytes
    and one PPS of one byte, without and with the block of the profile. *)
Definition high_profile_record : list byte :=
  [x01; x64; x00; x1f; xff; xe1; x00; x02; x67; x64; x01; x00; x01; x68].

Definition high_profile_record_ext : list byte :=
  high_profile_record ++ [xfd; xf8; xf8; x01; x00; x02; x68; x01].

(** A record of profile 66 (Baseline) with one SPS and one PPS. *)
Definition baseline_record : list byte :=
  [x01; x42; x00; x1e; xff; xe1; x00; x02; x67; x42; x01; x00; x01; x68].

(** The state of the parse of [high_profile_record] after its PPS list. *)
Definition state_after_sets : State (codec := sample_codec) :=
  snd (ParseParameterSets
         (Build_State empty_record (BufferReader.Build high_profile_record 0))).

(** * Facts about the parser *)

Lemma u8_range (b : byte) : 0 <= u8 b < 256.
Proof.
  unfold u8. pose proof (Byte.to_N_bounded b). lia.
Qed.

Section ParserFacts.
Context {codec : H264}.

Local Notation "x <- c ;; k" := (bind c (fun x => k))
  (at level 62, c at next level, right associativity).
Local Notation "c ;;; k" := (bind c (fun _ => k))
  (at level 62, right associativity).

Lemma needs_weaken {A} (n k : nat) (m : Parse A) :
  (k <= n)%nat -> needs n m -> needs k m.
Proof.
  intros Hle Hm s a s' Hb Hrun.
  destruct (Hm s a s' Hb Hrun) as (? & ? & ?). repeat split; auto; lia.
Qed.

Lemma needs_ret {A} (a : A) : needs 0 (ret a).
Proof.
  intros s a' s' Hb Hrun. inversion Hrun; subst.
  repeat split; auto; lia.
Qed.

Lemma needs_fail {A} (e : Failure) (n : nat) : needs n (@fail codec A e).
Proof. intros s a s' _ Hrun. discriminate Hrun. Qed.

Lemma needs_bind {A B} (n k : nat) (m : Parse A) (g : A -> Parse B) :
  needs n m -> (forall a, needs k (g a)) -> needs (n + k) (bind m g).
Proof.
  intros Hm Hg s b s' Hb Hrun. unfold bind in Hrun.
  destruct (m s) as [[a|e] s1] eqn:Hms; [|discriminate].
  destruct (Hm s a s1 Hb Hms) as (Hb1 & Hd1 & Hp1).
  destruct (Hg a s1 b s' Hb1 Hrun) as (Hb2 & Hd2 & Hp2).
  repeat split; auto; [congruence | lia].
Qed.

Lemma needs_RCHECK (e : Failure) (cond : bool) : needs 0 (RCHECK e cond).
Proof.
  destruct cond; [apply needs_ret | apply needs_fail].
Qed.

Lemma needs_RCHECK_some {A} (e : Failure) (o : option A) :
  needs 0 (RCHECK_some e o).
Proof.
  destruct o; [apply needs_ret | apply needs_fail].
Qed.

Lemma needs_assign g : needs 0 (assign g).
Proof.
  intros s a s' Hb Hrun. inversion Hrun; subst.
  repeat split; auto; simpl; lia.
Qed.

Lemma needs_get {A} (g : State -> A) : needs 0 (get g).
Proof.
  intros s a s' Hb Hrun. inversion Hrun; subst.
  repeat split; auto; lia.
Qed.

Lemma needs_Read1 (e : Failure) : needs 1 (RCHECK_read e BufferReader.Read1).
Proof.
  intros s a s' Hb Hrun. unfold RCHECK_read, BufferReader.Read1 in Hrun.
  destruct (BufferReader.HasBytes 1 (reader s)) eqn:Hh; [|discriminate].
  destruct (BufferReader.data (reader s) !! BufferReader.pos (reader s));
    [|discriminate].
  inversion Hrun; subst; clear Hrun.
  unfold BufferReader.HasBytes in Hh. apply Nat.leb_le in Hh.
  unfold in_bounds, BufferReader.size in *. simpl. repeat split; auto; lia.
Qed.

Lemma needs_Read2 (e : Failure) : needs 2 (RCHECK_read e BufferReader.Read2).
Proof.
  intros s a s' Hb Hrun. unfold RCHECK_read, BufferReader.Read2 in Hrun.
  destruct (BufferReader.HasBytes 2 (reader s)) eqn:Hh; [|discriminate].
  destruct (BufferReader.data (reader s) !! BufferReader.pos (reader s));
    [|discriminate].
  destruct (BufferReader.data (reader s) !! (BufferReader.pos (reader s) + 1)%nat);
    [|discriminate].
  inversion Hrun; subst; clear Hrun.
  unfold BufferReader.HasBytes in Hh. apply Nat.leb_le in Hh.
  unfold in_bounds, BufferReader.size in *. simpl. repeat split; auto; lia.
Qed.

Lemma needs_skip (e : Failure) (n : nat) : needs n (RCHECK_skip e n).
Proof.
  intros s a s' Hb Hrun.
  unfold RCHECK_skip, RCHECK_read, BufferReader.SkipBytes in Hrun.
  destruct (BufferReader.HasBytes n (reader s)) eqn:Hh; [|discriminate].
  inversion Hrun; subst; clear Hrun.
  unfold BufferReader.HasBytes in Hh. apply Nat.leb_le in Hh.
  unfold in_bounds, BufferReader.size in *. simpl. repeat split; auto; lia.
Qed.

Lemma needs_ReadNalu l expected : needs 2 (ReadNalu l expected).
Proof.
  unfold ReadNalu.
  apply (needs_bind 2 0); [apply needs_Read2 | intros size].
  apply (needs_bind 0 0); [apply needs_get | intros nalu_data].
  apply (needs_bind 0 0);
    [eapply needs_weaken; [|apply needs_skip]; lia | intros _].
  apply (needs_bind 0 0); [apply needs_RCHECK_some | intros nalu].
  apply (needs_bind 0 0); [apply needs_RCHECK | intros _].
  apply (needs_bind 0 0); [apply needs_assign | intros _].
  apply needs_ret.
Qed.

Lemma needs_FirstSps nalu : needs 0 (FirstSps nalu).
Proof.
  unfold FirstSps.
  apply (needs_bind 0 0); [apply needs_RCHECK_some | intros sps].
  apply (needs_bind 0 0); [apply needs_assign | intros _].
  apply (needs_bind 0 0); [apply needs_RCHECK_some | intros wh].
  apply needs_assign.
Qed.

Lemma needs_SpsLoop count i : needs 0 (SpsLoop count i).
Proof.
  revert i. induction count as [|count IH]; intros i; simpl.
  - apply needs_ret.
  - apply (needs_bind 0 0);
      [eapply needs_weaken; [|apply needs_ReadNalu]; lia | intros nalu].
    apply (needs_bind 0 0); [|intros _; apply IH].
    destruct (Nat.eqb i 0); [apply needs_FirstSps | apply needs_ret].
Qed.

Lemma needs_PpsLoop l count : needs 0 (PpsLoop l count).
Proof.
  induction count as [|count IH]; simpl.
  - apply needs_ret.
  - apply (needs_bind 0 0);
      [eapply needs_weaken; [|apply needs_ReadNalu]; lia | intros _; apply IH].
Qed.

Lemma needs_ParseHeader : needs 4 ParseHeader.
Proof.
  unfold ParseHeader.
  apply (needs_bind 1 3); [apply needs_Read1 | intros v].
  apply (needs_bind 0 3); [apply needs_assign | intros _].
  apply (needs_bind 0 3); [apply needs_RCHECK | intros _].
  apply (needs_bind 1 2); [apply needs_Read1 | intros p].
  apply (needs_bind 0 2); [apply needs_assign | intros _].
  apply (needs_bind 1 1); [apply needs_Read1 | intros c].
  apply (needs_bind 0 1); [apply needs_assign | intros _].
  apply (needs_bind 1 0); [apply needs_Read1 | intros a].
  apply needs_assign.
Qed.

Lemma needs_ParseLengthSize : needs 1 ParseLengthSize.
Proof.
  unfold ParseLengthSize.
  apply (needs_bind 1 0); [apply needs_Read1 | intros b].
  destruct (Z.land (u8 b) 3 =? 2); [apply needs_fail | apply needs_assign].
Qed.

Lemma needs_ParseSpsList : needs 1 ParseSpsList.
Proof.
  unfold ParseSpsList.
  apply (needs_bind 1 0); [apply needs_Read1 | intros n; apply needs_SpsLoop].
Qed.

Lemma needs_ParsePpsList : needs 1 ParsePpsList.
Proof.
  unfold ParsePpsList.
  apply (needs_bind 1 0); [apply needs_Read1 | intros n; apply needs_PpsLoop].
Qed.

Lemma needs_ParseParameterSets : needs 7 ParseParameterSets.
Proof.
  unfold ParseParameterSets.
  apply (needs_bind 4 3); [apply needs_ParseHeader | intros _].
  apply (needs_bind 1 2); [apply needs_ParseLengthSize | intros _].
  apply (needs_bind 1 1); [apply needs_ParseSpsList | intros _].
  apply needs_ParsePpsList.
Qed.

Lemma needs_ParseProfileSpecialCase : needs 0 ParseProfileSpecialCase.
Proof.
  unfold ParseProfileSpecialCase.
  apply (needs_bind 0 0); [apply needs_get | intros profile].
  destruct (is_special_profile profile); [|apply needs_ret].
  apply (needs_bind 0 0); [apply needs_get | intros enough].
  destruct (negb enough); [apply needs_ret|].
  apply (needs_bind 0 0);
    [eapply needs_weaken; [|apply needs_skip]; lia | intros _].
  apply (needs_bind 0 0);
    [eapply needs_weaken; [|apply needs_Read1]; lia | intros n].
  apply needs_PpsLoop.
Qed.

End ParserFacts.

(** ** The cursor seen as the bytes left *)

Lemma remaining_cons (rd : BufferReader.t) b rest :
  BufferReader.remaining rd = b :: rest ->
  BufferReader.data rd !! BufferReader.pos rd = Some b /\
  BufferReader.remaining
    (BufferReader.Build (BufferReader.data rd) (BufferReader.pos rd + 1)) = rest /\
  (BufferReader.pos rd + 1 <= BufferReader.size rd)%nat.
Proof.
  unfold BufferReader.remaining, BufferReader.size. simpl. intros H.
  split; [|split].
  - replace (BufferReader.pos rd) with (BufferReader.pos rd + 0)%nat at 1 by lia.
    rewrite <- lookup_drop, H. reflexivity.
  - rewrite <- drop_drop, H. reflexivity.
  - pose proof (length_drop (BufferReader.data rd) (BufferReader.pos rd)) as Hl.
    rewrite H in Hl. simpl in Hl. lia.
Qed.

Lemma Read1_cons (rd : BufferReader.t) b rest :
  BufferReader.remaining rd = b :: rest ->
  BufferReader.Read1 rd =
  Some (b, BufferReader.Build (BufferReader.data rd) (BufferReader.pos rd + 1)).
Proof.
  intros H. destruct (remaining_cons rd b rest H) as (Hl & _ & Hle).
  unfold BufferReader.Read1, BufferReader.HasBytes.
  apply Nat.leb_le in Hle. rewrite Hle, Hl. reflexivity.
Qed.

Lemma Read2_cons (rd : BufferReader.t) hi lo rest :
  BufferReader.remaining rd = hi :: lo :: rest ->
  BufferReader.Read2 rd =
  Some (Z.lor (Z.shiftl (u8 hi) 8) (u8 lo),
        BufferReader.Build (BufferReader.data rd) (BufferReader.pos rd + 2)) /\
  BufferReader.remaining
    (BufferReader.Build (BufferReader.data rd) (BufferReader.pos rd + 2)) = rest.
Proof.
  intros H. destruct (remaining_cons rd hi (lo :: rest) H) as (Hl & Hr & Hle).
  destruct (remaining_cons _ lo rest Hr) as (Hl' & Hr' & Hle').
  simpl in *. unfold BufferReader.size in *. simpl in *.
  replace (BufferReader.pos rd + 1 + 1)%nat with (BufferReader.pos rd + 2)%nat
    in * by lia.
  split; [|exact Hr'].
  unfold BufferReader.Read2, BufferReader.HasBytes, BufferReader.size.
  apply Nat.leb_le in Hle'. rewrite Hle', Hl, Hl'. reflexivity.
Qed.

Lemma Read2_short (rd : BufferReader.t) :
  (length (BufferReader.remaining rd) < 2)%nat ->
  (BufferReader.pos rd <= BufferReader.size rd)%nat ->
  BufferReader.Read2 rd = None.
Proof.
  unfold BufferReader.remaining, BufferReader.Read2, BufferReader.HasBytes,
    BufferReader.size.
  rewrite length_drop. intros H Hb.
  destruct (Nat.leb_spec (BufferReader.pos rd + 2) (length (BufferReader.data rd)));
    [lia | reflexivity].
Qed.

Lemma SkipBytes_remaining (rd : BufferReader.t) (n : nat) :
  (BufferReader.pos rd <= BufferReader.size rd)%nat ->
  BufferReader.SkipBytes n rd =
  if Nat.leb n (length (BufferReader.remaining rd))
  then Some (BufferReader.Build (BufferReader.data rd) (BufferReader.pos rd + n))
  else None.
Proof.
  unfold BufferReader.remaining, BufferReader.SkipBytes, BufferReader.HasBytes,
    BufferReader.size.
  rewrite length_drop. intros Hb.
  destruct (Nat.leb_spec (BufferReader.pos rd + n) (length (BufferReader.data rd)));
    destruct (Nat.leb_spec n (length (BufferReader.data rd) - BufferReader.pos rd));
    first [reflexivity | lia].
Qed.

Lemma remaining_skip (rd : BufferReader.t) (n : nat) :
  BufferReader.remaining
    (BufferReader.Build (BufferReader.data rd) (BufferReader.pos rd + n)) =
  drop n (BufferReader.remaining rd).
Proof.
  unfold BufferReader.remaining. simpl. rewrite drop_drop. reflexivity.
Qed.

Section Ensures.
Context {codec : H264}.
Variable Rr : relation AVCDecoderConfigurationRecord.
Variable E : Failure -> Prop.
Hypothesis Rr_refl : forall r, Rr r r.
Hypothesis Rr_trans : forall r1 r2 r3, Rr r1 r2 -> Rr r2 r3 -> Rr r1 r3.

Lemma ensures_ret {A} (a : A) : ensures Rr E (ret a).
Proof. intros s. simpl. split; [apply Rr_refl | discriminate]. Qed.

Lemma ensures_fail {A} (e : Failure) : E e -> ensures Rr E (@fail codec A e).
Proof.
  intros He s. simpl. split; [apply Rr_refl|].
  intros e' Heq. inversion Heq; subst. exact He.
Qed.

Lemma ensures_bind {A B} (m : Parse A) (g : A -> Parse B) :
  ensures Rr E m -> (forall a, ensures Rr E (g a)) -> ensures Rr E (bind m g).
Proof.
  intros Hm Hg s. unfold bind. specialize (Hm s).
  destruct (m s) as [[a|e] s1]; simpl in *.
  - destruct Hm as [Hr _]. destruct (Hg a s1) as [Hr' He'].
    split; [eapply Rr_trans; eauto | exact He'].
  - destruct Hm as [Hr He]. split; [exact Hr|].
    intros e' Heq. inversion Heq; subst. apply He. reflexivity.
Qed.

Lemma ensures_RCHECK (e : Failure) (cond : bool) :
  E e -> ensures Rr E (RCHECK e cond).
Proof.
  intros He. destruct cond; [apply ensures_ret | apply ensures_fail, He].
Qed.

Lemma ensures_RCHECK_some {A} (e : Failure) (o : option A) :
  E e -> ensures Rr E (RCHECK_some e o).
Proof.
  intros He. destruct o; [apply ensures_ret | apply ensures_fail, He].
Qed.

Lemma ensures_RCHECK_read {A} (e : Failure)
    (op : BufferReader.t -> option (A * BufferReader.t)) :
  E e -> ensures Rr E (RCHECK_read e op).
Proof.
  intros He s. unfold RCHECK_read.
  destruct (op (reader s)) as [[a rd]|]; simpl.
  - split; [apply Rr_refl | discriminate].
  - split; [apply Rr_refl|]. intros e' Heq. inversion Heq; subst. exact He.
Qed.

Lemma ensures_RCHECK_skip (e : Failure) (n : nat) :
  E e -> ensures Rr E (RCHECK_skip e n).
Proof. intros He. apply ensures_RCHECK_read, He. Qed.

Lemma ensures_get {A} (g : State -> A) : ensures Rr E (get g).
Proof. intros s. simpl. split; [apply Rr_refl | discriminate]. Qed.

Lemma ensures_assign g :
  (forall r, Rr r (g r)) -> ensures Rr E (assign g).
Proof. intros Hg s. simpl. split; [apply Hg | discriminate]. Qed.

(** The steps that come after the length-size byte. *)
Hypothesis Rr_AddNalu : forall n r, Rr r (AddNalu n r).
Hypothesis Rr_transfer : forall v r, Rr r (set_transfer_characteristics v r).
Hypothesis Rr_resolution : forall wh r, Rr r (set_resolution wh r).
Hypothesis E_later :
  forall e, e <> FailHeader -> e <> FailReadLengthSize ->
            e <> InvalidNaluLengthSize -> E e.

Lemma ensures_ReadNalu l expected : ensures Rr E (ReadNalu l expected).
Proof.
  unfold ReadNalu.
  apply ensures_bind; [apply ensures_RCHECK_read, E_later; discriminate|intros size].
  apply ensures_bind; [apply ensures_get|intros nalu_data].
  apply ensures_bind; [apply ensures_RCHECK_skip, E_later; discriminate|intros _].
  apply ensures_bind; [apply ensures_RCHECK_some, E_later; discriminate|intros nalu].
  apply ensures_bind; [apply ensures_RCHECK, E_later; discriminate|intros _].
  apply ensures_bind; [apply ensures_assign, Rr_AddNalu|intros _].
  apply ensures_ret.
Qed.

Lemma ensures_FirstSps nalu : ensures Rr E (FirstSps nalu).
Proof.
  unfold FirstSps.
  apply ensures_bind; [apply ensures_RCHECK_some, E_later; discriminate|intros sps].
  apply ensures_bind; [apply ensures_assign, Rr_transfer|intros _].
  apply ensures_bind; [apply ensures_RCHECK_some, E_later; discriminate|intros wh].
  apply ensures_assign, Rr_resolution.
Qed.

Lemma ensures_SpsLoop count i : ensures Rr E (SpsLoop count i).
Proof.
  revert i. induction count as [|count IH]; intros i; simpl.
  - apply ensures_ret.
  - apply ensures_bind; [apply ensures_ReadNalu|intros nalu].
    apply ensures_bind; [|intros _; apply IH].
    destruct (Nat.eqb i 0); [apply ensures_FirstSps | apply ensures_ret].
Qed.

Lemma ensures_PpsLoop l count : ensures Rr E (PpsLoop l count).
Proof.
  induction count as [|count IH]; simpl.
  - apply ensures_ret.
  - apply ensures_bind; [apply ensures_ReadNalu|intros _; apply IH].
Qed.

Lemma ensures_ParseProfileSpecialCase : ensures Rr E ParseProfileSpecialCase.
Proof.
  unfold ParseProfileSpecialCase.
  apply ensures_bind; [apply ensures_get|intros profile].
  destruct (is_special_profile profile); [|apply ensures_ret].
  apply ensures_bind; [apply ensures_get|intros enough].
  destruct (negb enough); [apply ensures_ret|].
  apply ensures_bind; [apply ensures_RCHECK_skip, E_later; discriminate|intros _].
  apply ensures_bind; [apply ensures_RCHECK_read, E_later; discriminate|intros n].
  apply ensures_PpsLoop.
Qed.

Lemma ensures_ParseUnitLists : ensures Rr E ParseUnitLists.
Proof.
  unfold ParseUnitLists, ParseSpsList, ParsePpsList.
  apply ensures_bind; [|intros _].
  { apply ensures_bind; [apply ensures_RCHECK_read, E_later; discriminate|].
    intros n. apply ensures_SpsLoop. }
  apply ensures_bind; [|intros _; apply ensures_ParseProfileSpecialCase].
  apply ensures_bind; [apply ensures_RCHECK_read, E_later; discriminate|].
  intros n. apply ensures_PpsLoop.
Qed.

(** The header and the length-size byte. *)
Hypothesis Rr_version : forall v r, Rr r (set_version_ v r).
Hypothesis Rr_profile : forall v r, Rr r (set_profile_indication_ v r).
Hypothesis Rr_compatibility : forall v r, Rr r (set_profile_compatibility_ v r).
Hypothesis Rr_level : forall v r, Rr r (set_avc_level_ v r).
Hypothesis Rr_length_size : forall v r, Rr r (set_nalu_length_size v r).
Hypothesis E_all : forall e, E e.

Lemma ensures_ParseHeader : ensures Rr E ParseHeader.
Proof.
  unfold ParseHeader.
  apply ensures_bind; [apply ensures_RCHECK_read, E_all|intros v].
  apply ensures_bind; [apply ensures_assign, Rr_version|intros _].
  apply ensures_bind; [apply ensures_RCHECK, E_all|intros _].
  apply ensures_bind; [apply ensures_RCHECK_read, E_all|intros p].
  apply ensures_bind; [apply ensures_assign, Rr_profile|intros _].
  apply ensures_bind; [apply ensures_RCHECK_read, E_all|intros c].
  apply ensures_bind; [apply ensures_assign, Rr_compatibility|intros _].
  apply ensures_bind; [apply ensures_RCHECK_read, E_all|intros a].
  apply ensures_assign, Rr_level.
Qed.

Lemma ensures_ParseLengthSize : ensures Rr E ParseLengthSize.
Proof.
  unfold ParseLengthSize.
  apply ensures_bind; [apply ensures_RCHECK_read, E_all|intros b].
  destruct (Z.land (u8 b) 3 =? 2);
    [apply ensures_fail, E_all | apply ensures_assign, Rr_length_size].
Qed.

End Ensures.

(** ** Bytes and numbers *)

Lemma u8_inj (a b : byte) : u8 a = u8 b -> a = b.
Proof.
  unfold u8. intros H. apply N2Z.inj in H.
  pose proof (Byte.of_to_N a) as Ha. pose proof (Byte.of_to_N b) as Hb.
  rewrite H in Ha. congruence.
Qed.

Lemma byte_of_u8_u8 (b : byte) : byte_of_u8 (u8 b) = b.
Proof.
  unfold byte_of_u8, u8. rewrite N2Z.id, Byte.of_to_N. reflexivity.
Qed.

Section ParserClaims.
Context {codec : H264}.

(** The steps of [ParseInternal] in sequence, from the state it starts in. *)
Lemma ParseInternal_run_steps (data : list byte) (r : AVCDecoderConfigurationRecord) :
  ParseInternal_run data r =
  bind ParseHeader (fun _ => bind ParseLengthSize (fun _ => ParseUnitLists))
    (Build_State r (BufferReader.Build data 0)).
Proof.
  unfold ParseInternal_run, ParseParameterSets, ParseUnitLists, bind.
  destruct (ParseHeader _) as [[[]|e] s1]; [|reflexivity].
  destruct (ParseLengthSize s1) as [[[]|e] s2]; [|reflexivity].
  destruct (ParseSpsList s2) as [[[]|e] s3]; [|reflexivity].
  destruct (ParsePpsList s3) as [[[]|e] s4]; reflexivity.
Qed.

Lemma nalus_extended_refl r : nalus_extended r r.
Proof. exists []. symmetry. apply app_nil_r. Qed.

Lemma nalus_extended_trans r1 r2 r3 :
  nalus_extended r1 r2 -> nalus_extended r2 r3 -> nalus_extended r1 r3.
Proof.
  intros [a Ha] [b Hb]. exists (a ++ b). rewrite Hb, Ha. symmetry. apply app_assoc.
Qed.

(** [ParseInternal] only ever adds units at the end of the list. *)
Lemma ParseInternal_run_extends data r :
  nalus_extended r (record (snd (ParseInternal_run data r))).
Proof.
  rewrite ParseInternal_run_steps.
  pose (E := fun _ : Failure => True).
  assert (H : ensures nalus_extended E
                (bind ParseHeader
                   (fun _ => bind ParseLengthSize (fun _ => ParseUnitLists)))).
  { assert (Hset : forall g : AVCDecoderConfigurationRecord ->
                               AVCDecoderConfigurationRecord,
               (forall r0, nalu_ (g r0) = nalu_ r0) ->
               forall r0, nalus_extended r0 (g r0)).
    { intros g Hg r0. exists []. rewrite Hg. symmetry. apply app_nil_r. }
    apply (ensures_bind _ _ nalus_extended_trans); [|intros _].
    - apply ensures_ParseHeader;
        first [ exact nalus_extended_refl | exact nalus_extended_trans
              | intros; exact I
              | intros v; apply Hset; reflexivity ].
    - apply (ensures_bind _ _ nalus_extended_trans); [|intros _].
      + apply ensures_ParseLengthSize;
          first [ exact nalus_extended_refl | exact nalus_extended_trans
                | intros; exact I
                | intros v; apply Hset; reflexivity ].
      + apply ensures_ParseUnitLists;
          first [ exact nalus_extended_refl | exact nalus_extended_trans
                | intros; exact I
                | intros n r0; exists [n]; reflexivity
                | intros v; apply Hset; reflexivity
                | intros [[[cw ch] pw] ph]; apply Hset; reflexivity ]. }
  apply (H (Build_State r (BufferReader.Build data 0))).
Qed.

Lemma ParseUnitLists_same_header :
  ensures same_header later_failure ParseUnitLists.
Proof.
  apply ensures_ParseUnitLists.
  - intros r. repeat split.
  - intros r1 r2 r3 (? & ? & ? & ? & ?) (? & ? & ? & ? & ?).
    repeat split; congruence.
  - intros n r. repeat split.
  - intros v r. repeat split.
  - intros [[[cw ch] pw] ph] r. repeat split.
  - intros e ? ? ?. repeat split; assumption.
Qed.

(** What the header step does with the first byte. *)
Lemma ParseHeader_first_byte b rest (r : AVCDecoderConfigurationRecord) :
  let s0 := Build_State r (BufferReader.Build (b :: rest) 0) in
  version_ (record (snd (ParseHeader s0))) = u8 b /\
  (u8 b <> 1 ->
   ParseHeader s0 =
   (Failed FailHeader,
    Build_State (set_version_ (u8 b) r) (BufferReader.Build (b :: rest) 1))).
Proof.
  intros s0. unfold ParseHeader, bind. simpl.
  destruct (u8 b =? 1) eqn:Hv; simpl.
  - split; [|intros Hne; apply Z.eqb_eq in Hv; contradiction].
    destruct rest as [|p [|c [|l tail]]]; reflexivity.
  - split; [reflexivity | intros _; reflexivity].
Qed.

Lemma ParseHeader_empty (r : AVCDecoderConfigurationRecord) :
  ParseHeader (Build_State r (BufferReader.Build [] 0)) =
  (Failed FailHeader, Build_State r (BufferReader.Build [] 0)).
Proof. reflexivity. Qed.

(** A header of version 1 is read whole. *)
Lemma ParseHeader_version_1 p c l tail (r : AVCDecoderConfigurationRecord) :
  ParseHeader (Build_State r (BufferReader.Build (x01 :: p :: c :: l :: tail) 0)) =
  (Done tt,
   Build_State
     (set_avc_level_ (u8 l)
        (set_profile_compatibility_ (u8 c)
           (set_profile_indication_ (u8 p) (set_version_ 1 r))))
     (BufferReader.Build (x01 :: p :: c :: l :: tail) 4)).
Proof. reflexivity. Qed.

Lemma ParseInternal_record data (r : AVCDecoderConfigurationRecord) :
  snd (ParseInternal data r) = record (snd (ParseInternal_run data r)).
Proof.
  unfold ParseInternal. destruct (ParseInternal_run data r). reflexivity.
Qed.

Lemma land_3_cases (z : Z) :
  Z.land z 3 = 0 \/ Z.land z 3 = 1 \/ Z.land z 3 = 2 \/ Z.land z 3 = 3.
Proof.
  assert (H : Z.land z 3 = z mod 4) by (apply (Z.land_ones z 2); lia).
  rewrite H. pose proof (Z.mod_pos_bound z 4 ltac:(lia)). lia.
Qed.

(** What the length-size step does, on the state the header step leaves. *)
Lemma ParseLengthSize_run b0 b1 b2 b3 b rest (r : AVCDecoderConfigurationRecord) :
  let data := b0 :: b1 :: b2 :: b3 :: b :: rest in
  ParseLengthSize (Build_State r (BufferReader.Build data 4)) =
  if Z.land (u8 b) 3 =? 2
  then (Failed InvalidNaluLengthSize,
        Build_State r (BufferReader.Build data 5))
  else (Done tt,
        Build_State (set_nalu_length_size (Z.land (u8 b) 3 + 1) r)
          (BufferReader.Build data 5)).
Proof.
  unfold ParseLengthSize, bind. simpl.
  destruct (Z.land (u8 b) 3 =? 2); reflexivity.
Qed.

Lemma ParseInternal_run_after_header p c l tail (r : AVCDecoderConfigurationRecord) :
  ParseInternal_run (x01 :: p :: c :: l :: tail) r =
  bind ParseLengthSize (fun _ => ParseUnitLists)
    (Build_State
       (set_avc_level_ (u8 l)
          (set_profile_compatibility_ (u8 c)
             (set_profile_indication_ (u8 p) (set_version_ 1 r))))
       (BufferReader.Build (x01 :: p :: c :: l :: tail) 4)).
Proof.
  rewrite ParseInternal_run_steps. unfold bind at 1.
  rewrite ParseHeader_version_1. reflexivity.
Qed.

















(** C4, as the code has it: after a header of version 1, [ParseInternal]
    fails for the length size exactly when the low two bits of the
    length-size byte are 2, whatever its six upper bits are; otherwise
    [nalu_length_size] is set to those two bits plus one, one of 1, 2
    and 4, and stays so to the end of the parse. *)
Theorem length_size_step p c l tail (r : AVCDecoderConfigurationRecord) :
  let data := x01 :: p :: c :: l :: tail in
  (ParseInternal_failure data r = Some InvalidNaluLengthSize <->
   exists b rest, tail = b :: rest /\ Z.land (u8 b) 3 = 2) /\
  (forall b rest, tail = b :: rest -> Z.land (u8 b) 3 <> 2 ->
   let size := nalu_length_size_ (snd (ParseInternal data r)) in
   size = Z.land (u8 b) 3 + 1 /\ (size = 1 \/ size = 2 \/ size = 4)).
Proof.
  intros data. subst data. cbv zeta. unfold ParseInternal_failure.
  rewrite ParseInternal_record, ParseInternal_run_after_header.
  set (r1 := set_avc_level_ _ _).
  destruct tail as [|b rest].
  - split.
    + split; [intros H; discriminate H | intros (b & rest & H & _); discriminate H].
    + intros b rest H. discriminate H.
  - unfold bind.
    rewrite (ParseLengthSize_run x01 p c l b rest r1).
    destruct (Z.land (u8 b) 3 =? 2) eqn:Hb.
    + apply Z.eqb_eq in Hb. split.
      * split; [intros _; exists b, rest; auto | reflexivity].
      * intros b' rest' Heq Hne. inversion Heq; subst. contradiction.
    + apply Z.eqb_neq in Hb.
      set (s2 := Build_State _ _).
      destruct (ParseUnitLists_same_header s2) as [Hsame Hfail].
      destruct (ParseUnitLists s2) as [o s3]. simpl in *. split.
      * split.
        -- intros H. destruct o as [|e]; [discriminate H|].
           inversion H; subst. destruct (Hfail _ eq_refl) as (_ & _ & Hne).
           contradiction.
        -- intros (b' & rest' & Heq & H2). inversion Heq; subst. contradiction.
      * intros b' rest' Heq _. inversion Heq; subst b' rest'.
        destruct Hsame as (_ & _ & _ & _ & Hls). cbv zeta. rewrite Hls.
        subst s2. simpl. split; [reflexivity|].
        destruct (land_3_cases (u8 b)) as [H|[H|[H|H]]]; lia.
Qed.

(** One turn of a loop, told by the bytes left at the cursor. *)
Lemma ReadNalu_view l expected (s : State) :
  in_bounds s ->
  ReadNalu l expected s =
  match BufferReader.remaining (reader s) with
  | hi :: lo :: rest =>
      let size := Z.to_nat (Z.lor (Z.shiftl (u8 hi) 8) (u8 lo)) in
      let data := BufferReader.data (reader s) in
      let pos := BufferReader.pos (reader s) in
      if Nat.leb size (length rest) then
        let s2 := Build_State (record s) (BufferReader.Build data (pos + 2 + size)) in
        match Nalu_Initialize (take size rest) with
        | Some nalu =>
            if Nalu_type nalu =? expected
            then (Done nalu,
                  Build_State (AddNalu nalu (record s))
                    (BufferReader.Build data (pos + 2 + size)))
            else (Failed (FailNalu l NaluType), s2)
        | None => (Failed (FailNalu l NaluInit), s2)
        end
      else (Failed (FailNalu l SkipPayload),
            Build_State (record s) (BufferReader.Build data (pos + 2)))
  | _ => (Failed (FailNalu l ReadSize), s)
  end.
Proof.
  intros Hb. unfold in_bounds in Hb.
  destruct (BufferReader.remaining (reader s)) as [|hi [|lo rest]] eqn:Hrem.
  - unfold ReadNalu, bind, RCHECK_read.
    rewrite Read2_short; [reflexivity | rewrite Hrem; simpl; lia | exact Hb].
  - unfold ReadNalu, bind, RCHECK_read.
    rewrite Read2_short; [reflexivity | rewrite Hrem; simpl; lia | exact Hb].
  - destruct (Read2_cons _ _ _ _ Hrem) as [Hread Hrest].
    cbv zeta. set (size := Z.to_nat _).
    assert (Hin : (BufferReader.pos (reader s) + 2 <= BufferReader.size (reader s))%nat).
    { pose proof (length_drop (BufferReader.data (reader s))
                    (BufferReader.pos (reader s))) as Hl.
      unfold BufferReader.remaining in Hrem. rewrite Hrem in Hl.
      unfold BufferReader.size. simpl in Hl. lia. }
    unfold ReadNalu, bind, RCHECK_read at 1. rewrite Hread. simpl.
    unfold RCHECK_skip, RCHECK_read. simpl.
    rewrite SkipBytes_remaining by exact Hin. simpl. rewrite Hrest.
    fold size. destruct (Nat.leb size (length rest)); [|reflexivity].
    simpl. destruct (Nalu_Initialize (take size rest)) as [nalu|]; [|reflexivity].
    simpl. destruct (Nalu_type nalu =? expected); reflexivity.
Qed.

Lemma add_nalus_cons nalu nalus (r : AVCDecoderConfigurationRecord) :
  add_nalus nalus (AddNalu nalu r) = add_nalus (nalu :: nalus) r.
Proof.
  unfold add_nalus, AddNalu. simpl. rewrite <- app_assoc. reflexivity.
Qed.

Lemma add_nalus_nil (r : AVCDecoderConfigurationRecord) : add_nalus [] r = r.
Proof.
  destruct r. unfold add_nalus. simpl. rewrite app_nil_r. reflexivity.
Qed.

(** The loop over PPS-typed units does what the format says: it goes through
    exactly when the bytes at the cursor split into [count] length-prefixed
    units that all are of type PPS, and then it has added them in order. *)
Lemma PpsLoop_view l count : forall s : State,
  in_bounds s ->
  match split_units count (BufferReader.remaining (reader s)) with
  | Some (units, tail) =>
      match classify_units H264_PPS units with
      | Some nalus =>
          exists s',
            PpsLoop l count s = (Done tt, s') /\
            record s' = add_nalus nalus (record s) /\
            BufferReader.remaining (reader s') = tail
      | None => succeeded (fst (PpsLoop l count s)) = false
      end
  | None => succeeded (fst (PpsLoop l count s)) = false
  end.
Proof.
  induction count as [|count IH]; intros s Hb; simpl.
  - exists s. rewrite add_nalus_nil. auto.
  - unfold bind. rewrite (ReadNalu_view l H264_PPS s Hb).
    destruct (BufferReader.remaining (reader s)) as [|hi [|lo rest]] eqn:Hrem;
      try reflexivity.
    cbv zeta. set (size := Z.to_nat _).
    assert (Hin : (BufferReader.pos (reader s) + 2 + length rest
                   = BufferReader.size (reader s))%nat).
    { pose proof (length_drop (BufferReader.data (reader s))
                    (BufferReader.pos (reader s))) as Hl.
      unfold BufferReader.remaining in Hrem. rewrite Hrem in Hl.
      unfold in_bounds in Hb. unfold BufferReader.size in *. simpl in Hl. lia. }
    destruct (Nat.leb_spec size (length rest)) as [Hle|Hgt]; [|reflexivity].
    destruct (Nalu_Initialize (take size rest)) as [nalu|] eqn:Hinit;
      [|destruct (split_units count (drop size rest)) as [[? ?]|];
        simpl; [rewrite Hinit|]; reflexivity].
    destruct (Nalu_type nalu =? H264_PPS) eqn:Hty;
      [|destruct (split_units count (drop size rest)) as [[? ?]|];
        simpl; [rewrite Hinit, Hty|]; reflexivity].
    set (s1 := Build_State _ _).
    assert (Hb1 : in_bounds s1).
    { unfold in_bounds, s1, BufferReader.size in *. simpl. lia. }
    assert (Hrem1 : BufferReader.remaining (reader s1) = drop size rest).
    { unfold s1. simpl.
      replace (BufferReader.pos (reader s) + 2 + size)%nat
        with (BufferReader.pos (reader s) + (2 + size))%nat by lia.
      rewrite remaining_skip, Hrem. reflexivity. }
    specialize (IH s1 Hb1). rewrite Hrem1 in IH.
    destruct (split_units count (drop size rest)) as [[units tail]|];
      [|exact IH].
    simpl. rewrite Hinit, Hty.
    destruct (classify_units H264_PPS units) as [nalus|]; [|exact IH].
    destruct IH as (s' & Hrun & Hrec & Htail).
    exists s'. rewrite Hrun. split; [reflexivity|]. split; [|exact Htail].
    rewrite Hrec. unfold s1. simpl. apply add_nalus_cons.
Qed.

Lemma ParseInternal_fst data (r : AVCDecoderConfigurationRecord) :
  fst (ParseInternal data r) = succeeded (fst (ParseInternal_run data r)).
Proof.
  unfold ParseInternal. destruct (ParseInternal_run data r). reflexivity.
Qed.

Lemma is_special_profile_In (profile : Z) :
  is_special_profile profile = true <-> In profile [100; 110; 122; 144].
Proof.
  unfold is_special_profile. simpl.
  rewrite !orb_true_iff, !Z.eqb_eq. intuition congruence.
Qed.

(** C7: once the PPS list is read, a profile outside 100, 110, 122 and 144
    ends the parse with success and nothing more read; so does one of these
    profiles when fewer than four bytes are left; with four bytes or more,
    three are skipped, the fourth is the count of the units that follow,
    taken whole, and the parse goes through exactly when the bytes after it
    split into that many length-prefixed units all of type PPS, which are
    then added to the record in order. *)
Theorem profile_special_case (data : list byte)
    (r : AVCDecoderConfigurationRecord) (s : State) :
  ParseParameterSets (Build_State r (BufferReader.Build data 0)) = (Done tt, s) ->
  let profile := profile_indication_ (record s) in
  let left := BufferReader.remaining (reader s) in
  (~ In profile [100; 110; 122; 144] ->
   ParseInternal_run data r = (Done tt, s)) /\
  (In profile [100; 110; 122; 144] -> (length left < 4)%nat ->
   ParseInternal_run data r = (Done tt, s)) /\
  (In profile [100; 110; 122; 144] -> (4 <= length left)%nat ->
   exists b0 b1 b2 count rest,
     left = b0 :: b1 :: b2 :: count :: rest /\
     match split_units (Z.to_nat (u8 count)) rest with
     | Some (units, tail) =>
         match classify_units H264_PPS units with
         | Some nalus =>
             exists s',
               ParseInternal_run data r = (Done tt, s') /\
               record s' = add_nalus nalus (record s) /\
               BufferReader.remaining (reader s') = tail
         | None => fst (ParseInternal data r) = false
         end
     | None => fst (ParseInternal data r) = false
     end).
Proof.
  intros Hsets profile left.
  assert (Hrun : ParseInternal_run data r = ParseProfileSpecialCase s).
  { unfold ParseInternal_run, bind. rewrite Hsets. reflexivity. }
  assert (Hb : in_bounds s).
  { eapply (needs_ParseParameterSets _ tt s); [|exact Hsets].
    unfold in_bounds. simpl. lia. }
  rewrite ParseInternal_fst, Hrun. clear Hrun Hsets.
  assert (Hlen : length left =
                 (BufferReader.size (reader s) - BufferReader.pos (reader s))%nat).
  { unfold left, BufferReader.remaining, BufferReader.size. apply length_drop. }
  unfold ParseProfileSpecialCase, bind, get. simpl. fold profile.
  split; [|split].
  - intros Hout. destruct (is_special_profile profile) eqn:Hsp; [|reflexivity].
    apply is_special_profile_In in Hsp. contradiction.
  - intros Hin Hshort. apply is_special_profile_In in Hin. rewrite Hin.
    unfold BufferReader.HasBytes.
    destruct (Nat.leb_spec (BufferReader.pos (reader s) + 4)
                (BufferReader.size (reader s))); [lia | reflexivity].
  - intros Hin Hlong. apply is_special_profile_In in Hin. rewrite Hin.
    unfold BufferReader.HasBytes.
    destruct (Nat.leb_spec (BufferReader.pos (reader s) + 4)
                (BufferReader.size (reader s))); [|lia].
    simpl.
    destruct left as [|b0 [|b1 [|b2 [|count rest]]]] eqn:Hleft;
      try (simpl in Hlong; lia).
    exists b0, b1, b2, count, rest. split; [reflexivity|].
    unfold RCHECK_skip, RCHECK_read.
    rewrite SkipBytes_remaining by exact Hb.
    fold left. rewrite Hleft. simpl.
    rewrite (Read1_cons _ count rest)
      by (rewrite remaining_skip; fold left; rewrite Hleft; reflexivity).
    simpl. set (s4 := Build_State _ _).
    assert (Hb4 : in_bounds s4).
    { unfold in_bounds, s4. simpl. unfold BufferReader.size in *. simpl. lia. }
    assert (Hrem4 : BufferReader.remaining (reader s4) = rest).
    { unfold s4. simpl.
      replace (BufferReader.pos (reader s) + 3 + 1)%nat
        with (BufferReader.pos (reader s) + 4)%nat by lia.
      rewrite remaining_skip. fold left. rewrite Hleft. reflexivity. }
    pose proof (PpsLoop_view InSpsExt (Z.to_nat (u8 count)) s4 Hb4) as Hloop.
    rewrite Hrem4 in Hloop.
    destruct (split_units (Z.to_nat (u8 count)) rest) as [[units tail]|];
      [|exact Hloop].
    destruct (classify_units H264_PPS units) as [nalus|]; [|exact Hloop].
    destruct Hloop as (s' & Hrun & Hrec & Htail).
    exists s'. split; [exact Hrun|]. split; [exact Hrec | exact Htail].
Qed.

(** The header and the length-size byte leave the unit list alone. *)
Lemma ParseHeader_same_nalus (s : State) :
  nalu_ (record (snd (ParseHeader s))) = nalu_ (record s).
Proof.
  refine (proj1 (ensures_ParseHeader
                   (fun r r' : AVCDecoderConfigurationRecord => nalu_ r' = nalu_ r)
                   (fun _ => True) _ _ _ _ _ _ _ s));
    first [ intros; exact I | intros; reflexivity | intros; congruence ].
Qed.

Lemma ParseLengthSize_same_nalus (s : State) :
  nalu_ (record (snd (ParseLengthSize s))) = nalu_ (record s).
Proof.
  refine (proj1 (ensures_ParseLengthSize
                   (fun r r' : AVCDecoderConfigurationRecord => nalu_ r' = nalu_ r)
                   (fun _ => True) _ _ _ _ s));
    first [ intros; exact I | intros; reflexivity | intros; congruence ].
Qed.

(** With no byte left the SPS count cannot be read. *)
Lemma ParseUnitLists_at_end (s : State) :
  (BufferReader.size (reader s) <= BufferReader.pos (reader s))%nat ->
  ParseUnitLists s = (Failed FailReadNumSps, s).
Proof.
  intros Hend.
  unfold ParseUnitLists, ParseSpsList, bind, RCHECK_read, BufferReader.Read1,
    BufferReader.HasBytes.
  destruct (Nat.leb_spec (BufferReader.pos (reader s) + 1)
              (BufferReader.size (reader s))); [lia | reflexivity].
Qed.

(** C10: on an input of fewer than six bytes [ParseInternal] returns false,
    whatever the bytes are, and no unit was added to the record: the four
    bytes of the header, the length-size byte and the SPS count are read
    before the first unit. *)
Theorem short_input_fails (data : list byte) (r : AVCDecoderConfigurationRecord) :
  (length data < 6)%nat ->
  fst (ParseInternal data r) = false /\
  nalu_ (snd (ParseInternal data r)) = nalu_ r.
Proof.
  intros Hshort. split.
  - unfold ParseInternal.
    destruct (ParseInternal_run data r) as [[[]|e] s] eqn:Hrun; [|reflexivity].
    exfalso. unfold ParseInternal_run in Hrun.
    assert (Hn : needs (7 + 0)
                   (bind ParseParameterSets (fun _ => ParseProfileSpecialCase))).
    { apply needs_bind; [apply needs_ParseParameterSets|].
      intros _. apply needs_ParseProfileSpecialCase. }
    apply Hn in Hrun; [|unfold in_bounds; simpl; lia].
    destruct Hrun as (Hb & Hd & Hp).
    unfold in_bounds, BufferReader.size in Hb. rewrite Hd in Hb. simpl in *. lia.
  - rewrite ParseInternal_record, ParseInternal_run_steps.
    set (s0 := Build_State r (BufferReader.Build data 0)).
    assert (Hb0 : in_bounds s0) by (unfold in_bounds; simpl; lia).
    pose proof (ParseHeader_same_nalus s0) as Hh.
    unfold bind. destruct (ParseHeader s0) as [[[]|e] s1] eqn:Hrun1;
      [|exact Hh].
    destruct (needs_ParseHeader s0 tt s1 Hb0 Hrun1) as (Hb1 & Hd1 & Hp1).
    pose proof (ParseLengthSize_same_nalus s1) as Hl.
    destruct (ParseLengthSize s1) as [[[]|e] s2] eqn:Hrun2;
      [|simpl in *; congruence].
    destruct (needs_ParseLengthSize s1 tt s2 Hb1 Hrun2) as (Hb2 & Hd2 & Hp2).
    rewrite ParseUnitLists_at_end.
    + simpl in *. congruence.
    + unfold BufferReader.size. rewrite Hd2, Hd1. simpl in *. lia.
Qed.

End ParserClaims.

(** * Facts about the codec string *)

(** The two digits written for a byte are lower-case hexadecimal digits:
    its upper four bits, then its lower four. *)
Lemma hex_digits_of_byte (b : byte) :
  hex_value (to_lower_char (hex_char (Z.shiftr (u8 b) 4))) = Some (u8 b / 16) /\
  hex_value (to_lower_char (hex_char (Z.land (u8 b) 15))) = Some (u8 b mod 16).
Proof.
  destruct b; vm_compute; split; reflexivity.
Qed.

(** C8: the codec string is the tag of the FourCC, a dot, and six lower-case
    hexadecimal digits that spell the profile indication, the profile
    compatibility and the level, two digits each; for avc1, 0x64, 0x00 and
    0x1f it is avc1.64001f.  (The function has no state to depend on.) *)
Theorem codec_string_format (codec_fourcc : FourCC)
    (profile_indication profile_compatibility avc_level : byte) :
  (exists d1 d2 d3 d4 d5 d6 : ascii,
     GetCodecString codec_fourcc profile_indication profile_compatibility avc_level =
     String.append (FourCCToString codec_fourcc)
       (String "."
          (String d1 (String d2 (String d3 (String d4 (String d5 (String d6
             EmptyString))))))) /\
     hex_value d1 = Some (u8 profile_indication / 16) /\
     hex_value d2 = Some (u8 profile_indication mod 16) /\
     hex_value d3 = Some (u8 profile_compatibility / 16) /\
     hex_value d4 = Some (u8 profile_compatibility mod 16) /\
     hex_value d5 = Some (u8 avc_level / 16) /\
     hex_value d6 = Some (u8 avc_level mod 16)) /\
  GetCodecString FOURCC_avc1 x64 x00 x1f = "avc1.64001f"%string.
Proof.
  split; [|reflexivity].
  destruct (hex_digits_of_byte profile_indication) as [Hp1 Hp2].
  destruct (hex_digits_of_byte profile_compatibility) as [Hc1 Hc2].
  destruct (hex_digits_of_byte avc_level) as [Hl1 Hl2].
  do 6 eexists. split; [reflexivity|].
  repeat split; assumption.
Qed.

(** * Facts about the fragmenter *)

Section FragmenterFacts.
Variable use_dts : bool.

Lemma open_InitializeFragment first_sample_dts (f0 : Fragmenter) :
  open_fragment use_dts [] [] (InitializeFragment first_sample_dts f0).
Proof. repeat split. Qed.

(** A sample is added to an open fragment when its duration is positive, and
    the fragment stays open with the sample at the end of its run. *)
Lemma AddSample_open samples descriptions f sample :
  open_fragment use_dts samples descriptions f ->
  if duration sample >? 0
  then exists f',
         AddSample use_dts sample f = Some f' /\
         open_fragment use_dts (samples ++ [sample]) descriptions f' /\
         seek_preroll_ f' = seek_preroll_ f /\
         header (traf_ f') = header (traf_ f)
  else AddSample use_dts sample f = None.
Proof.
  intros (Hinit & Hruns & Hdesc & Hgroups & Hearliest & Hsap & Hdata).
  unfold AddSample. destruct (duration sample >? 0); [|reflexivity].
  rewrite Hinit. unfold update_run0. rewrite Hruns, Hdata. simpl.
  eexists. split; [reflexivity|].
  unfold open_fragment, run_of, earliest_of, first_sap_of. simpl.
  rewrite !fold_left_app, map_app, concat_app. simpl.
  rewrite app_nil_r, Hearliest, Hsap.
  repeat split; assumption.
Qed.

Lemma attach_description_open samples descriptions f d :
  open_fragment use_dts samples descriptions f ->
  open_fragment use_dts samples (descriptions ++ [d]) (attach_description d f).
Proof.
  intros (Hinit & Hruns & Hdesc & Hgroups & Hearliest & Hsap & Hdata).
  unfold open_fragment, attach_description. simpl. rewrite Hdesc.
  repeat split; assumption.
Qed.

(** The calls that fill a fragment keep it open. *)
Lemma calls_open cs : forall samples descriptions f f',
  forallb accumulating cs = true ->
  open_fragment use_dts samples descriptions f ->
  calls use_dts cs f = Some f' ->
  open_fragment use_dts (samples ++ samples_added cs)
    (descriptions ++ descriptions_attached cs) f' /\
  seek_preroll_ f' = seek_preroll_ f /\
  header (traf_ f') = header (traf_ f).
Proof.
  induction cs as [|c cs IH]; intros samples descriptions f f' Hacc Hopen Hrun.
  - simpl in *. inversion Hrun; subst. rewrite !app_nil_r. auto.
  - simpl in Hacc. apply andb_true_iff in Hacc. destruct Hacc as [Hc Hcs].
    destruct c as [d0|sample|d|]; try discriminate Hc; simpl in Hrun.
    + pose proof (AddSample_open samples descriptions f sample Hopen) as Hadd.
      destruct (duration sample >? 0).
      * destruct Hadd as (f1 & Hf1 & Hopen1 & Hpre & Hhdr).
        rewrite Hf1 in Hrun.
        destruct (IH _ _ _ _ Hcs Hopen1 Hrun) as (Hopen' & Hpre' & Hhdr').
        simpl. rewrite <- app_assoc in Hopen'. simpl in Hopen'.
        split; [exact Hopen' | split; congruence].
      * rewrite Hadd in Hrun. discriminate Hrun.
    + pose proof (attach_description_open samples descriptions f d Hopen) as Hopen1.
      destruct (IH _ _ _ _ Hcs Hopen1 Hrun) as (Hopen' & Hpre' & Hhdr').
      simpl. rewrite <- app_assoc in Hopen'. simpl in Hopen'.
      split; [exact Hopen' | split; [exact Hpre' | exact Hhdr']].
Qed.

(** The calls that fill a fragment, made after [InitializeFragment]. *)
Lemma calls_after_InitializeFragment cs first_sample_dts f0 f :
  forallb accumulating cs = true ->
  calls use_dts cs (InitializeFragment first_sample_dts f0) = Some f ->
  open_fragment use_dts (samples_added cs) (descriptions_attached cs) f /\
  seek_preroll_ f = seek_preroll_ f0.
Proof.
  intros Hacc Hrun.
  destruct (calls_open cs [] [] _ _ Hacc
              (open_InitializeFragment first_sample_dts f0) Hrun)
    as (Hopen & Hpre & _).
  split; [exact Hopen | exact Hpre].
Qed.

(** ** The run of an open fragment *)

Lemma run_of_snoc samples sample :
  run_of (samples ++ [sample]) = add_to_run sample (run_of samples).
Proof. unfold run_of. rewrite fold_left_app. reflexivity. Qed.

Lemma run_of_arrays samples :
  TrackFragmentRun.sample_flags (run_of samples) = map sample_flag samples /\
  TrackFragmentRun.sample_sizes (run_of samples) = map data_size samples /\
  TrackFragmentRun.sample_durations (run_of samples) = map duration samples /\
  TrackFragmentRun.sample_composition_time_offsets (run_of samples)
    = map (fun sample => wrap_int64 (pts sample - dts sample)) samples.
Proof.
  induction samples as [|sample samples IH] using rev_ind.
  - repeat split.
  - destruct IH as (Hf & Hs & Hd & Ho).
    rewrite run_of_snoc, !map_app. unfold add_to_run.
    cbn [TrackFragmentRun.sample_flags TrackFragmentRun.sample_sizes
         TrackFragmentRun.sample_durations
         TrackFragmentRun.sample_composition_time_offsets map].
    rewrite Hf, Hs, Hd, Ho.
    repeat split.
Qed.

(** The flags of the run of an open fragment: the data offset, and the
    composition time offsets once a sample had them. *)
Lemma run_of_flags samples :
  TrackFragmentRun.flags (run_of samples) = 0x001 \/
  TrackFragmentRun.flags (run_of samples) = 0x801.
Proof.
  induction samples as [|sample samples IH] using rev_ind.
  - left. reflexivity.
  - rewrite run_of_snoc. simpl.
    destruct (pts sample =? dts sample); [exact IH|].
    destruct IH as [-> | ->]; right; reflexivity.
Qed.

(** ** [FinalizeFragment], step by step *)

Lemma uniform_cons value entries :
  forallb (Z.eqb value) (value :: entries) = true <-> uniform (value :: entries).
Proof.
  rewrite forallb_forall. split.
  - intros H x y Hx Hy. apply H in Hx, Hy. apply Z.eqb_eq in Hx, Hy. congruence.
  - intros H x Hx. apply Z.eqb_eq. apply H; [left; reflexivity | exact Hx].
Qed.

(** [OptimizeSampleEntries] on an array that is not empty. *)
Lemma OptimizeSampleEntries_spec entries default_value :
  entries <> [] ->
  exists optimized entries' default',
    OptimizeSampleEntries entries default_value
      = Some (optimized, entries', default') /\
    (optimized = true <-> uniform entries) /\
    (optimized = true ->
     entries' = [] /\ forall x, In x entries -> default' = x) /\
    (optimized = false -> entries' = entries /\ default' = default_value).
Proof.
  intros Hne. destruct entries as [|value entries]; [contradiction|].
  unfold OptimizeSampleEntries.
  destruct (forallb (Z.eqb value) (value :: entries)) eqn:Hall.
  - exists true, [], value. split; [reflexivity|].
    apply uniform_cons in Hall. split; [tauto|]. split; [|discriminate].
    intros _. split; [reflexivity|]. intros x Hx.
    apply Hall; [left; reflexivity | exact Hx].
  - exists false, (value :: entries), default_value. split; [reflexivity|].
    split; [|split; [discriminate | auto]].
    split; [discriminate|]. intros Hu. apply uniform_cons in Hu. congruence.
Qed.

(** What [FinalizeFragment] leaves, from the results of the three calls of
    [OptimizeSampleEntries]. *)
Lemma FinalizeFragment_steps f f' run :
  runs (traf_ f) = [run] ->
  FinalizeFragment f = Some f' ->
  let hdr := header (traf_ f) in
  let count := Z.of_nat (length (TrackFragmentRun.sample_sizes run)) in
  exists od ed dd os es ds ofl ef df,
    OptimizeSampleEntries (TrackFragmentRun.sample_durations run)
      (TrackFragmentHeader.default_sample_duration hdr) = Some (od, ed, dd) /\
    OptimizeSampleEntries (TrackFragmentRun.sample_sizes run)
      (TrackFragmentHeader.default_sample_size hdr) = Some (os, es, ds) /\
    OptimizeSampleEntries (TrackFragmentRun.sample_flags run)
      (TrackFragmentHeader.default_sample_flags hdr) = Some (ofl, ef, df) /\
    runs (traf_ f') =
      [TrackFragmentRun.Build
         (run_flags_after (TrackFragmentRun.flags run) od os ofl)
         count (TrackFragmentRun.data_offset run) ef es ed
         (TrackFragmentRun.sample_composition_time_offsets run)] /\
    header (traf_ f') =
      TrackFragmentHeader.Build
        (header_flags_after (TrackFragmentHeader.flags hdr) od os ofl)
        (TrackFragmentHeader.sample_description_index hdr) dd ds df /\
    sample_to_groups (traf_ f') =
      sample_to_groups (traf_ f)
      ++ (if seek_preroll_ f >? 0 then [roll_sample_to_group count] else [])
      ++ map (fragment_sample_to_group count) (sample_group_descriptions (traf_ f)) /\
    sample_group_descriptions (traf_ f') = sample_group_descriptions (traf_ f) /\
    first_sap_time_ f' = first_sap_time_ f /\
    earliest_presentation_time_ f' = earliest_presentation_time_ f /\
    fragment_duration_ f' = fragment_duration_ f /\
    seek_preroll_ f' = seek_preroll_ f /\
    fragment_initialized_ f' = false /\
    fragment_finalized_ f' = true.
Proof.
  intros Hruns Hfin hdr count. unfold FinalizeFragment in Hfin.
  rewrite Hruns in Hfin. simpl in Hfin. fold hdr in Hfin.
  destruct (OptimizeSampleEntries (TrackFragmentRun.sample_durations run) _)
    as [[[od ed] dd]|] eqn:Hd; [|discriminate].
  simpl in Hfin.
  destruct od; simpl in Hfin;
    (destruct (OptimizeSampleEntries (TrackFragmentRun.sample_sizes run) _)
       as [[[os es] ds]|] eqn:Hs; simpl in Hfin; [|discriminate]);
    (destruct os; simpl in Hfin;
     (destruct (OptimizeSampleEntries (TrackFragmentRun.sample_flags run) _)
        as [[[ofl ef] df]|] eqn:Hf; simpl in Hfin; [|discriminate]);
     (destruct ofl; inversion Hfin; subst f'; clear Hfin; simpl;
      do 9 eexists; repeat split; reflexivity)).
Qed.

End FragmenterFacts.

Section FragmenterClaims.
Variable use_dts : bool.

Lemma FinalizeFragment_total f run :
  runs (traf_ f) = [run] ->
  TrackFragmentRun.sample_durations run <> [] ->
  TrackFragmentRun.sample_sizes run <> [] ->
  TrackFragmentRun.sample_flags run <> [] ->
  exists f', FinalizeFragment f = Some f'.
Proof.
  intros Hruns Hd Hs Hf. unfold FinalizeFragment. rewrite Hruns. simpl.
  destruct (TrackFragmentRun.sample_durations run) as [|d ld]; [contradiction|].
  destruct (TrackFragmentRun.sample_sizes run) as [|z lz] eqn:Esz; [contradiction|].
  destruct (TrackFragmentRun.sample_flags run) as [|g lg] eqn:Efl; [contradiction|].
  unfold OptimizeSampleEntries at 1.
  destruct (forallb (Z.eqb d) (d :: ld)); simpl; rewrite Esz;
    unfold OptimizeSampleEntries at 1;
    destruct (forallb (Z.eqb z) (z :: lz)); simpl; rewrite Efl;
    unfold OptimizeSampleEntries at 1;
    destruct (forallb (Z.eqb g) (g :: lg)); simpl; eexists; reflexivity.
Qed.

Lemma run_flags_after_present flags od os ofl :
  flags = 0x001 \/ flags = 0x801 ->
  has_mask (run_flags_after flags od os ofl)
    TrackFragmentRun.kSampleDurationPresentMask = negb od /\
  has_mask (run_flags_after flags od os ofl)
    TrackFragmentRun.kSampleSizePresentMask = negb os /\
  has_mask (run_flags_after flags od os ofl)
    TrackFragmentRun.kSampleFlagsPresentMask = negb ofl.
Proof.
  intros [-> | ->]; destruct od, os, ofl; repeat split; reflexivity.
Qed.

Lemma promoted_or_kept_intro entries default_value optimized entries' default' flags mask :
  (optimized = true <-> uniform entries) ->
  (optimized = true ->
   entries' = [] /\ forall x, In x entries -> default' = x) ->
  (optimized = false -> entries' = entries /\ default' = default_value) ->
  has_mask flags mask = negb optimized ->
  promoted_or_kept entries default' entries' (has_mask flags mask).
Proof.
  intros Hiff Ht Hf Hmask. rewrite Hmask. split.
  - intros Hu. apply Hiff in Hu. subst optimized.
    split; [apply Ht; reflexivity | reflexivity].
  - intros Hnu. destruct optimized.
    + exfalso. apply Hnu, Hiff. reflexivity.
    + split; [apply Hf; reflexivity | reflexivity].
Qed.

(** C3: [FinalizeFragment] on an open fragment with a sample sets
    [sample_count] to the number of samples and, for the durations, the
    sizes and the flags each on its own: when the entries are all the same
    value, that value becomes the default of the header and the bit of the
    field stays clear in the flags of the run; when two entries differ, the
    array is kept as it is and the bit is set. *)
Theorem finalize_optimizes_entries cs first_sample_dts f0 f :
  forallb accumulating cs = true ->
  calls use_dts cs (InitializeFragment first_sample_dts f0) = Some f ->
  samples_added cs <> [] ->
  let samples := samples_added cs in
  exists f' run',
    FinalizeFragment f = Some f' /\
    runs (traf_ f') = [run'] /\
    TrackFragmentRun.sample_count run' = Z.of_nat (length samples) /\
    promoted_or_kept (map duration samples)
      (TrackFragmentHeader.default_sample_duration (header (traf_ f')))
      (TrackFragmentRun.sample_durations run')
      (has_mask (TrackFragmentRun.flags run')
         TrackFragmentRun.kSampleDurationPresentMask) /\
    promoted_or_kept (map data_size samples)
      (TrackFragmentHeader.default_sample_size (header (traf_ f')))
      (TrackFragmentRun.sample_sizes run')
      (has_mask (TrackFragmentRun.flags run')
         TrackFragmentRun.kSampleSizePresentMask) /\
    promoted_or_kept (map sample_flag samples)
      (TrackFragmentHeader.default_sample_flags (header (traf_ f')))
      (TrackFragmentRun.sample_flags run')
      (has_mask (TrackFragmentRun.flags run')
         TrackFragmentRun.kSampleFlagsPresentMask).
Proof.
  intros Hacc Hcalls Hne samples.
  destruct (calls_after_InitializeFragment use_dts cs _ _ _ Hacc Hcalls)
    as [(Hinit & Hruns & _) _].
  fold samples in Hruns.
  destruct (run_of_arrays samples) as (Hfl & Hsz & Hdu & _).
  assert (Hmap : forall (A : Type) (g : MediaSample -> A), map g samples <> []).
  { intros A g H. apply map_eq_nil in H. contradiction. }
  destruct (FinalizeFragment_total f (run_of samples) Hruns) as [f' Hfin];
    [rewrite Hdu; apply Hmap | rewrite Hsz; apply Hmap
    | rewrite Hfl; apply Hmap |].
  destruct (FinalizeFragment_steps f f' _ Hruns Hfin)
    as (od & ed & dd & os & es & ds & ofl & ef & df &
        Hod & Hos & Hof & Hruns' & Hhdr' & _).
  rewrite Hdu in Hod. rewrite Hsz in Hos. rewrite Hfl in Hof.
  destruct (OptimizeSampleEntries_spec (map duration samples)
              (TrackFragmentHeader.default_sample_duration (header (traf_ f)))
              (Hmap _ _)) as (od' & ed' & dd' & Hod' & Hd1 & Hd2 & Hd3).
  destruct (OptimizeSampleEntries_spec (map data_size samples)
              (TrackFragmentHeader.default_sample_size (header (traf_ f)))
              (Hmap _ _)) as (os' & es' & ds' & Hos' & Hs1 & Hs2 & Hs3).
  destruct (OptimizeSampleEntries_spec (map sample_flag samples)
              (TrackFragmentHeader.default_sample_flags (header (traf_ f)))
              (Hmap _ _)) as (of' & ef' & df' & Hof' & Hf1 & Hf2 & Hf3).
  rewrite Hod in Hod'. rewrite Hos in Hos'. rewrite Hof in Hof'.
  inversion Hod'; inversion Hos'; inversion Hof'; subst; clear Hod' Hos' Hof'.
  destruct (run_flags_after_present _ od' os' of' (run_of_flags samples))
    as (Hpd & Hps & Hpf).
  eexists f', _. split; [exact Hfin|]. split; [exact Hruns'|].
  rewrite Hhdr'. simpl. rewrite Hsz, length_map.
  split; [reflexivity|].
  split; [|split]; eapply promoted_or_kept_intro; eassumption.
Qed.

(** ** The earliest presentation time *)

Lemma earliest_of_snoc samples sample :
  earliest_of use_dts (samples ++ [sample]) =
  Z.min (earliest_of use_dts samples) (selected_timestamp use_dts sample).
Proof.
  unfold earliest_of. rewrite fold_left_app. simpl.
  destruct (Z.gtb_spec
              (fold_left
                 (fun earliest sample0 =>
                    if earliest >? selected_timestamp use_dts sample0
                    then selected_timestamp use_dts sample0 else earliest)
                 samples kInvalidTime)
              (selected_timestamp use_dts sample)); lia.
Qed.

Lemma earliest_of_minimum samples :
  Forall (fun sample => int64 (selected_timestamp use_dts sample)) samples ->
  let times := map (selected_timestamp use_dts) samples in
  (times = [] -> earliest_of use_dts samples = kInvalidTime) /\
  (times <> [] -> In (earliest_of use_dts samples) times) /\
  (forall t, In t times -> earliest_of use_dts samples <= t).
Proof.
  induction samples as [|sample samples IH] using rev_ind; intros Hall times.
  - split; [reflexivity|]. split; [intros H; contradiction | intros t []].
  - apply Forall_app in Hall. destruct Hall as [Hall Hs].
    apply Forall_inv in Hs. destruct (IH Hall) as (Hnil & Hin & Hle).
    subst times. rewrite map_app. simpl. rewrite earliest_of_snoc.
    split; [intros H; apply app_eq_nil in H; destruct H; discriminate|].
    split.
    + intros _. apply in_or_app.
      destruct (Z.min_spec (earliest_of use_dts samples)
                  (selected_timestamp use_dts sample)) as [[Hlt ->]|[Hge ->]];
        [|right; left; reflexivity].
      destruct samples as [|s0 samples'].
      * exfalso. rewrite (Hnil eq_refl) in Hlt.
        unfold int64, kInvalidTime in *. lia.
      * left. apply Hin. discriminate.
    + intros t Ht. apply in_app_or in Ht. destruct Ht as [Ht|[<-|[]]].
      * specialize (Hle t Ht). lia.
      * lia.
Qed.

(** C5: after the calls that fill a fragment, made since
    [InitializeFragment], [earliest_presentation_time_] is the time "not set"
    when no sample was added, and otherwise the least of the times of the
    samples added, where the time of a sample is its decode time [dts] when
    the flag [mp4_use_decoding_timestamp_in_timeline] is set and its
    presentation time [pts] when it is not; a further [AddSample] takes the
    minimum with the time of its sample, so it lowers the earliest time or
    leaves it. *)
Theorem earliest_presentation_time_is_minimum cs first_sample_dts f0 f :
  forallb accumulating cs = true ->
  calls use_dts cs (InitializeFragment first_sample_dts f0) = Some f ->
  Forall (fun sample => int64 (pts sample) /\ int64 (dts sample))
    (samples_added cs) ->
  let time := fun sample => if use_dts then dts sample else pts sample in
  let times := map time (samples_added cs) in
  (times = [] -> earliest_presentation_time_ f = kInvalidTime) /\
  (times <> [] -> In (earliest_presentation_time_ f) times) /\
  (forall t, In t times -> earliest_presentation_time_ f <= t) /\
  (forall sample f',
     AddSample use_dts sample f = Some f' ->
     earliest_presentation_time_ f' =
       Z.min (earliest_presentation_time_ f) (time sample) /\
     earliest_presentation_time_ f' <= earliest_presentation_time_ f).
Proof.
  intros Hacc Hcalls Hall time times.
  destruct (calls_after_InitializeFragment use_dts cs _ _ _ Hacc Hcalls)
    as [Hopen _].
  pose proof Hopen as (_ & _ & _ & _ & Hearliest & _).
  assert (Hall' : Forall (fun sample => int64 (selected_timestamp use_dts sample))
                    (samples_added cs)).
  { eapply List.Forall_impl; [|exact Hall]. intros sample [Hp Hd].
    unfold selected_timestamp. destruct use_dts; assumption. }
  destruct (earliest_of_minimum _ Hall') as (Hnil & Hin & Hle).
  rewrite Hearliest.
  split; [exact Hnil|]. split; [exact Hin|]. split; [exact Hle|].
  intros sample f' Hadd.
  pose proof (AddSample_open use_dts _ _ f sample Hopen) as Hstep.
  destruct (duration sample >? 0); [|congruence].
  destruct Hstep as (f1 & Hf1 & (_ & _ & _ & _ & He1 & _) & _).
  assert (f1 = f') by congruence. subst f1.
  rewrite He1, earliest_of_snoc. split; [reflexivity | lia].
Qed.

(** ** The single run *)

Lemma land_lor_keep a m k :
  Z.land a k = k -> Z.land m k = 0 -> Z.land (Z.lor a m) k = k.
Proof.
  intros Ha Hm. rewrite Z.land_lor_distr_l, Ha, Hm. apply Z.lor_0_r.
Qed.

Lemma single_run_InitializeFragment first_sample_dts f0 :
  single_run (InitializeFragment first_sample_dts f0).
Proof. eexists. split; reflexivity. Qed.

Lemma single_run_call c f f' :
  single_run f -> call use_dts c f = Some f' -> single_run f'.
Proof.
  intros (run & Hruns & Hbit) Hcall. destruct c as [d0|sample|d|]; simpl in Hcall.
  - inversion Hcall; subst. apply single_run_InitializeFragment.
  - unfold AddSample in Hcall.
    destruct (duration sample >? 0); [|discriminate].
    destruct (fragment_initialized_ f).
    + unfold update_run0 in Hcall. rewrite Hruns in Hcall. simpl in Hcall.
      destruct (data_ f); [|discriminate]. inversion Hcall; subst; clear Hcall.
      eexists. split; [reflexivity|]. simpl.
      destruct (pts sample =? dts sample); [exact Hbit|].
      apply land_lor_keep; [exact Hbit | reflexivity].
    + simpl in Hcall. inversion Hcall; subst; clear Hcall.
      eexists. split; [reflexivity|]. simpl.
      destruct (pts sample =? dts sample); reflexivity.
  - inversion Hcall; subst. exists run. split; [exact Hruns | exact Hbit].
  - destruct (FinalizeFragment_steps f f' run Hruns Hcall)
      as (od & ed & dd & os & es & ds & ofl & ef & df & _ & _ & _ & Hruns' & _).
    eexists. split; [exact Hruns'|]. simpl. unfold run_flags_after.
    destruct od, os, ofl; repeat apply land_lor_keep;
      first [exact Hbit | reflexivity].
Qed.

(** C9: from [InitializeFragment] on, whatever calls follow, the track
    fragment holds exactly one run whose flags have the data-offset bit; an
    [AddSample] on the open fragment leaves that one run with the entries of
    the sample at the end of its arrays. *)
Theorem track_fragment_has_one_run cs first_sample_dts f0 f :
  calls use_dts cs (InitializeFragment first_sample_dts f0) = Some f ->
  single_run f /\
  (forall sample f',
     fragment_initialized_ f = true ->
     AddSample use_dts sample f = Some f' ->
     exists run,
       runs (traf_ f) = [run] /\ runs (traf_ f') = [add_to_run sample run]).
Proof.
  intros Hcalls.
  assert (Hone : single_run f).
  { pose proof (single_run_InitializeFragment first_sample_dts f0) as H0.
    revert Hcalls H0. generalize (InitializeFragment first_sample_dts f0).
    induction cs as [|c cs' IH]; intros g Hcalls Hg; simpl in Hcalls.
    - inversion Hcalls; subst. exact Hg.
    - destruct (call use_dts c g) as [g'|] eqn:Hc; [|discriminate].
      apply (IH g' Hcalls). eapply single_run_call; eassumption. }
  split; [exact Hone|].
  intros sample f' Hinit Hadd. destruct Hone as (run & Hruns & _).
  exists run. split; [exact Hruns|].
  unfold AddSample in Hadd. destruct (duration sample >? 0); [|discriminate].
  rewrite Hinit in Hadd. unfold update_run0 in Hadd. rewrite Hruns in Hadd.
  simpl in Hadd. destruct (data_ f); [|discriminate].
  inversion Hadd; subst. reflexivity.
Qed.

(** ** The mappings of samples to groups *)

Lemma is_track_roll_fragment count d :
  is_track_roll (fragment_sample_to_group count d) = false.
Proof. unfold is_track_roll. simpl. apply andb_false_r. Qed.

Lemma is_fragment_level_fragment count d :
  is_fragment_level (fragment_sample_to_group count d) = true.
Proof. reflexivity. Qed.

Lemma fragment_mappings_not_track_roll count ds :
  List.filter is_track_roll (map (fragment_sample_to_group count) ds) = [].
Proof.
  induction ds as [|d ds IH]; [reflexivity|].
  cbn [map List.filter]. rewrite is_track_roll_fragment. exact IH.
Qed.

Lemma fragment_mappings_fragment_level count ds :
  List.filter is_fragment_level (map (fragment_sample_to_group count) ds)
  = map (fragment_sample_to_group count) ds.
Proof.
  induction ds as [|d ds IH]; [reflexivity|].
  cbn [map List.filter]. rewrite is_fragment_level_fragment, IH. reflexivity.
Qed.

(** C6: after [FinalizeFragment] on a fragment filled since
    [InitializeFragment], the mappings of samples to groups are, in order:
    when the seek preroll is above 0, one mapping of type 'roll' (and then it
    is the only mapping of that type that refers to the track), and for each
    description attached to the fragment, in their order, one mapping of the
    grouping type of the description.  Each mapping has exactly one entry,
    whose [sample_count] is that of the run, the number of samples added;
    the entry of the 'roll' mapping has the first index of the descriptions
    of the track, the entry of a description's mapping the first index of
    the descriptions of the fragment. *)
Theorem finalize_sample_to_groups cs first_sample_dts f0 f f' :
  forallb accumulating cs = true ->
  calls use_dts cs (InitializeFragment first_sample_dts f0) = Some f ->
  FinalizeFragment f = Some f' ->
  let count := Z.of_nat (length (samples_added cs)) in
  let groups := sample_to_groups (traf_ f') in
  let roll :=
    SampleToGroup.Build FOURCC_roll
      [SampleToGroupEntry.Build count
         (SampleToGroupEntry.kTrackGroupDescriptionIndexBase + 1)] in
  let of_description := fun d =>
    SampleToGroup.Build (SampleGroupDescription.grouping_type d)
      [SampleToGroupEntry.Build count
         (SampleToGroupEntry.kTrackFragmentGroupDescriptionIndexBase + 1)] in
  (exists run',
     runs (traf_ f') = [run'] /\ TrackFragmentRun.sample_count run' = count) /\
  groups =
    (if seek_preroll_ f0 >? 0 then [roll] else [])
    ++ map of_description (descriptions_attached cs) /\
  length groups =
    ((if seek_preroll_ f0 >? 0 then 1 else 0)
     + length (descriptions_attached cs))%nat /\
  (seek_preroll_ f0 > 0 -> List.filter is_track_roll groups = [roll]) /\
  List.filter is_fragment_level groups
    = map of_description (descriptions_attached cs) /\
  Forall
    (fun g =>
       exists e,
         SampleToGroup.entries g = [e] /\
         SampleToGroupEntry.sample_count e = count)
    groups.
Proof.
  intros Hacc Hcalls Hfin count groups roll of_description.
  destruct (calls_after_InitializeFragment use_dts cs _ _ _ Hacc Hcalls)
    as [(Hinit & Hruns & Hdesc & Hgroups & _) Hpre].
  destruct (FinalizeFragment_steps f f' _ Hruns Hfin)
    as (od & ed & dd & os & es & ds & ofl & ef & df &
        _ & _ & _ & Hruns' & _ & Hgroups' & _).
  destruct (run_of_arrays (samples_added cs)) as (_ & Hsz & _).
  rewrite Hsz, length_map in Hruns', Hgroups'. fold count in Hruns', Hgroups'.
  rewrite Hgroups, Hdesc, Hpre in Hgroups'. simpl in Hgroups'.
  change (roll_sample_to_group count) with roll in Hgroups'.
  change (fragment_sample_to_group count) with of_description in Hgroups'.
  subst groups. rewrite Hgroups'.
  split; [eexists; split; [exact Hruns' | reflexivity]|].
  split; [reflexivity|].
  split; [|split; [|split]].
  - rewrite length_app, length_map.
    destruct (seek_preroll_ f0 >? 0); reflexivity.
  - intros Hpos. replace (seek_preroll_ f0 >? 0) with true
      by (symmetry; apply Z.gtb_lt; lia).
    simpl.
    change of_description with (fragment_sample_to_group count).
    rewrite fragment_mappings_not_track_roll. reflexivity.
  - change of_description with (fragment_sample_to_group count).
    destruct (seek_preroll_ f0 >? 0); simpl;
      apply fragment_mappings_fragment_level.
  - apply Forall_app. split.
    + destruct (seek_preroll_ f0 >? 0); repeat constructor.
      eexists. split; reflexivity.
    + apply List.Forall_forall. intros g Hg. apply in_map_iff in Hg.
      destruct Hg as (d & <- & _).
      eexists. split; reflexivity.
Qed.

(** ** The segment reference *)

Lemma first_sap_from acc samples :
  fold_left
    (fun first_sap sample =>
       if is_key_frame sample && (first_sap =? kInvalidTime)
       then pts sample else first_sap)
    samples acc =
  if acc =? kInvalidTime
  then match List.find is_sap samples with
       | Some key => pts key
       | None => kInvalidTime
       end
  else acc.
Proof.
  revert acc. induction samples as [|sample samples IH]; intros acc.
  - simpl. destruct (Z.eqb_spec acc kInvalidTime); congruence.
  - cbn [fold_left List.find]. rewrite IH.
    assert (Hsap : is_sap sample
                   = is_key_frame sample && negb (pts sample =? kInvalidTime))
      by reflexivity.
    destruct (Z.eqb_spec acc kInvalidTime) as [->|Hacc].
    + rewrite andb_true_r. destruct (is_key_frame sample); simpl in Hsap.
      * destruct (Z.eqb_spec (pts sample) kInvalidTime) as [Hp|Hp];
          simpl in Hsap; rewrite Hsap; reflexivity.
      * rewrite Hsap. reflexivity.
    + rewrite andb_false_r.
      destruct (Z.eqb_spec acc kInvalidTime); [contradiction | reflexivity].
Qed.

Lemma first_sap_of_find samples :
  first_sap_of samples =
  match List.find is_sap samples with
  | Some key => pts key
  | None => kInvalidTime
  end.
Proof. unfold first_sap_of. rewrite first_sap_from. reflexivity. Qed.

Lemma sample_flag_key sample :
  (Z.land (sample_flag sample) TrackFragmentHeader.kNonKeySampleMask =? 0)
  = is_key_frame sample.
Proof. unfold sample_flag. destruct (is_key_frame sample); reflexivity. Qed.

(** A difference of two [int64_t] that is itself in range is kept. *)
Lemma wrap_int64_small z : int64 z -> wrap_int64 z = z.
Proof.
  unfold int64, wrap_int64. intros H.
  rewrite Z.mod_small by lia. lia.
Qed.

Lemma is_int64_spec z : is_int64 z = true -> int64 z.
Proof.
  unfold is_int64, int64. intros H. apply andb_true_iff in H.
  destruct H as [H1 H2]. apply Z.leb_le in H1, H2. lia.
Qed.

Lemma is_time_spec t : is_time t = true -> int64 t /\ t <> kInvalidTime.
Proof.
  unfold is_time, int64, kInvalidTime. intros H. apply andb_true_iff in H.
  destruct H as [H1 H2]. apply Z.leb_le in H1. apply Z.ltb_lt in H2. lia.
Qed.

Lemma times_in_range_spec samples :
  times_in_range samples = true ->
  (forall sample, In sample samples ->
     (int64 (pts sample) /\ pts sample <> kInvalidTime) /\
     (int64 (dts sample) /\ dts sample <> kInvalidTime)) /\
  (forall a b, In a samples -> In b samples ->
     int64 (pts a - pts b) /\ int64 (pts a - dts b)).
Proof.
  unfold times_in_range. intros H. apply andb_true_iff in H.
  destruct H as [Ht Hd]. rewrite forallb_forall in Ht, Hd. split.
  - intros sample Hin. specialize (Ht sample Hin).
    apply andb_true_iff in Ht. destruct Ht as [Hp Hq].
    split; apply is_time_spec; assumption.
  - intros a b Ha Hb. specialize (Hd a Ha). rewrite forallb_forall in Hd.
    specialize (Hd b Hb). apply andb_true_iff in Hd. destruct Hd as [Hp Hq].
    split; apply is_int64_spec; assumption.
Qed.

(** With presentation times below [kInvalidTime], the first key frame is
    the one whose time [first_sap_time_] keeps. *)
Lemma find_is_sap_key_frame samples :
  (forall sample, In sample samples -> pts sample <> kInvalidTime) ->
  List.find is_sap samples = List.find is_key_frame samples.
Proof.
  induction samples as [|sample samples IH]; intros Hall; [reflexivity|].
  cbn [List.find]. unfold is_sap at 1.
  assert (Hp : (pts sample =? kInvalidTime) = false)
    by (apply Z.eqb_neq, Hall; left; reflexivity).
  rewrite Hp, andb_true_r.
  destruct (is_key_frame sample); [reflexivity|].
  apply IH. intros s Hs. apply Hall. right. exact Hs.
Qed.

(** The difference of line 183, for the samples of a fragment in range. *)
Lemma sap_delta_in_range samples key :
  times_in_range samples = true ->
  In key samples ->
  int64 (pts key - earliest_of use_dts samples).
Proof.
  intros Hrange Hkey.
  destruct (times_in_range_spec samples Hrange) as [Htimes Hdiff].
  assert (Hall : Forall (fun sample => int64 (selected_timestamp use_dts sample))
                   samples).
  { apply List.Forall_forall. intros sample Hin.
    destruct (Htimes sample Hin) as [[Hp _] [Hd _]].
    unfold selected_timestamp. destruct use_dts; assumption. }
  destruct (earliest_of_minimum _ Hall) as (_ & Hin & _).
  assert (Hne : map (selected_timestamp use_dts) samples <> []).
  { destruct samples; [contradiction | discriminate]. }
  specialize (Hin Hne). apply in_map_iff in Hin.
  destruct Hin as (b & <- & Hb).
  destruct (Hdiff key b Hkey Hb) as [Hpp Hpd].
  unfold selected_timestamp. destruct use_dts; assumption.
Qed.

(** C2: for a fragment filled since [InitializeFragment] and finalized,
    whose samples have times in range (each an [int64_t] below
    [kInvalidTime], and with differences that an [int64_t] holds),
    [GenerateSegmentReference] sets [starts_with_sap] to whether the first
    sample added was a key frame; when a key frame was added, [sap_type] is
    [Type1] and [sap_delta_time] is the presentation time of the first key
    frame less [earliest_presentation_time_]; when none was, [sap_type] is
    [TypeUnknown] and [sap_delta_time] is 0. *)
Theorem segment_reference_sap cs first_sample_dts f0 f f' reference :
  forallb accumulating cs = true ->
  calls use_dts cs (InitializeFragment first_sample_dts f0) = Some f ->
  FinalizeFragment f = Some f' ->
  times_in_range (samples_added cs) = true ->
  exists ref first rest,
    GenerateSegmentReference reference f' = Some ref /\
    samples_added cs = first :: rest /\
    SegmentReference.starts_with_sap ref = is_key_frame first /\
    match List.find is_key_frame (samples_added cs) with
    | Some key =>
        SegmentReference.sap_type ref = SegmentReference.Type1 /\
        SegmentReference.sap_delta_time ref
          = pts key - earliest_presentation_time_ f'
    | None =>
        SegmentReference.sap_type ref = SegmentReference.TypeUnknown /\
        SegmentReference.sap_delta_time ref = 0
    end.
Proof.
  intros Hacc Hcalls Hfin Hrange.
  destruct (calls_after_InitializeFragment use_dts cs _ _ _ Hacc Hcalls)
    as [(Hinit & Hruns & _ & _ & Hearliest & Hsap & _) _].
  destruct (FinalizeFragment_steps f f' _ Hruns Hfin)
    as (od & ed & dd & os & es & ds & ofl & ef & df &
        _ & _ & Hof & Hruns' & Hhdr' & _ & _ & Hsap' & Hearliest' & _).
  destruct (run_of_arrays (samples_added cs)) as (Hfl & _).
  rewrite Hfl in Hof.
  destruct (samples_added cs) as [|first rest] eqn:Hsamples;
    [discriminate Hof|].
  assert (Hne : map sample_flag (first :: rest) <> []) by discriminate.
  destruct (OptimizeSampleEntries_spec (map sample_flag (first :: rest))
              (TrackFragmentHeader.default_sample_flags (header (traf_ f))) Hne)
    as (of' & ef' & df' & Hof' & _ & Ht & Hf).
  rewrite Hof in Hof'. inversion Hof'; subst of' ef' df'; clear Hof'.
  destruct (run_flags_after_present _ od os ofl (run_of_flags (first :: rest)))
    as (_ & _ & Hpf).
  unfold has_mask in Hpf.
  assert (Hstart : StartsWithSAP f' = Some (is_key_frame first)).
  { unfold StartsWithSAP. rewrite Hruns', Hhdr'. simpl. rewrite Hpf.
    destruct ofl; simpl.
    - destruct (Ht eq_refl) as [_ Hdf].
      rewrite (Hdf (sample_flag first)) by (left; reflexivity).
      rewrite sample_flag_key. reflexivity.
    - destruct (Hf eq_refl) as [-> _]. simpl.
      rewrite sample_flag_key. reflexivity. }
  unfold GenerateSegmentReference. rewrite Hstart.
  eexists _, first, rest. split; [reflexivity|]. split; [reflexivity|].
  split; [reflexivity|].
  cbn [SegmentReference.sap_type SegmentReference.sap_delta_time].
  rewrite Hsap', Hsap, first_sap_of_find, Hearliest', Hearliest.
  destruct (times_in_range_spec _ Hrange) as [Htimes _].
  rewrite find_is_sap_key_frame by (intros sample Hin; apply (Htimes sample Hin)).
  destruct (List.find is_key_frame (first :: rest)) as [key|] eqn:Hfind.
  - apply find_some in Hfind. destruct Hfind as [Hkey _].
    destruct (Htimes key Hkey) as [[_ Hp] _].
    destruct (Z.eqb_spec kInvalidTime (pts key)); [congruence|].
    split; [reflexivity|].
    apply wrap_int64_small, sap_delta_in_range; assumption.
  - split; reflexivity.
Qed.

End FragmenterClaims.

(** * More about the codec string *)

Lemma byte_of_hex_digits (a b : byte) :
  to_lower_char (hex_char (Z.shiftr (u8 a) 4))
    = to_lower_char (hex_char (Z.shiftr (u8 b) 4)) ->
  to_lower_char (hex_char (Z.land (u8 a) 15))
    = to_lower_char (hex_char (Z.land (u8 b) 15)) ->
  a = b.
Proof.
  intros Hhi Hlo.
  destruct (hex_digits_of_byte a) as [Ha1 Ha2].
  destruct (hex_digits_of_byte b) as [Hb1 Hb2].
  rewrite Hhi in Ha1. rewrite Hlo in Ha2.
  rewrite Hb1 in Ha1. rewrite Hb2 in Ha2.
  injection Ha1 as Hq. injection Ha2 as Hr.
  apply u8_inj.
  rewrite (Z.div_mod (u8 a) 16), (Z.div_mod (u8 b) 16) by lia.
  rewrite Hq, Hr. reflexivity.
Qed.

(** The codec string tells the three bytes: two codec strings of one FourCC
    are the same only for the same profile indication, profile
    compatibility and level. *)
Theorem codec_string_injective codec_fourcc p c l p' c' l' :
  GetCodecString codec_fourcc p c l = GetCodecString codec_fourcc p' c' l' ->
  p = p' /\ c = c' /\ l = l'.
Proof.
  intros H.
  cbn [GetCodecString FourCCToString String.append ToLowerASCII HexEncode] in H.
  injection H as H1 H2 H3 H4 H5 H6.
  repeat split; apply byte_of_hex_digits; assumption.
Qed.

(** * More about the parser *)

Section ParserMore.
Context {codec : H264}.

(** A unit that is read has the type asked for and is added to the record. *)
Lemma ReadNalu_Done l expected (s s' : State) nalu :
  ReadNalu l expected s = (Done nalu, s') ->
  Nalu_type nalu = expected /\ record s' = AddNalu nalu (record s).
Proof.
  unfold ReadNalu, bind, RCHECK_skip, RCHECK_read, get. intros H.
  destruct (BufferReader.Read2 (reader s)) as [[size rd]|]; [|discriminate].
  simpl in H.
  destruct (BufferReader.SkipBytes (Z.to_nat size) rd); [|discriminate].
  simpl in H.
  destruct (Nalu_Initialize _) as [n|]; [|discriminate]. simpl in H.
  destruct (Nalu_type n =? expected) eqn:Hty; [|discriminate]. simpl in H.
  inversion H; subst. apply Z.eqb_eq in Hty. split; [exact Hty | reflexivity].
Qed.

Lemma PpsLoop_Done l count : forall s s' : State,
  PpsLoop l count s = (Done tt, s') ->
  exists added,
    length added = count /\
    Forall (fun nalu => Nalu_type nalu = H264_PPS) added /\
    record s' = add_nalus added (record s).
Proof.
  induction count as [|count IH]; intros s s' H; simpl in H.
  - inversion H; subst. exists []. rewrite add_nalus_nil. auto.
  - unfold bind in H.
    destruct (ReadNalu l H264_PPS s) as [[nalu|e] s1] eqn:Hread; [|discriminate].
    destruct (ReadNalu_Done _ _ _ _ _ Hread) as [Hty Hrec].
    destruct (IH s1 s' H) as (added & Hlen & Hall & Hrec').
    exists (nalu :: added). split; [simpl; lia|].
    split; [constructor; assumption|].
    rewrite Hrec', Hrec. apply add_nalus_cons.
Qed.

Lemma add_nalus_app a b (r : AVCDecoderConfigurationRecord) :
  add_nalus b (add_nalus a r) = add_nalus (a ++ b) r.
Proof. unfold add_nalus. simpl. rewrite <- app_assoc. reflexivity. Qed.

Lemma ParseProfileSpecialCase_Done (s s' : State) :
  ParseProfileSpecialCase s = (Done tt, s') ->
  exists added,
    Forall (fun nalu => Nalu_type nalu = H264_PPS) added /\
    record s' = add_nalus added (record s).
Proof.
  unfold ParseProfileSpecialCase, bind, get, RCHECK_skip, RCHECK_read. intros H.
  simpl in H.
  destruct (is_special_profile _);
    [|inversion H; subst; exists []; rewrite add_nalus_nil; auto].
  destruct (negb _);
    [inversion H; subst; exists []; rewrite add_nalus_nil; auto|].
  destruct (BufferReader.SkipBytes 3 (reader s)) as [rd|]; [|discriminate].
  simpl in H.
  destruct (BufferReader.Read1 rd) as [[count rd']|]; [|discriminate].
  simpl in H. apply PpsLoop_Done in H.
  destruct H as (added & _ & Hall & Hrec). exists added. auto.
Qed.

(** The decoding of the first SPS sets the transfer characteristics and the
    resolution, and nothing else. *)
Lemma FirstSps_Done nalu (s s' : State) :
  FirstSps nalu s = (Done tt, s') ->
  exists sps wh,
    ParseSps nalu = Some sps /\
    ExtractResolutionFromSps sps = Some wh /\
    record s' =
      set_resolution wh
        (set_transfer_characteristics (sps_transfer_characteristics sps)
           (record s)).
Proof.
  unfold FirstSps, bind. intros H.
  destruct (ParseSps nalu) as [sps|] eqn:Hsps; [|discriminate]. simpl in H.
  destruct (ExtractResolutionFromSps sps) as [wh|] eqn:Hwh; [|discriminate].
  unfold assign in H. simpl in H. inversion H; subst. exists sps, wh.
  repeat split; assumption.
Qed.

(** The SPS loop: it adds [count] units of type SPS and leaves the header;
    the resolution and the transfer characteristics are those decoded from
    the unit of index 0, and are left alone when the loop does not pass
    through index 0. *)
Lemma SpsLoop_Done count : forall i (s s' : State),
  SpsLoop count i s = (Done tt, s') ->
  exists added,
    length added = count /\
    Forall (fun nalu => Nalu_type nalu = H264_SPS) added /\
    nalu_ (record s') = nalu_ (record s) ++ added /\
    same_header (record s) (record s') /\
    match added with
    | first :: _ =>
        if Nat.eqb i 0
        then exists sps,
               ParseSps first = Some sps /\
               ExtractResolutionFromSps sps = Some (resolution_of (record s')) /\
               transfer_characteristics_ (record s')
                 = sps_transfer_characteristics sps
        else resolution_of (record s') = resolution_of (record s) /\
             transfer_characteristics_ (record s')
               = transfer_characteristics_ (record s)
    | [] => record s' = record s
    end.
Proof.
  induction count as [|count IH]; intros i s s' H; simpl in H.
  - inversion H; subst. exists []. rewrite app_nil_r.
    repeat split; constructor.
  - unfold bind in H.
    destruct (ReadNalu InSps H264_SPS s) as [[nalu|e] s1] eqn:Hread;
      [|discriminate].
    destruct (ReadNalu_Done _ _ _ _ _ Hread) as [Hty Hrec1].
    destruct ((if Nat.eqb i 0 then FirstSps nalu else ret tt) s1)
      as [[[]|e] s2] eqn:Hfirst; [|discriminate].
    destruct (IH (S i) s2 s' H) as (added & Hlen & Hall & Hnalus & Hhdr & Hres).
    assert (Hrest : resolution_of (record s') = resolution_of (record s2) /\
                    transfer_characteristics_ (record s')
                      = transfer_characteristics_ (record s2)).
    { destruct added; [rewrite Hres; auto | exact Hres]. }
    destruct Hrest as [Hres' Htc'].
    exists (nalu :: added). split; [simpl; lia|].
    split; [constructor; assumption|].
    destruct (Nat.eqb i 0).
    + destruct (FirstSps_Done _ _ _ Hfirst) as (sps & wh & Hsps & Hwh & Hrec2).
      rewrite Hrec2, Hrec1 in Hnalus, Hhdr, Hres', Htc'.
      destruct wh as [[[cw ch] pw] ph]. simpl in *.
      split; [rewrite Hnalus, <- app_assoc; reflexivity|].
      split; [exact Hhdr|].
      exists sps. rewrite Hres', Htc'. auto.
    + inversion Hfirst; subst s2. rewrite Hrec1 in Hnalus, Hhdr, Hres', Htc'.
      simpl in *.
      split; [rewrite Hnalus, <- app_assoc; reflexivity|].
      split; [exact Hhdr|]. auto.
Qed.

(** A parse that succeeds, step by step: the input starts with a header of
    version 1, a length-size byte that is not reserved and the SPS count,
    and the three last steps went through from the state the first two
    leave. *)
Lemma ParseInternal_success_steps data (r r' : AVCDecoderConfigurationRecord) :
  ParseInternal data r = (true, r') ->
  exists p c l b n rest (s3 s4 s5 : State),
    data = x01 :: p :: c :: l :: b :: n :: rest /\
    Z.land (u8 b) 3 <> 2 /\
    SpsLoop (Z.to_nat (Z.land (u8 n) 31)) 0
      (Build_State
         (set_nalu_length_size (Z.land (u8 b) 3 + 1)
            (set_avc_level_ (u8 l)
               (set_profile_compatibility_ (u8 c)
                  (set_profile_indication_ (u8 p) (set_version_ 1 r)))))
         (BufferReader.Build data 6)) = (Done tt, s3) /\
    ParsePpsList s3 = (Done tt, s4) /\
    ParseProfileSpecialCase s4 = (Done tt, s5) /\
    r' = record s5.
Proof.
  intros H. unfold ParseInternal in H.
  destruct (ParseInternal_run data r) as [[[]|e] s5] eqn:Hrun;
    [|discriminate H].
  inversion H; subst r'; clear H.
  assert (Hhead : exists p c l tail, data = x01 :: p :: c :: l :: tail).
  { rewrite ParseInternal_run_steps in Hrun. unfold bind in Hrun.
    destruct data as [|b0 [|p [|c [|l tail]]]].
    - discriminate Hrun.
    - unfold ParseHeader, bind in Hrun. simpl in Hrun.
      destruct (u8 b0 =? 1); discriminate Hrun.
    - unfold ParseHeader, bind in Hrun. simpl in Hrun.
      destruct (u8 b0 =? 1); discriminate Hrun.
    - unfold ParseHeader, bind in Hrun. simpl in Hrun.
      destruct (u8 b0 =? 1); discriminate Hrun.
    - destruct (ParseHeader_first_byte b0 (p :: c :: l :: tail) r) as [_ Hbad].
      cbv zeta in Hbad.
      destruct (Z.eq_dec (u8 b0) 1) as [H1|H1].
      + apply (u8_inj b0 x01) in H1. subst b0. eauto.
      + rewrite (Hbad H1) in Hrun. discriminate Hrun. }
  destruct Hhead as (p & c & l & tail & ->).
  rewrite ParseInternal_run_after_header in Hrun. unfold bind in Hrun.
  destruct tail as [|b tail]; [discriminate Hrun|].
  rewrite ParseLengthSize_run in Hrun.
  destruct (Z.land (u8 b) 3 =? 2) eqn:Hb; [discriminate Hrun|].
  apply Z.eqb_neq in Hb.
  destruct tail as [|n rest]; [discriminate Hrun|].
  unfold ParseUnitLists, bind in Hrun.
  unfold ParseSpsList at 1 in Hrun. unfold bind, RCHECK_read in Hrun.
  simpl in Hrun.
  destruct (SpsLoop _ 0 _) as [[[]|e] s3] eqn:Hsps; [|discriminate Hrun].
  destruct (ParsePpsList s3) as [[[]|e] s4] eqn:Hpps; [|discriminate Hrun].
  exists p, c, l, b, n, rest, s3, s4, s5.
  repeat split; assumption.
Qed.

Lemma ParsePpsList_Done (s s' : State) :
  ParsePpsList s = (Done tt, s') ->
  exists added,
    Forall (fun nalu => Nalu_type nalu = H264_PPS) added /\
    record s' = add_nalus added (record s).
Proof.
  unfold ParsePpsList, bind, RCHECK_read. intros H.
  destruct (BufferReader.Read1 (reader s)) as [[count rd]|]; [|discriminate].
  apply PpsLoop_Done in H. destruct H as (added & _ & Hall & Hrec).
  exists added. auto.
Qed.

(** The record a successful parse leaves, told from the input. *)
Lemma ParseInternal_success_record data (r r' : AVCDecoderConfigurationRecord) :
  ParseInternal data r = (true, r') ->
  exists p c l b n rest sps pps,
    data = x01 :: p :: c :: l :: b :: n :: rest /\
    Z.land (u8 b) 3 <> 2 /\
    version_ r' = 1 /\
    profile_indication_ r' = u8 p /\
    profile_compatibility_ r' = u8 c /\
    avc_level_ r' = u8 l /\
    nalu_length_size_ r' = Z.land (u8 b) 3 + 1 /\
    length sps = Z.to_nat (Z.land (u8 n) 31) /\
    Forall (fun nalu => Nalu_type nalu = H264_SPS) sps /\
    Forall (fun nalu => Nalu_type nalu = H264_PPS) pps /\
    nalu_ r' = nalu_ r ++ sps ++ pps /\
    match sps with
    | first :: _ =>
        exists decoded,
          ParseSps first = Some decoded /\
          ExtractResolutionFromSps decoded = Some (resolution_of r') /\
          transfer_characteristics_ r' = sps_transfer_characteristics decoded
    | [] =>
        resolution_of r' = resolution_of r /\
        transfer_characteristics_ r' = transfer_characteristics_ r
    end.
Proof.
  intros H. apply ParseInternal_success_steps in H.
  destruct H as (p & c & l & b & n & rest & s3 & s4 & s5 &
                 -> & Hb & Hsps & Hpps & Hext & ->).
  apply SpsLoop_Done in Hsps.
  destruct Hsps as (sps & Hlen & Hallsps & Hnalus & Hhdr & Hres).
  apply ParsePpsList_Done in Hpps. destruct Hpps as (pps1 & Hall1 & Hrec4).
  apply ParseProfileSpecialCase_Done in Hext.
  destruct Hext as (pps2 & Hall2 & Hrec5).
  rewrite Hrec4, add_nalus_app in Hrec5.
  exists p, c, l, b, n, rest, sps, (pps1 ++ pps2).
  destruct Hhdr as (Hv & Hp & Hc & Hl & Hls). simpl in Hv, Hp, Hc, Hl, Hls, Hnalus.
  rewrite Hrec5. unfold resolution_of. simpl.
  repeat (split; [first [reflexivity | assumption]|]).
  split; [apply Forall_app; auto|].
  split; [rewrite Hnalus, <- app_assoc; reflexivity|].
  destruct sps as [|first more].
  - rewrite Hres. simpl. auto.
  - simpl in Hres. exact Hres.
Qed.

(** A missing first byte, or one that is not 1, fails the parse at the
    header, whatever follows. *)
Theorem bad_version_rejected data (r : AVCDecoderConfigurationRecord) :
  head data <> Some x01 ->
  ParseInternal_failure data r = Some FailHeader /\
  fst (ParseInternal data r) = false.
Proof.
  intros Hhead. rewrite ParseInternal_fst. unfold ParseInternal_failure.
  rewrite ParseInternal_run_steps. unfold bind.
  destruct data as [|b rest].
  - rewrite ParseHeader_empty. auto.
  - destruct (ParseHeader_first_byte b rest r) as [_ Hbad]. cbv zeta in Hbad.
    rewrite Hbad; [auto|].
    intros H1. apply Hhead. simpl. f_equal. apply u8_inj. exact H1.
Qed.

(** A parse that succeeds has read a header of version 1 and leaves the
    profile indication, the profile compatibility and the level of bytes 1
    to 3 of the input in the record, and a length size made of the low two
    bits of byte 4. *)
Theorem successful_parse_header data (r r' : AVCDecoderConfigurationRecord) :
  ParseInternal data r = (true, r') ->
  exists p c l b tail,
    data = x01 :: p :: c :: l :: b :: tail /\
    version_ r' = 1 /\
    profile_indication_ r' = u8 p /\
    profile_compatibility_ r' = u8 c /\
    avc_level_ r' = u8 l /\
    nalu_length_size_ r' = Z.land (u8 b) 3 + 1 /\
    Z.land (u8 b) 3 <> 2.
Proof.
  intros H. apply ParseInternal_success_record in H.
  destruct H as (p & c & l & b & n & rest & sps & pps &
                 -> & Hb & Hv & Hp & Hc & Hl & Hls & _).
  exists p, c, l, b, (n :: rest). auto 10.
Qed.

(** A parse that succeeds has added to the unit list, in this order, as many
    units of type SPS as the low five bits of byte 5 of the input say (31 at
    most, whatever the three upper bits), then units of type PPS only. *)
Theorem successful_parse_units data (r r' : AVCDecoderConfigurationRecord) :
  ParseInternal data r = (true, r') ->
  exists n sps pps,
    data !! 5%nat = Some n /\
    nalu_ r' = nalu_ r ++ sps ++ pps /\
    length sps = Z.to_nat (Z.land (u8 n) 31) /\
    (length sps <= 31)%nat /\
    Forall (fun nalu => Nalu_type nalu = H264_SPS) sps /\
    Forall (fun nalu => Nalu_type nalu = H264_PPS) pps.
Proof.
  intros H. apply ParseInternal_success_record in H.
  destruct H as (p & c & l & b & n & rest & sps & pps &
                 -> & _ & _ & _ & _ & _ & _ & Hlen & Hsps & Hpps & Hnalus & _).
  exists n, sps, pps. repeat (split; [first [reflexivity | assumption]|]).
  split; [|auto].
  rewrite Hlen.
  assert (Hm : Z.land (u8 n) 31 = u8 n mod 32) by (apply (Z.land_ones _ 5); lia).
  rewrite Hm. pose proof (Z.mod_pos_bound (u8 n) 32 ltac:(lia)). lia.
Qed.

(** A record without SPS nor PPS, of a profile without the block of lines
    85-113, parses. *)
Lemma ParseInternal_no_units p c l b n (r : AVCDecoderConfigurationRecord) :
  ~ In (u8 p) [100; 110; 122; 144] ->
  Z.land (u8 b) 3 <> 2 ->
  Z.land (u8 n) 31 = 0 ->
  ParseInternal [x01; p; c; l; b; n; x00] r =
  (true,
   set_nalu_length_size (Z.land (u8 b) 3 + 1)
     (set_avc_level_ (u8 l)
        (set_profile_compatibility_ (u8 c)
           (set_profile_indication_ (u8 p) (set_version_ 1 r))))).
Proof.
  intros Hp Hb Hn. unfold ParseInternal.
  rewrite ParseInternal_run_after_header. unfold bind at 1.
  rewrite (ParseLengthSize_run x01 p c l b [n; x00]).
  apply Z.eqb_neq in Hb. rewrite Hb.
  assert (Hs : is_special_profile (u8 p) = false).
  { destruct (is_special_profile (u8 p)) eqn:H; [|reflexivity].
    apply is_special_profile_In in H. contradiction. }
  unfold ParseUnitLists, ParseSpsList, ParsePpsList, ParseProfileSpecialCase,
    bind, RCHECK_read, get.
  set (data := [x01; p; c; l; b; n; x00]).
  assert (H5 : BufferReader.Read1 (BufferReader.Build data 5)
               = Some (n, BufferReader.Build data 6)) by reflexivity.
  assert (H6 : BufferReader.Read1 (BufferReader.Build data 6)
               = Some (x00, BufferReader.Build data 7)) by reflexivity.
  cbn [reader record]. rewrite H5, Hn.
  change (Z.to_nat 0) with 0%nat. cbn [SpsLoop ret reader record].
  rewrite H6.
  change (Z.to_nat (u8 x00)) with 0%nat. cbn [PpsLoop ret reader record].
  change (profile_indication_ _) with (u8 p).
  rewrite Hs. reflexivity.
Qed.

(** The resolution and the transfer characteristics after a parse that
    succeeds are those decoded from the first SPS, and from no other unit;
    with an SPS count of 0 they are left as they were before the parse.  And
    a parse with an SPS count of 0 can succeed: it does on a header of
    version 1 and of a profile outside 100, 110, 122 and 144, an accepted
    length-size byte, an SPS count byte whose low five bits are 0 and a PPS
    count of 0, and it adds no unit. *)
Theorem resolution_from_first_sps data (r r' : AVCDecoderConfigurationRecord) :
  (ParseInternal data r = (true, r') ->
   exists n added,
     data !! 5%nat = Some n /\
     nalu_ r' = nalu_ r ++ added /\
     if Z.land (u8 n) 31 =? 0
     then resolution_of r' = resolution_of r /\
          transfer_characteristics_ r' = transfer_characteristics_ r
     else exists first more decoded,
            added = first :: more /\
            Nalu_type first = H264_SPS /\
            ParseSps first = Some decoded /\
            ExtractResolutionFromSps decoded = Some (resolution_of r') /\
            transfer_characteristics_ r' = sps_transfer_characteristics decoded) /\
  (forall p c l b n,
     ~ In (u8 p) [100; 110; 122; 144] ->
     Z.land (u8 b) 3 <> 2 ->
     Z.land (u8 n) 31 = 0 ->
     exists r0,
       ParseInternal [x01; p; c; l; b; n; x00] r = (true, r0) /\
       nalu_ r0 = nalu_ r /\
       resolution_of r0 = resolution_of r /\
       transfer_characteristics_ r0 = transfer_characteristics_ r).
Proof.
  split.
  - intros H. apply ParseInternal_success_record in H.
    destruct H as (p & c & l & b & n & rest & sps & pps &
                   -> & _ & _ & _ & _ & _ & _ & Hlen & Hsps & _ & Hnalus & Hres).
    exists n, (sps ++ pps). split; [reflexivity|]. split; [exact Hnalus|].
    assert (Hm : 0 <= Z.land (u8 n) 31).
    { apply Z.land_nonneg. right. lia. }
    destruct (Z.eqb_spec (Z.land (u8 n) 31) 0) as [H0|H0].
    + rewrite H0 in Hlen. destruct sps; [exact Hres | discriminate Hlen].
    + destruct sps as [|first more]; [simpl in Hlen; lia|].
      destruct Hres as (decoded & Hd & Hwh & Htc).
      exists first, (more ++ pps), decoded.
      apply Forall_inv in Hsps. auto 10.
  - intros p c l b n Hp Hb Hn. eexists.
    split; [apply ParseInternal_no_units; assumption|].
    split; [reflexivity|]. split; reflexivity.
Qed.

(** A parse that succeeds has read seven bytes at least: the header, the
    length-size byte and the two counts. *)
Theorem successful_parse_length data (r r' : AVCDecoderConfigurationRecord) :
  ParseInternal data r = (true, r') -> (7 <= length data)%nat.
Proof.
  intros H. unfold ParseInternal in H.
  destruct (ParseInternal_run data r) as [[[]|e] s] eqn:Hrun; [|discriminate H].
  unfold ParseInternal_run in Hrun.
  assert (Hn : needs (7 + 0)
                 (bind ParseParameterSets (fun _ => ParseProfileSpecialCase))).
  { apply needs_bind; [apply needs_ParseParameterSets|].
    intros _. apply needs_ParseProfileSpecialCase. }
  apply Hn in Hrun; [|unfold in_bounds; simpl; lia].
  destruct Hrun as (Hb & Hd & Hp).
  unfold in_bounds, BufferReader.size in Hb. rewrite Hd in Hb. simpl in *. lia.
Qed.

Lemma after_header_same_profile :
  ensures
    (fun r r' : AVCDecoderConfigurationRecord =>
       profile_indication_ r' = profile_indication_ r /\
       profile_compatibility_ r' = profile_compatibility_ r /\
       avc_level_ r' = avc_level_ r)
    (fun _ => True)
    (bind ParseLengthSize (fun _ => ParseUnitLists)).
Proof.
  assert (Ht : forall r1 r2 r3 : AVCDecoderConfigurationRecord,
             profile_indication_ r2 = profile_indication_ r1 /\
             profile_compatibility_ r2 = profile_compatibility_ r1 /\
             avc_level_ r2 = avc_level_ r1 ->
             profile_indication_ r3 = profile_indication_ r2 /\
             profile_compatibility_ r3 = profile_compatibility_ r2 /\
             avc_level_ r3 = avc_level_ r2 ->
             profile_indication_ r3 = profile_indication_ r1 /\
             profile_compatibility_ r3 = profile_compatibility_ r1 /\
             avc_level_ r3 = avc_level_ r1)
    by (intros r1 r2 r3 (? & ? & ?) (? & ? & ?); repeat split; congruence).
  apply (ensures_bind _ _ Ht); [|intros _].
  - apply ensures_ParseLengthSize;
      first [ exact Ht | intros; exact I | intros; repeat split; reflexivity ].
  - apply ensures_ParseUnitLists;
      first [ exact Ht | intros; exact I | intros; repeat split; reflexivity
            | intros [[[cw ch] pw] ph] r0; repeat split; reflexivity ].
Qed.

(** Once a header of version 1 is read, the codec string of the record is
    that of bytes 1 to 3 of the input, whether the rest of the parse
    succeeds or not. *)
Theorem codec_string_of_parsed_record codec_fourcc p c l tail
    (r : AVCDecoderConfigurationRecord) :
  GetCodecString_record codec_fourcc
    (snd (ParseInternal (x01 :: p :: c :: l :: tail) r))
  = GetCodecString codec_fourcc p c l.
Proof.
  rewrite ParseInternal_record, ParseInternal_run_after_header.
  destruct (after_header_same_profile
              (Build_State
                 (set_avc_level_ (u8 l)
                    (set_profile_compatibility_ (u8 c)
                       (set_profile_indication_ (u8 p) (set_version_ 1 r))))
                 (BufferReader.Build (x01 :: p :: c :: l :: tail) 4)))
    as [(Hp & Hc & Hl) _].
  unfold GetCodecString_record. rewrite Hp, Hc, Hl. simpl.
  rewrite !byte_of_u8_u8. reflexivity.
Qed.

(** ** Bytes after the record *)

Lemma remaining_extend extra (s : State) :
  in_bounds s ->
  BufferReader.remaining (reader (extend_input extra s))
  = BufferReader.remaining (reader s) ++ extra.
Proof.
  unfold in_bounds, BufferReader.size, BufferReader.remaining. simpl.
  intros Hb. apply drop_app_le. exact Hb.
Qed.

Lemma in_bounds_extend extra (s : State) :
  in_bounds s -> in_bounds (extend_input extra s).
Proof.
  unfold in_bounds, BufferReader.size. simpl. rewrite length_app. lia.
Qed.

Lemma stable_ret extra {A} (a : A) : stable extra (ret a).
Proof. intros s a' s' _ H. inversion H; subst. reflexivity. Qed.

Lemma stable_bind extra {A B} n (m : Parse A) (g : A -> Parse B) :
  needs n m -> stable extra m -> (forall a, stable extra (g a)) ->
  stable extra (bind m g).
Proof.
  intros Hn Hm Hg s b s' Hb H. unfold bind in *.
  destruct (m s) as [[a|e] s1] eqn:Hms; [|discriminate H].
  destruct (Hn s a s1 Hb Hms) as (Hb1 & _).
  rewrite (Hm s a s1 Hb Hms). apply (Hg a s1 b s' Hb1 H).
Qed.

Lemma stable_RCHECK extra e cond : stable extra (RCHECK e cond).
Proof.
  destruct cond; [apply stable_ret | intros s a s' _ H; discriminate H].
Qed.

Lemma stable_assign extra g : stable extra (assign g).
Proof. intros s a s' _ H. inversion H; subst. reflexivity. Qed.

Lemma stable_Read1 extra e : stable extra (RCHECK_read e BufferReader.Read1).
Proof.
  intros s a s' Hb H. unfold RCHECK_read in *.
  destruct (BufferReader.Read1 (reader s)) as [[b rd]|] eqn:Hread;
    [|discriminate H].
  inversion H; subst; clear H.
  unfold BufferReader.Read1 in Hread.
  destruct (BufferReader.HasBytes 1 (reader s)); [|discriminate Hread].
  destruct (BufferReader.data (reader s) !! BufferReader.pos (reader s))
    as [b'|] eqn:Hl; [|discriminate Hread].
  inversion Hread; subst; clear Hread.
  assert (Hrem : BufferReader.remaining (reader (extend_input extra s))
                 = a :: (drop (S (BufferReader.pos (reader s)))
                           (BufferReader.data (reader s)) ++ extra)).
  { rewrite remaining_extend by exact Hb. unfold BufferReader.remaining.
    rewrite (drop_S _ _ _ Hl). reflexivity. }
  rewrite (Read1_cons _ _ _ Hrem). reflexivity.
Qed.

Lemma stable_ReadNalu extra l expected : stable extra (ReadNalu l expected).
Proof.
  intros s nalu s' Hb H.
  rewrite (ReadNalu_view l expected s Hb) in H.
  rewrite (ReadNalu_view l expected _ (in_bounds_extend extra s Hb)).
  rewrite remaining_extend by exact Hb.
  destruct (BufferReader.remaining (reader s)) as [|hi [|lo rest]];
    try discriminate H.
  cbv zeta in *. simpl app. cbv iota.
  set (size := Z.to_nat _) in *.
  destruct (Nat.leb_spec size (length rest)) as [Hle|Hgt]; [|discriminate H].
  replace (Nat.leb size (length (rest ++ extra))) with true
    by (symmetry; apply Nat.leb_le; rewrite length_app; lia).
  rewrite (take_app_le rest extra size Hle).
  destruct (Nalu_Initialize (take size rest)) as [n|]; [|discriminate H].
  destruct (Nalu_type n =? expected); [|discriminate H].
  inversion H; subst. reflexivity.
Qed.

Lemma stable_FirstSps extra nalu : stable extra (FirstSps nalu).
Proof.
  intros s a s' _ H. unfold FirstSps, bind in *.
  destruct (ParseSps nalu) as [sps|]; [|discriminate H]. simpl in *.
  destruct (ExtractResolutionFromSps sps) as [wh|]; [|discriminate H].
  simpl in *. inversion H; subst. reflexivity.
Qed.

Lemma stable_SpsLoop extra count : forall i, stable extra (SpsLoop count i).
Proof.
  induction count as [|count IH]; intros i; simpl; [apply stable_ret|].
  apply (stable_bind extra 2);
    [apply needs_ReadNalu | apply stable_ReadNalu | intros nalu].
  apply (stable_bind extra 0); [| |intros _; apply IH].
  - destruct (Nat.eqb i 0); [apply needs_FirstSps | apply needs_ret].
  - destruct (Nat.eqb i 0); [apply stable_FirstSps | apply stable_ret].
Qed.

Lemma stable_PpsLoop extra l count : stable extra (PpsLoop l count).
Proof.
  induction count as [|count IH]; simpl; [apply stable_ret|].
  apply (stable_bind extra 2);
    [apply needs_ReadNalu | apply stable_ReadNalu | intros _; exact IH].
Qed.

Lemma stable_ParseParameterSets extra : stable extra ParseParameterSets.
Proof.
  unfold ParseParameterSets.
  apply (stable_bind extra 4); [apply needs_ParseHeader| |intros _].
  { unfold ParseHeader.
    apply (stable_bind extra 1); [apply needs_Read1|apply stable_Read1|intros v].
    apply (stable_bind extra 0); [apply needs_assign|apply stable_assign|intros _].
    apply (stable_bind extra 0); [apply needs_RCHECK|apply stable_RCHECK|intros _].
    apply (stable_bind extra 1); [apply needs_Read1|apply stable_Read1|intros p].
    apply (stable_bind extra 0); [apply needs_assign|apply stable_assign|intros _].
    apply (stable_bind extra 1); [apply needs_Read1|apply stable_Read1|intros c].
    apply (stable_bind extra 0); [apply needs_assign|apply stable_assign|intros _].
    apply (stable_bind extra 1); [apply needs_Read1|apply stable_Read1|intros a].
    apply stable_assign. }
  apply (stable_bind extra 1); [apply needs_ParseLengthSize| |intros _].
  { unfold ParseLengthSize.
    apply (stable_bind extra 1); [apply needs_Read1|apply stable_Read1|intros b].
    destruct (Z.land (u8 b) 3 =? 2);
      [intros s a s' _ H; discriminate H | apply stable_assign]. }
  apply (stable_bind extra 1); [apply needs_ParseSpsList| |intros _].
  { unfold ParseSpsList.
    apply (stable_bind extra 1); [apply needs_Read1|apply stable_Read1|intros n].
    apply stable_SpsLoop. }
  unfold ParsePpsList.
  apply (stable_bind extra 1); [apply needs_Read1|apply stable_Read1|intros n].
  apply stable_PpsLoop.
Qed.

(** Bytes that follow the record are not looked at, unless the profile is
    one of 100, 110, 122 and 144: a parse that succeeds with another
    profile succeeds on every longer input that starts with the same
    bytes, and leaves the same record. *)
Theorem trailing_bytes_ignored data extra (r r' : AVCDecoderConfigurationRecord) :
  ParseInternal data r = (true, r') ->
  ~ In (profile_indication_ r') [100; 110; 122; 144] ->
  ParseInternal (data ++ extra) r = (true, r').
Proof.
  intros H Hprofile. unfold ParseInternal in *.
  destruct (ParseInternal_run data r) as [[[]|e] s5] eqn:Hrun; [|discriminate H].
  inversion H; subst r'; clear H.
  unfold ParseInternal_run, bind in *.
  set (s0 := Build_State r (BufferReader.Build data 0)) in *.
  assert (Hb0 : in_bounds s0) by (unfold in_bounds; simpl; lia).
  destruct (ParseParameterSets s0) as [[[]|e] s4] eqn:Hsets; [|discriminate Hrun].
  destruct (ParseProfileSpecialCase_Done _ _ Hrun) as (added & _ & Hrec).
  assert (Hns : is_special_profile (profile_indication_ (record s4)) = false).
  { destruct (is_special_profile (profile_indication_ (record s4))) eqn:Hsp;
      [|reflexivity].
    exfalso. apply Hprofile. rewrite Hrec. simpl.
    apply is_special_profile_In. exact Hsp. }
  assert (Hs5 : s5 = s4).
  { unfold ParseProfileSpecialCase, bind, get in Hrun. simpl in Hrun.
    rewrite Hns in Hrun. inversion Hrun. reflexivity. }
  subst s5.
  change (Build_State r (BufferReader.Build (data ++ extra) 0))
    with (extend_input extra s0).
  rewrite (stable_ParseParameterSets extra s0 tt s4 Hb0 Hsets).
  unfold ParseProfileSpecialCase, bind, get. simpl. rewrite Hns. reflexivity.
Qed.

End ParserMore.

(** * More about the fragmenter *)

Section FragmenterMore.
Variable use_dts : bool.

(** [AddSample] on a fragmenter without an open fragment opens one first. *)
Lemma AddSample_uninitialized sample f :
  fragment_initialized_ f = false ->
  AddSample use_dts sample f =
  AddSample use_dts sample (InitializeFragment (dts sample) f).
Proof.
  intros Hinit. unfold AddSample. rewrite Hinit. simpl.
  destruct (duration sample >? 0); reflexivity.
Qed.

Lemma calls_app cs1 cs2 f :
  calls use_dts (cs1 ++ cs2) f =
  match calls use_dts cs1 f with
  | Some f1 => calls use_dts cs2 f1
  | None => None
  end.
Proof.
  revert f. induction cs1 as [|c cs1 IH]; intros f; simpl; [reflexivity|].
  destruct (call use_dts c f); [apply IH | reflexivity].
Qed.

(** What the calls that fill a fragment add to the duration, and what they
    leave. *)
Lemma calls_frame cs : forall samples descriptions f f',
  forallb accumulating cs = true ->
  open_fragment use_dts samples descriptions f ->
  calls use_dts cs f = Some f' ->
  fragment_duration_ f' =
    fragment_duration_ f + sum_Z (map duration (samples_added cs)) /\
  decode_time (traf_ f') = decode_time (traf_ f) /\
  fragment_finalized_ f' = fragment_finalized_ f /\
  Forall (fun sample => 0 < duration sample) (samples_added cs).
Proof.
  induction cs as [|c cs IH]; intros samples descriptions f f' Hacc Hopen Hrun.
  - simpl in *. inversion Hrun; subst. repeat split; [lia | constructor].
  - simpl in Hacc. apply andb_true_iff in Hacc. destruct Hacc as [Hc Hcs].
    destruct c as [d0|sample|d|]; try discriminate Hc; simpl in Hrun.
    + pose proof (AddSample_open use_dts samples descriptions f sample Hopen)
        as Hadd.
      destruct (duration sample >? 0) eqn:Hdur;
        [|rewrite Hadd in Hrun; discriminate Hrun].
      destruct Hadd as (f1 & Hf1 & Hopen1 & _).
      rewrite Hf1 in Hrun.
      destruct (IH _ _ _ _ Hcs Hopen1 Hrun) as (Hd & Ht & Hfin & Hall).
      assert (Hstep : fragment_duration_ f1 = fragment_duration_ f + duration sample /\
                      decode_time (traf_ f1) = decode_time (traf_ f) /\
                      fragment_finalized_ f1 = fragment_finalized_ f).
      { destruct Hopen as (Hinit & Hruns & _ & _ & _ & _ & Hdata).
        unfold AddSample in Hf1. rewrite Hdur, Hinit in Hf1.
        unfold update_run0 in Hf1. rewrite Hruns, Hdata in Hf1.
        simpl in Hf1. inversion Hf1; subst. repeat split. }
      destruct Hstep as (Hd1 & Ht1 & Hfin1). simpl.
      repeat split; [lia | congruence | congruence|].
      constructor; [apply Z.gtb_lt in Hdur; lia | exact Hall].
    + pose proof (attach_description_open use_dts samples descriptions f d Hopen)
        as Hopen1.
      destruct (IH _ _ _ _ Hcs Hopen1 Hrun) as (Hd & Ht & Hfin & Hall).
      simpl in *. repeat split; assumption.
Qed.

(** The calls that fill a fragment go through when the durations are
    positive. *)
Lemma calls_total cs : forall samples descriptions f,
  forallb accumulating cs = true ->
  Forall (fun sample => 0 < duration sample) (samples_added cs) ->
  open_fragment use_dts samples descriptions f ->
  exists f', calls use_dts cs f = Some f'.
Proof.
  induction cs as [|c cs IH]; intros samples descriptions f Hacc Hall Hopen.
  - exists f. reflexivity.
  - simpl in Hacc. apply andb_true_iff in Hacc. destruct Hacc as [Hc Hcs].
    destruct c as [d0|sample|d|]; try discriminate Hc; simpl in *.
    + apply Forall_cons in Hall. destruct Hall as [Hpos Hall].
      pose proof (AddSample_open use_dts samples descriptions f sample Hopen)
        as Hadd.
      replace (duration sample >? 0) with true in Hadd
        by (symmetry; apply Z.gtb_lt; lia).
      destruct Hadd as (f1 & Hf1 & Hopen1 & _). rewrite Hf1.
      apply (IH _ _ _ Hcs Hall Hopen1).
    + apply (IH _ _ _ Hcs Hall
               (attach_description_open use_dts samples descriptions f d Hopen)).
Qed.

(** The state a fragment filled since [InitializeFragment] is in. *)
Lemma filled_fragment_state cs first_sample_dts f0 f :
  forallb accumulating cs = true ->
  calls use_dts cs (InitializeFragment first_sample_dts f0) = Some f ->
  open_fragment use_dts (samples_added cs) (descriptions_attached cs) f /\
  seek_preroll_ f = seek_preroll_ f0 /\
  header (traf_ f) = header (traf_ (InitializeFragment first_sample_dts f0)) /\
  fragment_duration_ f = sum_Z (map duration (samples_added cs)) /\
  decode_time (traf_ f) = first_sample_dts /\
  Forall (fun sample => 0 < duration sample) (samples_added cs).
Proof.
  intros Hacc Hrun.
  pose proof (open_InitializeFragment use_dts first_sample_dts f0) as Hopen0.
  destruct (calls_open use_dts cs [] [] _ _ Hacc Hopen0 Hrun)
    as (Hopen & Hpre & Hhdr).
  destruct (calls_frame cs [] [] _ _ Hacc Hopen0 Hrun) as (Hd & Ht & _ & Hall).
  simpl in Hd, Ht, Hpre.
  split; [exact Hopen|]. split; [exact Hpre|]. split; [exact Hhdr|].
  split; [exact Hd|]. split; [exact Ht | exact Hall].
Qed.

Lemma sum_data_sizes samples :
  sum_Z (map data_size samples) = Z.of_nat (length (concat (map data samples))).
Proof.
  induction samples as [|sample samples IH]; [reflexivity|].
  simpl. rewrite length_app, IH. unfold data_size. lia.
Qed.

Lemma run_of_flags_exact samples :
  TrackFragmentRun.flags (run_of samples) =
  if has_composition_offsets samples then 0x801 else 0x001.
Proof.
  induction samples as [|sample samples IH] using rev_ind; [reflexivity|].
  rewrite run_of_snoc. unfold has_composition_offsets in *.
  rewrite existsb_app. simpl. rewrite orb_false_r, IH.
  destruct (pts sample =? dts sample);
    destruct (existsb _ samples); reflexivity.
Qed.

Lemma sum_positive (l : list Z) :
  Forall (fun z => 0 < z) l -> Z.of_nat (length l) <= sum_Z l.
Proof.
  induction 1 as [|z l Hz _ IH]; simpl; [lia|].
  rewrite Nat2Z.inj_succ. lia.
Qed.

(** The duration of a fragment filled since [InitializeFragment], when the
    durations of the samples added sum to less than 2^32, is that sum; each
    duration is positive, so that the sum is at least the number of samples;
    the segment reference made once the fragment is finalized has the sum as
    [subsegment_duration], is no reference to an index, and keeps the
    [referenced_size] handed in. *)
Theorem fragment_duration_is_sum cs first_sample_dts f0 f :
  forallb accumulating cs = true ->
  calls use_dts cs (InitializeFragment first_sample_dts f0) = Some f ->
  let total := sum_Z (map duration (samples_added cs)) in
  total < 2 ^ 32 ->
  fragment_duration_ f = total /\
  Z.of_nat (length (samples_added cs)) <= total /\
  (forall f' reference ref,
     FinalizeFragment f = Some f' ->
     GenerateSegmentReference reference f' = Some ref ->
     SegmentReference.subsegment_duration ref = total /\
     SegmentReference.reference_type ref = false /\
     SegmentReference.referenced_size ref
       = SegmentReference.referenced_size reference).
Proof.
  intros Hacc Hrun total _.
  destruct (filled_fragment_state cs _ _ _ Hacc Hrun)
    as ((_ & Hruns & _) & _ & _ & Hd & _ & Hall).
  split; [exact Hd|]. split.
  - subst total. rewrite <- (length_map duration).
    apply sum_positive. apply Forall_map. exact Hall.
  - intros f' reference ref Hfin Href.
    destruct (FinalizeFragment_steps f f' _ Hruns Hfin)
      as (od & ed & dd & os & es & ds & ofl & ef & df &
          _ & _ & _ & _ & _ & _ & _ & _ & _ & Hd' & _).
    unfold GenerateSegmentReference in Href.
    destruct (StartsWithSAP f'); [|discriminate Href].
    inversion Href; subst ref. simpl. rewrite Hd', Hd. auto.
Qed.

(** The buffer of a fragment filled since [InitializeFragment] holds the
    payloads of the samples added, in order, and the sizes recorded in the
    run are theirs: they add up to the length of the buffer. *)
Theorem payload_buffer_matches_sizes cs first_sample_dts f0 f :
  forallb accumulating cs = true ->
  calls use_dts cs (InitializeFragment first_sample_dts f0) = Some f ->
  exists run,
    runs (traf_ f) = [run] /\
    data_ f = Some (concat (map data (samples_added cs))) /\
    TrackFragmentRun.sample_sizes run = map data_size (samples_added cs) /\
    sum_Z (TrackFragmentRun.sample_sizes run)
      = Z.of_nat (length (concat (map data (samples_added cs)))).
Proof.
  intros Hacc Hrun.
  destruct (filled_fragment_state cs _ _ _ Hacc Hrun)
    as ((_ & Hruns & _ & _ & _ & _ & Hdata) & _).
  destruct (run_of_arrays (samples_added cs)) as (_ & Hsz & _).
  exists (run_of (samples_added cs)).
  rewrite Hsz, sum_data_sizes. auto.
Qed.

Lemma run_flags_after_offsets flags od os ofl :
  flags = 0x001 \/ flags = 0x801 ->
  has_mask (run_flags_after flags od os ofl)
    TrackFragmentRun.kSampleCompTimeOffsetsPresentMask
  = has_mask flags TrackFragmentRun.kSampleCompTimeOffsetsPresentMask.
Proof.
  intros [-> | ->]; destruct od, os, ofl; reflexivity.
Qed.

Lemma offsets_in_range samples :
  Forall
    (fun sample =>
       int64 (pts sample) /\ int64 (dts sample) /\
       int64 (pts sample - dts sample))
    samples ->
  map (fun sample => wrap_int64 (pts sample - dts sample)) samples
  = map (fun sample => pts sample - dts sample) samples.
Proof.
  induction 1 as [|sample samples (_ & _ & Hd) _ IH]; [reflexivity|].
  cbn [map]. rewrite IH, (wrap_int64_small _ Hd). reflexivity.
Qed.

(** The run of a fragment filled since [InitializeFragment] with samples
    whose times are [int64_t] values, as is the presentation time less the
    decode time of each, announces composition time offsets exactly when a
    sample added has a presentation time that is not its decode time; the
    offsets recorded are the differences, one for each sample;
    [FinalizeFragment] changes neither. *)
Theorem composition_offsets_flag cs first_sample_dts f0 f :
  forallb accumulating cs = true ->
  calls use_dts cs (InitializeFragment first_sample_dts f0) = Some f ->
  Forall
    (fun sample =>
       int64 (pts sample) /\ int64 (dts sample) /\
       int64 (pts sample - dts sample))
    (samples_added cs) ->
  let offsets :=
    map (fun sample => pts sample - dts sample) (samples_added cs) in
  (exists run,
     runs (traf_ f) = [run] /\
     has_mask (TrackFragmentRun.flags run)
       TrackFragmentRun.kSampleCompTimeOffsetsPresentMask
       = has_composition_offsets (samples_added cs) /\
     TrackFragmentRun.sample_composition_time_offsets run = offsets) /\
  (forall f',
     FinalizeFragment f = Some f' ->
     exists run',
       runs (traf_ f') = [run'] /\
       has_mask (TrackFragmentRun.flags run')
         TrackFragmentRun.kSampleCompTimeOffsetsPresentMask
         = has_composition_offsets (samples_added cs) /\
       TrackFragmentRun.sample_composition_time_offsets run' = offsets).
Proof.
  intros Hacc Hrun Hrange offsets.
  destruct (filled_fragment_state cs _ _ _ Hacc Hrun) as ((_ & Hruns & _) & _).
  destruct (run_of_arrays (samples_added cs)) as (_ & _ & _ & Hoff).
  rewrite (offsets_in_range _ Hrange) in Hoff.
  assert (Hflag : has_mask (TrackFragmentRun.flags (run_of (samples_added cs)))
                    TrackFragmentRun.kSampleCompTimeOffsetsPresentMask
                  = has_composition_offsets (samples_added cs)).
  { rewrite run_of_flags_exact.
    destruct (has_composition_offsets (samples_added cs)); reflexivity. }
  split.
  - exists (run_of (samples_added cs)). auto.
  - intros f' Hfin.
    destruct (FinalizeFragment_steps f f' _ Hruns Hfin)
      as (od & ed & dd & os & es & ds & ofl & ef & df &
          _ & _ & _ & Hruns' & _).
    eexists. split; [exact Hruns'|]. simpl.
    rewrite run_flags_after_offsets by apply run_of_flags. auto.
Qed.

(** After [FinalizeFragment] on a fragment filled since
    [InitializeFragment], the flags of the header mirror those of the run:
    for the durations, the sizes and the sample flags, the default is
    announced in the header exactly when the field is not announced in the
    run.  The header still says that the base is the moof and that the
    sample description index is present, which is 1. *)
Theorem header_mirrors_run_flags cs first_sample_dts f0 f f' :
  forallb accumulating cs = true ->
  calls use_dts cs (InitializeFragment first_sample_dts f0) = Some f ->
  FinalizeFragment f = Some f' ->
  exists run',
    runs (traf_ f') = [run'] /\
    let hflags := TrackFragmentHeader.flags (header (traf_ f')) in
    let rflags := TrackFragmentRun.flags run' in
    has_mask hflags TrackFragmentHeader.kDefaultSampleDurationPresentMask
      = negb (has_mask rflags TrackFragmentRun.kSampleDurationPresentMask) /\
    has_mask hflags TrackFragmentHeader.kDefaultSampleSizePresentMask
      = negb (has_mask rflags TrackFragmentRun.kSampleSizePresentMask) /\
    has_mask hflags TrackFragmentHeader.kDefaultSampleFlagsPresentMask
      = negb (has_mask rflags TrackFragmentRun.kSampleFlagsPresentMask) /\
    has_mask hflags TrackFragmentHeader.kDefaultBaseIsMoofMask = true /\
    has_mask hflags TrackFragmentHeader.kSampleDescriptionIndexPresentMask = true /\
    has_mask hflags TrackFragmentHeader.kBaseDataOffsetPresentMask = false /\
    has_mask hflags TrackFragmentHeader.kDurationIsEmptyMask = false /\
    TrackFragmentHeader.sample_description_index (header (traf_ f')) = 1.
Proof.
  intros Hacc Hrun Hfin.
  destruct (filled_fragment_state cs _ _ _ Hacc Hrun)
    as ((_ & Hruns & _) & _ & Hhdr & _).
  destruct (FinalizeFragment_steps f f' _ Hruns Hfin)
    as (od & ed & dd & os & es & ds & ofl & ef & df &
        _ & _ & _ & Hruns' & Hhdr' & _).
  eexists. split; [exact Hruns'|]. cbv zeta.
  destruct (run_flags_after_present _ od os ofl (run_of_flags (samples_added cs)))
    as (Hpd & Hps & Hpf).
  cbn [TrackFragmentRun.flags]. rewrite Hpd, Hps, Hpf, Hhdr', Hhdr.
  destruct od, os, ofl; repeat split; reflexivity.
Qed.

(** After [FinalizeFragment] on a fragment filled since
    [InitializeFragment] with [n] samples, the composition time offsets have
    [n] entries, and each of the three other arrays has [n] entries when its
    field is announced in the flags of the run and none when it is not. *)
Theorem finalized_array_lengths cs first_sample_dts f0 f f' :
  forallb accumulating cs = true ->
  calls use_dts cs (InitializeFragment first_sample_dts f0) = Some f ->
  FinalizeFragment f = Some f' ->
  let n := length (samples_added cs) in
  exists run',
    runs (traf_ f') = [run'] /\
    let present mask := has_mask (TrackFragmentRun.flags run') mask in
    length (TrackFragmentRun.sample_composition_time_offsets run') = n /\
    length (TrackFragmentRun.sample_durations run')
      = (if present TrackFragmentRun.kSampleDurationPresentMask then n else 0%nat) /\
    length (TrackFragmentRun.sample_sizes run')
      = (if present TrackFragmentRun.kSampleSizePresentMask then n else 0%nat) /\
    length (TrackFragmentRun.sample_flags run')
      = (if present TrackFragmentRun.kSampleFlagsPresentMask then n else 0%nat).
Proof.
  intros Hacc Hrun Hfin n.
  destruct (filled_fragment_state cs _ _ _ Hacc Hrun) as ((_ & Hruns & _) & _).
  destruct (FinalizeFragment_steps f f' _ Hruns Hfin)
    as (od & ed & dd & os & es & ds & ofl & ef & df &
        Hod & Hos & Hof & Hruns' & _).
  destruct (run_of_arrays (samples_added cs)) as (Hfl & Hsz & Hdu & Hoff).
  rewrite Hdu in Hod. rewrite Hsz in Hos. rewrite Hfl in Hof.
  assert (Hlen : forall entries d o e d',
            OptimizeSampleEntries entries d = Some (o, e, d') ->
            length e = if negb o then length entries else 0%nat).
  { intros entries d o e d' H. unfold OptimizeSampleEntries in H.
    destruct entries as [|v entries]; [discriminate H|].
    destruct (forallb (Z.eqb v) (v :: entries)); inversion H; reflexivity. }
  apply Hlen in Hod, Hos, Hof. rewrite length_map in Hod, Hos, Hof.
  eexists. split; [exact Hruns'|]. cbv zeta.
  destruct (run_flags_after_present _ od os ofl (run_of_flags (samples_added cs)))
    as (Hpd & Hps & Hpf).
  cbn [TrackFragmentRun.flags TrackFragmentRun.sample_durations
       TrackFragmentRun.sample_sizes TrackFragmentRun.sample_flags
       TrackFragmentRun.sample_composition_time_offsets].
  rewrite Hpd, Hps, Hpf, Hoff, length_map. auto.
Qed.

Lemma earliest_of_lower_bound flag samples sample :
  In sample samples ->
  earliest_of flag samples <= selected_timestamp flag sample.
Proof.
  induction samples as [|last samples IH] using rev_ind; intros Hin; [destruct Hin|].
  rewrite earliest_of_snoc. apply in_app_or in Hin.
  destruct Hin as [Hin | [-> | []]]; [specialize (IH Hin)|]; lia.
Qed.

Lemma sap_delta_nonnegative first_sap earliest :
  earliest <= first_sap ->
  0 <= (if kInvalidTime =? first_sap then 0 else first_sap - earliest).
Proof. intros H. destruct (kInvalidTime =? first_sap); lia. Qed.

(** With the presentation time in the timeline and the times of the samples
    in range (each an [int64_t] below [kInvalidTime], with differences that
    an [int64_t] holds), no sample added to a finalized fragment precedes
    its earliest presentation time, the first SAP time, when there is one,
    does not either, and the SAP delta time of the segment reference is
    never negative. *)
Theorem sap_delta_time_nonnegative cs first_sample_dts f0 f f' reference ref :
  forallb accumulating cs = true ->
  calls false cs (InitializeFragment first_sample_dts f0) = Some f ->
  FinalizeFragment f = Some f' ->
  GenerateSegmentReference reference f' = Some ref ->
  times_in_range (samples_added cs) = true ->
  0 <= SegmentReference.sap_delta_time ref /\
  (first_sap_time_ f' <> kInvalidTime ->
   earliest_presentation_time_ f' <= first_sap_time_ f') /\
  (forall sample, In sample (samples_added cs) ->
     earliest_presentation_time_ f' <= pts sample).
Proof.
  intros Hacc Hrun Hfin Href Hrange.
  destruct (calls_after_InitializeFragment false cs _ _ _ Hacc Hrun)
    as [(_ & Hruns & _ & _ & Hearliest & Hsap & _) _].
  destruct (FinalizeFragment_steps f f' _ Hruns Hfin)
    as (od & ed & dd & os & es & ds & ofl & ef & df &
        _ & _ & _ & _ & _ & _ & _ & Hsap' & Hearliest' & _).
  unfold GenerateSegmentReference in Href.
  destruct (StartsWithSAP f'); [|discriminate Href].
  injection Href as <-.
  cbn [SegmentReference.sap_delta_time].
  rewrite Hsap', Hearliest', Hsap, Hearliest, first_sap_of_find.
  destruct (List.find is_sap (samples_added cs)) as [key|] eqn:Hfind.
  - apply find_some in Hfind. destruct Hfind as [Hin _].
    pose proof (earliest_of_lower_bound false _ _ Hin) as Hle.
    change (selected_timestamp false key) with (pts key) in Hle.
    rewrite (wrap_int64_small _ (sap_delta_in_range false _ _ Hrange Hin)).
    split; [exact (sap_delta_nonnegative _ _ Hle)|].
    split; [intros _; exact Hle|].
    intros sample Hs. apply (earliest_of_lower_bound false _ _ Hs).
  - split; [reflexivity|].
    split; [intros Hne; contradiction Hne; reflexivity|].
    intros sample Hs. apply (earliest_of_lower_bound false _ _ Hs).
Qed.


Lemma OptimizeSampleEntries_default entries d1 d2 o e x1 :
  OptimizeSampleEntries entries d1 = Some (o, e, x1) ->
  exists x2,
    OptimizeSampleEntries entries d2 = Some (o, e, x2) /\
    (o = true -> x2 = x1).
Proof.
  unfold OptimizeSampleEntries. destruct entries as [|v entries]; [discriminate|].
  destruct (forallb (Z.eqb v) (v :: entries)); intros H; inversion H; subst.
  - exists x1. auto.
  - exists d2. split; [reflexivity | discriminate].
Qed.

(** Two fragmenters with the same open fragment give, once finalized, the
    same run, mappings and segment reference, whatever defaults their
    headers held before. *)
Lemma FinalizeFragment_same samples descriptions fa fb fa' :
  open_fragment use_dts samples descriptions fa ->
  open_fragment use_dts samples descriptions fb ->
  seek_preroll_ fa = seek_preroll_ fb ->
  fragment_duration_ fa = fragment_duration_ fb ->
  TrackFragmentHeader.flags (header (traf_ fa))
    = TrackFragmentHeader.flags (header (traf_ fb)) ->
  FinalizeFragment fa = Some fa' ->
  exists fb',
    FinalizeFragment fb = Some fb' /\
    runs (traf_ fa') = runs (traf_ fb') /\
    sample_to_groups (traf_ fa') = sample_to_groups (traf_ fb') /\
    sample_group_descriptions (traf_ fa') = sample_group_descriptions (traf_ fb') /\
    TrackFragmentHeader.flags (header (traf_ fa'))
      = TrackFragmentHeader.flags (header (traf_ fb')) /\
    (forall reference,
       GenerateSegmentReference reference fa'
       = GenerateSegmentReference reference fb').
Proof.
  intros (_ & Hra & Hda & Hga & Hea & Hsa & _) (_ & Hrb & Hdb & Hgb & Heb & Hsb & _)
    Hpre Hdur Hflags Hfin.
  destruct (FinalizeFragment_steps fa fa' _ Hra Hfin)
    as (od & ed & dd & os & es & ds & ofl & ef & df &
        Hod & Hos & Hof & Hruns' & Hhdr' & Hgroups' & Hdesc' &
        Hsap' & Hearliest' & Hdur' & _).
  destruct (OptimizeSampleEntries_default _ _
              (TrackFragmentHeader.default_sample_duration (header (traf_ fb)))
              _ _ _ Hod) as (dd2 & Hod2 & _).
  destruct (OptimizeSampleEntries_default _ _
              (TrackFragmentHeader.default_sample_size (header (traf_ fb)))
              _ _ _ Hos) as (ds2 & Hos2 & _).
  destruct (OptimizeSampleEntries_default _ _
              (TrackFragmentHeader.default_sample_flags (header (traf_ fb)))
              _ _ _ Hof) as (df2 & Hof2 & Hdf2).
  destruct (run_flags_after_present _ od os ofl (run_of_flags samples))
    as (_ & _ & Hpf).
  assert (Hfb : exists fb', FinalizeFragment fb = Some fb').
  { unfold FinalizeFragment. rewrite Hrb. simpl. rewrite Hod2.
    destruct od; simpl; rewrite Hos2; destruct os; simpl; rewrite Hof2;
      destruct ofl; simpl; eexists; reflexivity. }
  destruct Hfb as [fb' Hfinb]. exists fb'. split; [exact Hfinb|].
  destruct (FinalizeFragment_steps fb fb' _ Hrb Hfinb)
    as (od' & ed' & dd' & os' & es' & ds' & ofl' & ef' & df' &
        Hod' & Hos' & Hof' & Hrunsb & Hhdrb & Hgroupsb & Hdescb &
        Hsapb & Hearliestb & Hdurb & _).
  rewrite Hod2 in Hod'. rewrite Hos2 in Hos'. rewrite Hof2 in Hof'.
  injection Hod' as <- <- <-. injection Hos' as <- <- <-.
  injection Hof' as <- <- <-.
  split; [rewrite Hruns', Hrunsb; reflexivity|].
  split; [rewrite Hgroups', Hgroupsb, Hga, Hgb, Hda, Hdb, Hpre; reflexivity|].
  split; [rewrite Hdesc', Hdescb, Hda, Hdb; reflexivity|].
  split; [rewrite Hhdr', Hhdrb; simpl; rewrite Hflags; reflexivity|].
  intros reference. unfold GenerateSegmentReference, StartsWithSAP.
  rewrite Hruns', Hrunsb, Hhdr', Hhdrb, Hsap', Hsapb, Hearliest', Hearliestb,
    Hdur', Hdurb, Hsa, Hsb, Hea, Heb, Hdur.
  cbn [lookup list_lookup TrackFragmentRun.flags TrackFragmentRun.sample_flags
       TrackFragmentHeader.default_sample_flags].
  unfold has_mask in Hpf. rewrite Hpf.
  destruct ofl; simpl; [rewrite (Hdf2 eq_refl)|]; reflexivity.
Qed.

(** A fragment does not depend on the fragments made before it: two
    fragmenters without an open fragment and with the same seek preroll,
    given the same sample, the same calls to fill the fragment and
    [FinalizeFragment], both go through, and leave the same run, the same
    descriptions and mappings, the same flags in the header and the same
    segment reference. *)
Theorem fragment_independent_of_history sample cs fa fb fa' :
  fragment_initialized_ fa = false ->
  fragment_initialized_ fb = false ->
  seek_preroll_ fa = seek_preroll_ fb ->
  forallb accumulating cs = true ->
  calls use_dts (CallAddSample sample :: cs ++ [CallFinalizeFragment]) fa
    = Some fa' ->
  exists fb',
    calls use_dts (CallAddSample sample :: cs ++ [CallFinalizeFragment]) fb
      = Some fb' /\
    runs (traf_ fa') = runs (traf_ fb') /\
    sample_to_groups (traf_ fa') = sample_to_groups (traf_ fb') /\
    sample_group_descriptions (traf_ fa') = sample_group_descriptions (traf_ fb') /\
    TrackFragmentHeader.flags (header (traf_ fa'))
      = TrackFragmentHeader.flags (header (traf_ fb')) /\
    (forall reference,
       GenerateSegmentReference reference fa'
       = GenerateSegmentReference reference fb').
Proof.
  intros Hia Hib Hpre Hacc Hrun.
  assert (Hstart : forall f, fragment_initialized_ f = false ->
            calls use_dts (CallAddSample sample :: cs ++ [CallFinalizeFragment]) f
            = match calls use_dts (CallAddSample sample :: cs)
                      (InitializeFragment (dts sample) f) with
              | Some f1 => FinalizeFragment f1
              | None => None
              end).
  { intros f Hf.
    change (CallAddSample sample :: cs ++ [CallFinalizeFragment])
      with ((CallAddSample sample :: cs) ++ [CallFinalizeFragment]).
    rewrite calls_app. simpl. rewrite (AddSample_uninitialized sample f Hf).
    destruct (AddSample use_dts sample (InitializeFragment (dts sample) f))
      as [f1|]; [|reflexivity].
    destruct (calls use_dts cs f1) as [f2|]; [|reflexivity].
    simpl. destruct (FinalizeFragment f2); reflexivity. }
  rewrite (Hstart fa Hia) in Hrun. rewrite (Hstart fb Hib).
  assert (Hacc' : forallb accumulating (CallAddSample sample :: cs) = true)
    by exact Hacc.
  destruct (calls use_dts (CallAddSample sample :: cs)
              (InitializeFragment (dts sample) fa)) as [fa1|] eqn:Hca;
    [|discriminate Hrun].
  destruct (filled_fragment_state _ _ _ _ Hacc' Hca)
    as (Hopena & Hprea & Hhdra & Hdura & _ & Hall).
  destruct (calls_total (CallAddSample sample :: cs) [] []
              (InitializeFragment (dts sample) fb) Hacc' Hall
              (open_InitializeFragment use_dts (dts sample) fb)) as [fb1 Hcb].
  rewrite Hcb.
  destruct (filled_fragment_state _ _ _ _ Hacc' Hcb)
    as (Hopenb & Hpreb & Hhdrb & Hdurb & _).
  apply (FinalizeFragment_same _ _ fa1 fb1 fa' Hopena Hopenb);
    [congruence | congruence | rewrite Hhdra, Hhdrb; reflexivity | exact Hrun].
Qed.

(** From the constructor on: the fragment a fragmenter makes first has the
    mapping of type 'roll' to a description of the track exactly when the
    stream is an audio stream with a seek preroll above 0; for any other
    stream no such mapping is made. *)
Theorem roll_mapping_of_stream info traf sample cs f f' :
  forallb accumulating cs = true ->
  calls use_dts (CallAddSample sample :: cs) (Fragmenter_for info traf) = Some f ->
  FinalizeFragment f = Some f' ->
  List.filter is_track_roll (sample_to_groups (traf_ f')) =
  match info with
  | AudioStreamInfo seek_preroll_ns =>
      if seek_preroll_ns >? 0
      then [roll_sample_to_group (Z.of_nat (S (length (samples_added cs))))]
      else []
  | OtherStreamInfo _ => []
  end.
Proof.
  intros Hacc Hrun Hfin.
  assert (Hrun' : calls use_dts (CallAddSample sample :: cs)
                    (InitializeFragment (dts sample) (Fragmenter_for info traf))
                  = Some f).
  { simpl in *. rewrite <- AddSample_uninitialized by reflexivity. exact Hrun. }
  assert (Hacc' : forallb accumulating (CallAddSample sample :: cs) = true)
    by exact Hacc.
  destruct (filled_fragment_state _ _ _ _ Hacc' Hrun')
    as ((_ & Hruns & Hdesc & Hgroups & _) & Hpre & _).
  destruct (FinalizeFragment_steps f f' _ Hruns Hfin)
    as (od & ed & dd & os & es & ds & ofl & ef & df &
        _ & _ & _ & _ & _ & Hgroups' & _).
  destruct (run_of_arrays (samples_added (CallAddSample sample :: cs)))
    as (_ & Hsz & _).
  rewrite Hsz, length_map, Hgroups, Hpre in Hgroups'. simpl in Hgroups'.
  rewrite Hgroups'. unfold GetSeekPreroll.
  destruct info as [seek_preroll_ns|[]]; simpl;
    try apply fragment_mappings_not_track_roll.
  destruct (seek_preroll_ns >? 0); simpl;
    rewrite fragment_mappings_not_track_roll; reflexivity.
Qed.

(** [StartsWithSAP] is meant for a finalized fragment: on a fragment that
    is being filled it reads the default sample flags of the header, which
    [InitializeFragment] leaves as the track fragment had them, whatever
    samples were added. *)
Theorem starts_with_sap_before_finalize cs first_sample_dts f0 f :
  forallb accumulating cs = true ->
  calls use_dts cs (InitializeFragment first_sample_dts f0) = Some f ->
  StartsWithSAP f =
  Some (Z.land (TrackFragmentHeader.default_sample_flags (header (traf_ f0)))
          TrackFragmentHeader.kNonKeySampleMask =? 0).
Proof.
  intros Hacc Hrun.
  destruct (filled_fragment_state cs _ _ _ Hacc Hrun)
    as ((_ & Hruns & _) & _ & Hhdr & _).
  unfold StartsWithSAP. rewrite Hruns, Hhdr.
  cbn [lookup list_lookup].
  destruct (run_of_flags (samples_added cs)) as [-> | ->]; reflexivity.
Qed.

End FragmenterMore.

(** * The parser on sample records *)


(** A failure in the PPS list, after the SPS was read: the unit stays in
    the list, and the resolution decoded from it in the record. *)
Example failed_parse_keeps_decoded :
  ParseInternal (codec := sample_codec)
    [x01; x64; x00; x1f; xff; xe1; x00; x02; x67; x64; x01] empty_record
  = (false,
     Build_Record 1 100 0 31 4
       ([[x67; x64]] : list (Nalu (H264 := sample_codec)))
       0 16 16 1 1).
Proof. reflexivity. Qed.

(** The record after a failure can be the record before it: here
    [version_] is written with the value it had. *)
Example failed_parse_same_record :
  ParseInternal (codec := sample_codec) [x00; x64] empty_record
    = (false, empty_record).
Proof. reflexivity. Qed.


(** C4 fails on the code: the length-size byte 0xfe is not 2, and the parse
    fails for the length size (the low two bits of 0xfe are 2). *)
Lemma masked_length_size_rejected :
  ParseInternal_failure (codec := sample_codec)
    [x01; x64; x00; x1f; xfe] empty_record = Some InvalidNaluLengthSize /\
  u8 xfe <> 2.
Proof.
  split; [reflexivity|]. intros H. discriminate H.
Qed.

(** The inner hypotheses of [length_size_step] at the length-size byte
    0xff. *)
Lemma length_size_step_witness :
  nalu_length_size_
    (snd (ParseInternal (codec := sample_codec)
            [x01; x64; x00; x1f; xff] empty_record)) = 4.
Proof.
  exact (proj1 (proj2
    (length_size_step (codec := sample_codec) x64 x00 x1f [xff] empty_record)
    xff [] eq_refl ltac:(vm_compute; discriminate))).
Defined.

(** The hypotheses of [profile_special_case] at a record of profile 100 that
    ends with its PPS list. *)
Lemma profile_special_case_witness :
  ParseParameterSets (codec := sample_codec)
    (Build_State empty_record (BufferReader.Build high_profile_record 0))
  = (Done tt, state_after_sets) /\
  ParseInternal_run (codec := sample_codec) high_profile_record empty_record
  = (Done tt, state_after_sets).
Proof.
  split; [reflexivity|].
  apply (proj1 (proj2
    (profile_special_case (codec := sample_codec) high_profile_record
       empty_record state_after_sets eq_refl))).
  - vm_compute. tauto.
  - vm_compute. lia.
Defined.

(** The same record followed by the block of the profile, with one unit of
    type PPS in it: the unit is added after the SPS and the PPS. *)
Example high_profile_record_ext_parses :
  ParseInternal (codec := sample_codec) high_profile_record_ext empty_record =
  (true,
   Build_Record 1 100 0 31 4
     ([[x67; x64]; [x68]; [x68; x01]] : list (Nalu (H264 := sample_codec)))
     0 16 16 1 1).
Proof. reflexivity. Qed.

(** The hypothesis of [short_input_fails] at a header cut after two bytes. *)
Lemma short_input_fails_witness :
  (length [x01; x64] < 6)%nat /\
  fst (ParseInternal (codec := sample_codec) [x01; x64] empty_record) = false.
Proof.
  assert (H : (length [x01; x64] < 6)%nat) by (simpl; lia).
  split; [exact H|].
  exact (proj1 (short_input_fails (codec := sample_codec) [x01; x64]
                  empty_record H)).
Defined.

(** * The fragmenter on sample fragments *)

Lemma filled_fragment_calls :
  calls false sample_calls_with_description
    (InitializeFragment 0 audio_fragmenter) = Some filled_fragment.
Proof. vm_compute. reflexivity. Qed.

Lemma finalized_fragment_call :
  FinalizeFragment filled_fragment = Some finalized_fragment.
Proof. vm_compute. reflexivity. Qed.

(** The hypotheses of [finalize_optimizes_entries] at the three samples. *)
Lemma finalize_optimizes_entries_witness :
  calls false sample_calls_with_description
    (InitializeFragment 0 audio_fragmenter) = Some filled_fragment /\
  exists f', FinalizeFragment filled_fragment = Some f'.
Proof.
  split; [exact filled_fragment_calls|].
  assert (Hne : samples_added sample_calls_with_description <> [])
    by (vm_compute; discriminate).
  destruct (finalize_optimizes_entries false sample_calls_with_description
              0 audio_fragmenter filled_fragment eq_refl
              filled_fragment_calls Hne) as (f' & run' & Hfin & _).
  exists f'. exact Hfin.
Defined.

(** The hypotheses of [earliest_presentation_time_is_minimum] at the three
    samples, whose presentation times are 0, 10 and 20. *)
Lemma earliest_presentation_time_is_minimum_witness :
  calls false sample_calls_with_description
    (InitializeFragment 0 audio_fragmenter) = Some filled_fragment /\
  In (earliest_presentation_time_ filled_fragment) [0; 10; 20].
Proof.
  split; [exact filled_fragment_calls|].
  assert (Hall : Forall (fun sample => int64 (pts sample) /\ int64 (dts sample))
                   (samples_added sample_calls_with_description))
    by (repeat constructor; vm_compute; discriminate).
  assert (Hne : map (fun sample => pts sample)
                  (samples_added sample_calls_with_description) <> [])
    by (vm_compute; discriminate).
  exact (proj1 (proj2
    (earliest_presentation_time_is_minimum false sample_calls_with_description
       0 audio_fragmenter filled_fragment eq_refl filled_fragment_calls Hall))
    Hne).
Defined.

(** The hypothesis of [track_fragment_has_one_run] at the three samples and
    the description followed by [FinalizeFragment]. *)
Lemma track_fragment_has_one_run_witness :
  calls false (sample_calls_with_description ++ [CallFinalizeFragment])
    (InitializeFragment 0 audio_fragmenter) = Some finalized_fragment /\
  single_run finalized_fragment.
Proof.
  assert (H : calls false (sample_calls_with_description ++ [CallFinalizeFragment])
                (InitializeFragment 0 audio_fragmenter) = Some finalized_fragment)
    by (vm_compute; reflexivity).
  split; [exact H|].
  exact (proj1 (track_fragment_has_one_run false
                  (sample_calls_with_description ++ [CallFinalizeFragment])
                  0 audio_fragmenter finalized_fragment H)).
Defined.

(** The hypotheses of [finalize_sample_to_groups] at the three samples and
    the description, with a seek preroll. *)
Lemma finalize_sample_to_groups_witness :
  FinalizeFragment filled_fragment = Some finalized_fragment /\
  sample_to_groups (traf_ finalized_fragment) =
  [SampleToGroup.Build FOURCC_roll [SampleToGroupEntry.Build 3 1];
   SampleToGroup.Build 0x73656967 [SampleToGroupEntry.Build 3 0x10001]].
Proof.
  split; [exact finalized_fragment_call|].
  exact (proj1 (proj2
    (finalize_sample_to_groups false sample_calls_with_description
       0 audio_fragmenter filled_fragment finalized_fragment
       eq_refl filled_fragment_calls finalized_fragment_call))).
Defined.

Lemma sample_times_in_range :
  times_in_range (samples_added sample_calls_with_description) = true.
Proof. vm_compute. reflexivity. Qed.

(** The hypotheses of [segment_reference_sap] at the three samples. *)
Lemma segment_reference_sap_witness :
  FinalizeFragment filled_fragment = Some finalized_fragment /\
  times_in_range (samples_added sample_calls_with_description) = true /\
  exists ref,
    GenerateSegmentReference blank_reference finalized_fragment = Some ref /\
    SegmentReference.starts_with_sap ref = true.
Proof.
  split; [exact finalized_fragment_call|].
  split; [exact sample_times_in_range|].
  destruct (segment_reference_sap false sample_calls_with_description
              0 audio_fragmenter filled_fragment finalized_fragment
              blank_reference eq_refl filled_fragment_calls
              finalized_fragment_call sample_times_in_range)
    as (ref & first & rest & Href & Hsamples & Hstart & _).
  exists ref. split; [exact Href|].
  rewrite Hstart. inversion Hsamples. reflexivity.
Defined.

(** Why the times of the samples are taken below [kInvalidTime], as lines
    81-82 take them: a key frame at the presentation time 2^63 - 1, the time
    that stands for "not set", would leave no first SAP time. *)
Example late_key_frame_has_unknown_sap :
  calls false [CallAddSample (key_sample kInvalidTime)]
    (InitializeFragment 0 audio_fragmenter) = Some late_fragment /\
  is_key_frame (key_sample kInvalidTime) = true /\
  exists f' ref,
    FinalizeFragment late_fragment = Some f' /\
    GenerateSegmentReference blank_reference f' = Some ref /\
    SegmentReference.sap_type ref = SegmentReference.TypeUnknown.
Proof.
  split; [vm_compute; reflexivity|]. split; [reflexivity|].
  eexists _, _. split; [vm_compute; reflexivity|].
  split; vm_compute; reflexivity.
Qed.

(** The scenario of the three samples, end to end. *)
Example three_samples_reference :
  GenerateSegmentReference blank_reference finalized_fragment =
  Some (SegmentReference.Build false 0 30 true SegmentReference.Type1 0 0).
Proof. vm_compute. reflexivity. Qed.

(** * More sample records *)

Lemma baseline_record_parses :
  ParseInternal (codec := sample_codec) baseline_record empty_record =
  (true,
   Build_Record 1 66 0 30 4
     ([[x67; x42]; [x68]] : list (Nalu (H264 := sample_codec)))
     0 16 16 1 1).
Proof. vm_compute. reflexivity. Qed.

(** The hypothesis of [bad_version_rejected] at an input of version 2. *)
Lemma bad_version_rejected_witness :
  head [x02; x64] <> Some x01 /\
  fst (ParseInternal (codec := sample_codec) [x02; x64] empty_record) = false.
Proof.
  assert (H : head [x02; x64] <> Some x01) by (simpl; discriminate).
  split; [exact H|].
  exact (proj2 (bad_version_rejected (codec := sample_codec) [x02; x64]
                  empty_record H)).
Defined.

(** The hypothesis of [successful_parse_header] at the Baseline record. *)
Lemma successful_parse_header_witness :
  exists p c l b tail,
    baseline_record = x01 :: p :: c :: l :: b :: tail /\ u8 p = 66.
Proof.
  destruct (successful_parse_header (codec := sample_codec) baseline_record
              empty_record _ baseline_record_parses)
    as (p & c & l & b & tail & Hdata & _ & Hp & _).
  exists p, c, l, b, tail. split; [exact Hdata | symmetry; exact Hp].
Defined.

(** The hypothesis of [successful_parse_units] at the Baseline record. *)
Lemma successful_parse_units_witness :
  exists n sps pps,
    baseline_record !! 5%nat = Some n /\
    ([[x67; x42]; [x68]] : list (Nalu (H264 := sample_codec))) = sps ++ pps /\
    length sps = Z.to_nat (Z.land (u8 n) 31).
Proof.
  destruct (successful_parse_units (codec := sample_codec) baseline_record
              empty_record _ baseline_record_parses)
    as (n & sps & pps & Hn & Hnalus & Hlen & _).
  exists n, sps, pps. split; [exact Hn|]. split; [exact Hnalus | exact Hlen].
Defined.

(** The hypotheses of [resolution_from_first_sps] at the Baseline record,
    and at a Baseline record whose SPS count byte 0xe0 has its low five bits
    at 0. *)
Lemma resolution_from_first_sps_witness :
  (exists n, baseline_record !! 5%nat = Some n) /\
  exists r0,
    ParseInternal (codec := sample_codec)
      [x01; x42; x00; x1e; xff; xe0; x00] empty_record = (true, r0) /\
    nalu_ r0 = [].
Proof.
  split.
  - destruct (proj1 (resolution_from_first_sps (codec := sample_codec)
                       baseline_record empty_record _)
                baseline_record_parses) as (n & added & Hn & _).
    exists n. exact Hn.
  - assert (Hp : ~ In (u8 x42) [100; 110; 122; 144])
      by (simpl; intros [H|[H|[H|[H|[]]]]]; discriminate H).
    assert (Hb : Z.land (u8 xff) 3 <> 2) by (vm_compute; discriminate).
    destruct (proj2 (resolution_from_first_sps (codec := sample_codec)
                       [] empty_record empty_record)
                x42 x00 x1e xff xe0 Hp Hb eq_refl)
      as (r0 & Hparse & Hnalu & _).
    exists r0. split; [exact Hparse | exact Hnalu].
Defined.

(** The hypothesis of [successful_parse_length] at the Baseline record. *)
Lemma successful_parse_length_witness : (7 <= length baseline_record)%nat.
Proof.
  exact (successful_parse_length (codec := sample_codec) baseline_record
           empty_record _ baseline_record_parses).
Defined.

(** The hypothesis of [codec_string_injective] at two equal strings. *)
Lemma codec_string_injective_witness :
  GetCodecString FOURCC_avc1 x64 x00 x1f = GetCodecString FOURCC_avc1 x64 x00 x1f /\
  x64 = x64.
Proof.
  split; [reflexivity|].
  exact (proj1 (codec_string_injective FOURCC_avc1 x64 x00 x1f x64 x00 x1f
                  eq_refl)).
Defined.

(** The hypotheses of [trailing_bytes_ignored] at the Baseline record
    followed by four bytes. *)
Lemma trailing_bytes_ignored_witness :
  fst (ParseInternal (codec := sample_codec)
         (baseline_record ++ [x00; x00; x00; x01]) empty_record) = true.
Proof.
  assert (Hprofile : ~ In 66 [100; 110; 122; 144])
    by (simpl; intros [H|[H|[H|[H|[]]]]]; discriminate H).
  rewrite (trailing_bytes_ignored (codec := sample_codec) baseline_record
             [x00; x00; x00; x01] empty_record _ baseline_record_parses Hprofile).
  reflexivity.
Defined.

(** With the profile 100 the same four bytes are read as the block of the
    profile, which announces a unit that is not there: the parse fails. *)
Example trailing_bytes_of_high_profile :
  fst (ParseInternal (codec := sample_codec) high_profile_record empty_record)
    = true /\
  fst (ParseInternal (codec := sample_codec)
         (high_profile_record ++ [x00; x00; x00; x01]) empty_record) = false.
Proof. split; vm_compute; reflexivity. Qed.

(** * More sample fragments *)

Lemma fragment_calls_run :
  calls false fragment_calls audio_fragmenter = Some finalized_fragment.
Proof. vm_compute. reflexivity. Qed.

Lemma filled_fragment_first_calls :
  calls false (CallAddSample (key_sample 0) :: more_sample_calls)
    audio_fragmenter = Some filled_fragment.
Proof. vm_compute. reflexivity. Qed.

Lemma finalized_fragment_reference :
  GenerateSegmentReference blank_reference finalized_fragment =
  Some (SegmentReference.Build false 0 30 true SegmentReference.Type1 0 0).
Proof. vm_compute. reflexivity. Qed.

(** The hypotheses of [fragment_duration_is_sum] at the three samples. *)
Lemma fragment_duration_is_sum_witness :
  calls false sample_calls_with_description
    (InitializeFragment 0 audio_fragmenter) = Some filled_fragment /\
  fragment_duration_ filled_fragment = 30.
Proof.
  split; [exact filled_fragment_calls|].
  assert (Hsum : sum_Z (map duration
                          (samples_added sample_calls_with_description))
                 < 2 ^ 32) by (vm_compute; reflexivity).
  exact (proj1 (fragment_duration_is_sum false sample_calls_with_description
                  0 audio_fragmenter filled_fragment eq_refl
                  filled_fragment_calls Hsum)).
Defined.

(** The hypotheses of [payload_buffer_matches_sizes] at the three samples. *)
Lemma payload_buffer_matches_sizes_witness :
  calls false sample_calls_with_description
    (InitializeFragment 0 audio_fragmenter) = Some filled_fragment /\
  exists run,
    runs (traf_ filled_fragment) = [run] /\
    sum_Z (TrackFragmentRun.sample_sizes run) = 4.
Proof.
  split; [exact filled_fragment_calls|].
  destruct (payload_buffer_matches_sizes false sample_calls_with_description
              0 audio_fragmenter filled_fragment eq_refl filled_fragment_calls)
    as (run & Hruns & _ & _ & Hsum).
  exists run. split; [exact Hruns | exact Hsum].
Defined.

(** The hypotheses of [composition_offsets_flag] at the three samples, two
    of which have offsets. *)
Lemma composition_offsets_flag_witness :
  calls false sample_calls_with_description
    (InitializeFragment 0 audio_fragmenter) = Some filled_fragment /\
  exists run,
    runs (traf_ filled_fragment) = [run] /\
    has_mask (TrackFragmentRun.flags run)
      TrackFragmentRun.kSampleCompTimeOffsetsPresentMask = true.
Proof.
  split; [exact filled_fragment_calls|].
  assert (Hall : Forall
                   (fun sample =>
                      int64 (pts sample) /\ int64 (dts sample) /\
                      int64 (pts sample - dts sample))
                   (samples_added sample_calls_with_description))
    by (repeat constructor; vm_compute; discriminate).
  destruct (proj1 (composition_offsets_flag false sample_calls_with_description
                     0 audio_fragmenter filled_fragment eq_refl
                     filled_fragment_calls Hall))
    as (run & Hruns & Hflag & _).
  exists run. split; [exact Hruns | exact Hflag].
Defined.

(** The hypotheses of [header_mirrors_run_flags] at the three samples. *)
Lemma header_mirrors_run_flags_witness :
  FinalizeFragment filled_fragment = Some finalized_fragment /\
  TrackFragmentHeader.sample_description_index
    (header (traf_ finalized_fragment)) = 1.
Proof.
  split; [exact finalized_fragment_call|].
  destruct (header_mirrors_run_flags false sample_calls_with_description
              0 audio_fragmenter filled_fragment finalized_fragment eq_refl
              filled_fragment_calls finalized_fragment_call)
    as (run' & _ & _ & _ & _ & _ & _ & _ & _ & Hindex).
  exact Hindex.
Defined.

(** The hypotheses of [finalized_array_lengths] at the three samples. *)
Lemma finalized_array_lengths_witness :
  FinalizeFragment filled_fragment = Some finalized_fragment /\
  exists run',
    runs (traf_ finalized_fragment) = [run'] /\
    length (TrackFragmentRun.sample_composition_time_offsets run') = 3%nat.
Proof.
  split; [exact finalized_fragment_call|].
  destruct (finalized_array_lengths false sample_calls_with_description
              0 audio_fragmenter filled_fragment finalized_fragment eq_refl
              filled_fragment_calls finalized_fragment_call)
    as (run' & Hruns & Hlen & _).
  exists run'. split; [exact Hruns | exact Hlen].
Defined.

(** The hypotheses of [sap_delta_time_nonnegative] at the three samples. *)
Lemma sap_delta_time_nonnegative_witness :
  GenerateSegmentReference blank_reference finalized_fragment =
    Some (SegmentReference.Build false 0 30 true SegmentReference.Type1 0 0) /\
  forall sample,
    In sample (samples_added sample_calls_with_description) ->
    0 <= pts sample.
Proof.
  split; [exact finalized_fragment_reference|].
  exact (proj2 (proj2
    (sap_delta_time_nonnegative sample_calls_with_description
       0 audio_fragmenter filled_fragment finalized_fragment
       blank_reference _ eq_refl filled_fragment_calls
       finalized_fragment_call finalized_fragment_reference
       sample_times_in_range))).
Defined.


(** The hypotheses of [fragment_independent_of_history] at a new fragmenter
    and one that has finalized a fragment. *)
Lemma fragment_independent_of_history_witness :
  calls false fragment_calls audio_fragmenter = Some finalized_fragment /\
  exists fb',
    calls false fragment_calls finalized_fragment = Some fb' /\
    runs (traf_ finalized_fragment) = runs (traf_ fb').
Proof.
  split; [exact fragment_calls_run|].
  assert (Hb : fragment_initialized_ finalized_fragment = false)
    by (vm_compute; reflexivity).
  assert (Hpre : seek_preroll_ audio_fragmenter = seek_preroll_ finalized_fragment)
    by (vm_compute; reflexivity).
  destruct (fragment_independent_of_history false (key_sample 0)
              more_sample_calls audio_fragmenter finalized_fragment
              finalized_fragment eq_refl Hb Hpre eq_refl fragment_calls_run)
    as (fb' & Hrun & Hruns & _).
  exists fb'. split; [exact Hrun | exact Hruns].
Defined.

(** The hypotheses of [roll_mapping_of_stream] at an audio stream with a
    seek preroll. *)
Lemma roll_mapping_of_stream_witness :
  FinalizeFragment filled_fragment = Some finalized_fragment /\
  List.filter is_track_roll (sample_to_groups (traf_ finalized_fragment))
  = [roll_sample_to_group 3].
Proof.
  split; [exact finalized_fragment_call|].
  exact (roll_mapping_of_stream false (AudioStreamInfo 80000000) empty_traf
           (key_sample 0) more_sample_calls filled_fragment finalized_fragment
           eq_refl filled_fragment_first_calls finalized_fragment_call).
Defined.

(** The hypotheses of [starts_with_sap_before_finalize] at the three
    samples, before the fragment is finalized. *)
Lemma starts_with_sap_before_finalize_witness :
  calls false sample_calls_with_description
    (InitializeFragment 0 audio_fragmenter) = Some filled_fragment /\
  StartsWithSAP filled_fragment = Some true.
Proof.
  split; [exact filled_fragment_calls|].
  exact (starts_with_sap_before_finalize false sample_calls_with_description
           0 audio_fragmenter filled_fragment eq_refl filled_fragment_calls).
Defined.

(** A video stream gets no mapping of type 'roll'. *)
Example video_fragment_has_no_roll :
  match calls false fragment_calls video_fragmenter with
  | Some f' => List.filter is_track_roll (sample_to_groups (traf_ f'))
  | None => [roll_sample_to_group 0]
  end = [].
Proof. vm_compute. reflexivity. Qed.
